(** * Qwen-Image-Diffusion: the orchestration code of [app.py]

    A shallow embedding of the request glue of [app.py] (the LoRA resolver
    [load_lora_opt], the orchestrator [generate_qwen] and its wrapper
    [generate]) together with the properties of the adapter life cycle, the
    seed policy, the temporary directory and the zip packaging.

    Python [str] values are Rocq strings whose characters are code points
    below 256.  Everything the program does to the outside (the diffusion
    pipeline, the file system, HTTP, the clock, the random source) goes
    through a small state-and-exception monad that logs every external
    call. *)

From Stdlib Require Import ZArith Ascii String DecimalString.
From Stdlib Require Import PrimFloat SpecFloat FloatOps Uint63.
From stdpp Require Import base option list strings gmap.

Local Open Scope string_scope.
Local Open Scope list_scope.

(** ** Python string operations used by [app.py] *)

Module PyStr.

(** [c.isspace()] for a code point below 256; these are the characters
    removed by [str.strip()] without argument. *)
Definition is_space (c : ascii) : bool :=
  let n := N_of_ascii c in
  ((9 <=? n) && (n <=? 13) || (28 <=? n) && (n <=? 32)
   || (n =? 133) || (n =? 160))%N.

(** [c in chars] *)
Fixpoint mem_char (chars : string) (c : ascii) : bool :=
  match chars with
  | EmptyString => false
  | String d rest => if Ascii.eqb c d then true else mem_char rest c
  end.

Fixpoint lstrip_by (p : ascii -> bool) (s : string) : string :=
  match s with
  | EmptyString => EmptyString
  | String c rest => if p c then lstrip_by p rest else s
  end.

Fixpoint rstrip_by (p : ascii -> bool) (s : string) : string :=
  match s with
  | EmptyString => EmptyString
  | String c rest =>
      match rstrip_by p rest with
      | EmptyString => if p c then EmptyString else String c EmptyString
      | r => String c r
      end
  end.

Definition strip_by (p : ascii -> bool) (s : string) : string :=
  rstrip_by p (lstrip_by p s).

(** Every character of [s] satisfies [p]. *)
Fixpoint all_chars (p : ascii -> bool) (s : string) : bool :=
  match s with
  | EmptyString => true
  | String c rest => p c && all_chars p rest
  end.

(** [s.strip()] *)
Definition strip (s : string) : string := strip_by is_space s.

(** [s.strip(chars)] *)
Definition strip_chars (chars s : string) : string :=
  strip_by (mem_char chars) s.

(** [s.startswith(p)] *)
Fixpoint startswith (p s : string) : bool :=
  match p, s with
  | EmptyString, _ => true
  | String a p', String b s' => if Ascii.eqb a b then startswith p' s' else false
  | String _ _, EmptyString => false
  end.

(** [sub in s] *)
Fixpoint contains (sub s : string) : bool :=
  if startswith sub s then true
  else match s with
       | EmptyString => false
       | String _ rest => contains sub rest
       end.

(** [s.replace(old, new)] for a non-empty [old]: occurrences are replaced
    from the left and do not overlap.  [skip] counts the characters of an
    occurrence that was just replaced and are still to be dropped. *)
Fixpoint replace_from (old new : string) (skip : nat) (s : string) : string :=
  match s with
  | EmptyString => EmptyString
  | String c rest =>
      match skip with
      | S k => replace_from old new k rest
      | O =>
          if startswith old s
          then new +:+ replace_from old new (String.length old - 1) rest
          else String c (replace_from old new 0 rest)
      end
  end.

Definition replace (old new s : string) : string := replace_from old new 0 s.

(** The part of [s] after its last ["/"], and [os.path.basename] (posix). *)
Fixpoint after_last_slash (s : string) : string :=
  match s with
  | EmptyString => EmptyString
  | String c rest =>
      if contains "/" rest then after_last_slash rest
      else if Ascii.eqb c "/" then rest else s
  end.

Definition basename (p : string) : string := after_last_slash p.

(** [s.endswith("/")] *)
Fixpoint ends_with_slash (s : string) : bool :=
  match s with
  | EmptyString => false
  | String c EmptyString => Ascii.eqb c "/"
  | String _ rest => ends_with_slash rest
  end.

(** [os.path.join(a, b)] (posix, two arguments). *)
Definition path_join (a b : string) : string :=
  if startswith "/" b then b
  else if String.eqb a EmptyString || ends_with_slash a then a +:+ b
  else a +:+ "/" +:+ b.

(** [str(i)] for a non-negative integer, as in [f"Img_{i}.png"]. *)
Definition str_of_nat (i : nat) : string :=
  NilEmpty.string_of_uint (Nat.to_uint i).

End PyStr.

Import PyStr.


(** ** Values exchanged with the outside *)

(** Exceptions that reach the caller.  The program never catches one, so
    only their propagation matters. *)
Inductive exn : Set :=
| ValueError
| OSError
| RequestException
| HTTPError
| RuntimeError.

Inductive res (A : Type) : Type :=
| Ok (a : A)
| Raise (e : exn).
Arguments Ok {A} a.
Arguments Raise {A} e.

Definition is_ok {A} (r : res A) : bool :=
  match r with Ok _ => true | Raise _ => false end.

(** A PIL image produced by the pipeline, as an opaque handle. *)
Inductive image : Set := Image (id : N).

(** [torch.Generator(device).manual_seed(seed)] *)
Inductive generator : Set := Generator (seed : Z).

(** The keyword arguments of the one pipeline invocation. *)
Record call_args := CallArgs {
  ca_prompt : string;
  ca_negative_prompt : string;
  ca_height : Z;
  ca_width : Z;
  ca_guidance_scale : float;
  ca_num_inference_steps : Z;
  ca_num_images_per_prompt : Z;
  ca_generator : generator;
  ca_output_type : string
}.

(** The answer of [requests.get(url, stream=True)]: what [raise_for_status]
    will do, the chunks [iter_content] yields, and the error the stream may
    end with. *)
Record response := Response {
  resp_status : res unit;
  resp_chunks : list string;
  resp_broken : option exn
}.

(** What a file holds. *)
Inductive content : Type :=
| FBytes (chunks : list string)
| FImage (img : image)
| FZip (entries : list (string * string)).

(** Every call that leaves the program. *)
Inductive event : Type :=
| ERandint (lo hi : Z)
| EManualSeed (seed : Z)
| ETime
| EGetListAdapters
| EDeleteAdapters (name : string)
| EDisableLora
| ELoadLoraWeights (ref adapter_name : string)
| ESetAdapters (names : list string) (weights : list float)
| EPipeCall (args : call_args)
| EMkdtemp
| EPrint (msg : string)
| EHttpGet (url : string)
| ERaiseForStatus
| EOpenWb (path : string)
| EWrite (path chunk : string)
| EIterContentError
| EClose (path : string)
| ERmtree (dir : string)
| EUuid4
| EImageSave (img : image) (path : string)
| EZipOpen (name : string)
| EZipWrite (name src arcname : string)
| EZipClose (name : string).

(** The calls of the adapter cleanup, the calls that attach an adapter,
    and the calls of a file download. *)
Definition is_cleanup (e : event) : bool :=
  match e with
  | EGetListAdapters | EDeleteAdapters _ | EDisableLora => true
  | _ => false
  end.

Definition is_attach (e : event) : bool :=
  match e with
  | ELoadLoraWeights _ _ | ESetAdapters _ _ => true
  | _ => false
  end.

Definition is_set_adapters (e : event) : bool :=
  match e with ESetAdapters _ _ => true | _ => false end.

Definition is_generation (e : event) : bool :=
  match e with
  | ELoadLoraWeights _ _ | ESetAdapters _ _ | EPipeCall _ => true
  | _ => false
  end.

Definition is_download (e : event) : bool :=
  match e with
  | EMkdtemp | EHttpGet _ | ERaiseForStatus | EOpenWb _ | EWrite _ _
  | EIterContentError | EClose _ | ERmtree _ => true
  | _ => false
  end.

(** ** The pipeline, an external object

    [pipe_qwen] is created once and shared by all requests.  Its class
    belongs to the diffusion library, so its methods are an interface here:
    each takes the pipeline state and gives a result or an exception and the
    new state.  [get_list_adapters] gives what iterating over the returned
    object yields: the program does nothing else with it.  [attached] (the
    names of the adapters the pipeline holds) and [lora_enabled] observe a
    state; the program does not call them. *)
Class Pipeline (pstate : Type) := {
  get_list_adapters : pstate -> res (list string) * pstate;
  delete_adapters : string -> pstate -> res unit * pstate;
  disable_lora : pstate -> res unit * pstate;
  load_lora_weights : string -> string -> pstate -> res unit * pstate;
  set_adapters : list string -> list float -> pstate -> res unit * pstate;
  pipe_call : call_args -> pstate -> res (list image) * pstate;
  attached : pstate -> gset string;
  lora_enabled : pstate -> bool
}.

(** What the adapter methods do to the set of attached adapters:
    [delete_adapters] attaches nothing and, when it returns, the name it
    was given is not attached; [load_lora_weights] attaches at most the
    adapter it names; the other methods leave the set as it is.  Nothing is
    said of what [get_list_adapters()] yields. *)
Class PipelineLaws (pstate : Type) `{Pipeline pstate} : Prop := {
  get_list_adapters_spec p :
    attached (get_list_adapters p).2 = attached p;
  delete_adapters_spec a p :
    attached (delete_adapters a p).2 ⊆ attached p /\
    (is_ok (delete_adapters a p).1 = true -> a ∉ attached (delete_adapters a p).2);
  disable_lora_spec p :
    attached (disable_lora p).2 = attached p /\
    (is_ok (disable_lora p).1 = true -> lora_enabled (disable_lora p).2 = false);
  load_lora_weights_spec ref name p :
    attached (load_lora_weights ref name p).2 ⊆ attached p ∪ {[name]};
  set_adapters_spec names ws p :
    attached (set_adapters names ws p).2 = attached p;
  pipe_call_spec args p :
    attached (pipe_call args p).2 = attached p
}.

(** The single handle through which the program reaches the pipeline:
    the module-level [pipe_qwen], also what [load_lora_opt] receives as
    [pipe]. *)
Inductive pipe_ref : Set := pipe_qwen.

(** ** The rest of the outside world

    The outcome of each call to the standard library, to [requests], [torch],
    [uuid] and PIL.  Calls whose outcome may differ from one time to the next
    are indexed by a counter that advances with every such call. *)
Record Ext := {
  x_entropy : nat -> Z;
  x_manual_seed : Z -> res unit;
  x_time : nat -> float;
  x_fmt_2f : float -> string;
  x_uuid4 : nat -> string;
  x_urlparse_path : string -> res string;
  x_mkdtemp : nat -> res string;
  x_http_get : nat -> string -> res response;
  x_open_wb : nat -> string -> res unit;
  x_write : nat -> string -> string -> res unit;
  x_close : nat -> string -> res unit;
  x_image_save : nat -> image -> string -> res unit;
  x_zip_open : nat -> string -> res unit;
  x_zip_write : nat -> string -> string -> res unit;
  x_zip_close : nat -> string -> res unit
}.

(** [MAX_SEED = np.iinfo(np.int32).max] *)
Definition MAX_SEED : Z := 2147483647.
Definition MAX_IMAGE_SIZE : Z := 2048.

(** ** The state of the process and the monad of the program *)

Section Program.

Context {pstate : Type} `{Pipeline pstate}.
Variable X : Ext.

(** One line of the log: the call, whether it returned, and the pipeline
    state it left. *)
Record entry := Entry {
  ev : event;
  ok : bool;
  snap : pstate
}.

(** The shared pipeline, the part of the file system the program touches,
    and the counter of the calls to the outside.  [w_files] holds the files
    that the program names itself: the images, the archives and the content
    of the temporary directories.  What the library keeps of its own (the
    weights it fetches into its cache when given a registry reference) is
    part of the state of the pipeline. *)
Record world := World {
  w_pipe : pstate;
  w_dirs : gset string;
  w_files : gmap string content;
  w_tick : nat
}.

(** A computation gives a value or an exception, the new state of the
    process, and the log of the calls it made, in order. *)
Definition M (A : Type) : Type := world -> res A * world * list entry.

Definition res_of {A} (o : res A * world * list entry) : res A := o.1.1.
Definition world_of {A} (o : res A * world * list entry) : world := o.1.2.
Definition log_of {A} (o : res A * world * list entry) : list entry := o.2.

Definition ret {A} (a : A) : M A := fun w => (Ok a, w, []).

Definition raise {A} (e : exn) : M A := fun w => (Raise e, w, []).

Definition bind {A B} (c : M A) (k : A -> M B) : M B :=
  fun w =>
    match c w with
    | (Ok a, w1, l1) =>
        match k a w1 with
        | (r, w2, l2) => (r, w2, l1 ++ l2)
        end
    | (Raise e, w1, l1) => (Raise e, w1, l1)
    end.

#[global] Instance M_ret : MRet M := @ret.
#[global] Instance M_bind : MBind M := fun A B k c => bind c k.

(** [try: body finally: fin] *)
Definition try_finally {A} (body : M A) (fin : M unit) : M A :=
  fun w =>
    match body w with
    | (r, w1, l1) =>
        match fin w1 with
        | (Ok _, w2, l2) => (r, w2, l1 ++ l2)
        | (Raise e, w2, l2) => (Raise e, w2, l1 ++ l2)
        end
    end.

(** [for x in l: f(x)] *)
Fixpoint for_each {A} (f : A -> M unit) (l : list A) : M unit :=
  match l with
  | [] => ret tt
  | x :: rest => f x;; for_each f rest
  end.

(** [for i, x in enumerate(l): f(i, x)], counting from [i]. *)
Fixpoint for_enumerate {A} (f : nat -> A -> M unit) (i : nat) (l : list A) : M unit :=
  match l with
  | [] => ret tt
  | x :: rest => f i x;; for_enumerate f (S i) rest
  end.

(** [[f(x) for x in l]] *)
Fixpoint list_comp {A B} (f : A -> M B) (l : list A) : M (list B) :=
  match l with
  | [] => ret []
  | x :: rest => y ← f x; ys ← list_comp f rest; ret (y :: ys)
  end.

Definition lift {A} (r : res A) : M A := fun w => (r, w, []).

(** A method call on the shared pipeline: it changes the state of the
    pipeline and none of the files of [w_files]. *)
Definition pipe_op {A} (e : event) (f : pstate -> res A * pstate) : M A :=
  fun w =>
    match f (w_pipe w) with
    | (r, p) =>
        (r, World p (w_dirs w) (w_files w) (w_tick w), [Entry e (is_ok r) p])
    end.

(** A call to the rest of the outside world; [upd] is what a call that
    returns does to the file system. *)
Definition env_op {A} (e : event) (f : nat -> res A)
    (upd : A -> world -> gset string * gmap string content) : M A :=
  fun w =>
    let r := f (w_tick w) in
    let fs := match r with Ok a => upd a w | Raise _ => (w_dirs w, w_files w) end in
    (r, World (w_pipe w) fs.1 fs.2 (S (w_tick w)),
     [Entry e (is_ok r) (w_pipe w)]).

Definition same_fs {A} (_ : A) (w : world) : gset string * gmap string content :=
  (w_dirs w, w_files w).

Definition put_file (path : string) (c : content) (w : world)
    : gset string * gmap string content :=
  (w_dirs w, <[path := c]> (w_files w)).

(** The pipeline methods, called through a handle. *)
Definition m_get_list_adapters (pipe : pipe_ref) : M (list string) :=
  pipe_op EGetListAdapters get_list_adapters.
Definition m_delete_adapters (pipe : pipe_ref) (a : string) : M unit :=
  pipe_op (EDeleteAdapters a) (delete_adapters a).
Definition m_disable_lora (pipe : pipe_ref) : M unit :=
  pipe_op EDisableLora disable_lora.
Definition m_load_lora_weights (pipe : pipe_ref) (ref adapter_name : string) : M unit :=
  pipe_op (ELoadLoraWeights ref adapter_name) (load_lora_weights ref adapter_name).
Definition m_set_adapters (pipe : pipe_ref) (names : list string) (ws : list float) : M unit :=
  pipe_op (ESetAdapters names ws) (set_adapters names ws).
Definition m_pipe_call (pipe : pipe_ref) (args : call_args) : M (list image) :=
  pipe_op (EPipeCall args) (pipe_call args).

(** [random.randint(lo, hi)]: a draw from the inclusive range. *)
Definition randint_value (lo hi : Z) (raw : Z) : Z := (lo + raw mod (hi - lo + 1))%Z.
Definition randint (lo hi : Z) : M Z :=
  env_op (ERandint lo hi) (fun t => Ok (randint_value lo hi (x_entropy X t))) same_fs.

(** [torch.Generator(device).manual_seed(seed)] *)
Definition manual_seed (seed : Z) : M generator :=
  env_op (EManualSeed seed)
    (fun _ => match x_manual_seed X seed with
              | Ok _ => Ok (Generator seed)
              | Raise e => Raise e
              end) same_fs.

(** [time.time()] *)
Definition time_time : M float :=
  env_op ETime (fun t => Ok (x_time X t)) same_fs.

(** [str(uuid.uuid4())] *)
Definition uuid4_str : M string :=
  env_op EUuid4 (fun t => Ok (x_uuid4 X t)) same_fs.

(** [urlparse(url).path] *)
Definition urlparse_path (url : string) : M string := lift (x_urlparse_path X url).

(** [tempfile.mkdtemp()] *)
Definition mkdtemp : M string :=
  env_op EMkdtemp (x_mkdtemp X) (fun d w => ({[d]} ∪ w_dirs w, w_files w)).

(** [shutil.rmtree(d, ignore_errors=True)]: the directory and the files
    below it are gone afterwards. *)
Definition rmtree (d : string) : M unit :=
  env_op (ERmtree d) (fun _ => Ok tt)
    (fun _ w => (w_dirs w ∖ {[d]},
                 filter (fun kv => startswith (d +:+ "/") kv.1 = false) (w_files w))).

Definition print (msg : string) : M unit :=
  env_op (EPrint msg) (fun _ => Ok tt) same_fs.

(** [requests.get(url, stream=True)] and [resp.raise_for_status()] *)
Definition requests_get (url : string) : M response :=
  env_op (EHttpGet url) (fun t => x_http_get X t url) same_fs.
Definition raise_for_status (resp : response) : M unit :=
  env_op ERaiseForStatus (fun _ => resp_status resp) same_fs.

(** [open(path, "wb")] creates or truncates the file; [f.write(chunk)]
    appends to it. *)
Definition open_wb (path : string) : M unit :=
  env_op (EOpenWb path) (fun t => x_open_wb X t path) (fun _ => put_file path (FBytes [])).
Definition file_write (path chunk : string) : M unit :=
  env_op (EWrite path chunk) (fun t => x_write X t path chunk)
    (fun _ w =>
       match w_files w !! path with
       | Some (FBytes cs) => put_file path (FBytes (cs ++ [chunk])) w
       | _ => put_file path (FBytes [chunk]) w
       end).

(** [for chunk in resp.iter_content(chunk_size=8192): f.write(chunk)]:
    the stream may break after the chunks it delivered. *)
Definition write_chunks (path : string) (resp : response) : M unit :=
  for_each (file_write path) (resp_chunks resp);;
  match resp_broken resp with
  | Some e => env_op EIterContentError (fun _ => Raise e) same_fs
  | None => ret tt
  end.

(** [f.close()], what leaving [with open(path, "wb") as f] does. *)
Definition file_close (path : string) : M unit :=
  env_op (EClose path) (fun t => x_close X t path) same_fs.

(** [with open(path, "wb") as f: body]: the file is closed when the body
    is left, also by an exception; an exception of the close itself is
    the one that goes on. *)
Definition with_open_wb {A} (path : string) (body : M A) : M A :=
  open_wb path;; try_finally body (file_close path).

(** [img.save(path)] *)
Definition image_save (img : image) (path : string) : M unit :=
  env_op (EImageSave img path) (fun t => x_image_save X t img path)
    (fun _ => put_file path (FImage img)).

(** [zipfile.ZipFile(name, 'w')] and [zipf.write(src, arcname=arc)] *)
Definition zip_open (name : string) : M unit :=
  env_op (EZipOpen name) (fun t => x_zip_open X t name) (fun _ => put_file name (FZip [])).
Definition zip_write (name src arc : string) : M unit :=
  env_op (EZipWrite name src arc) (fun t => x_zip_write X t src arc)
    (fun _ w =>
       match w_files w !! name with
       | Some (FZip es) => put_file name (FZip (es ++ [(arc, src)])) w
       | _ => put_file name (FZip [(arc, src)]) w
       end).

(** [zipf.close()], what leaving [with zipfile.ZipFile(name, 'w') as zipf]
    does. *)
Definition zip_close (name : string) : M unit :=
  env_op (EZipClose name) (fun t => x_zip_close X t name) same_fs.

(** [with zipfile.ZipFile(name, 'w') as zipf: body] *)
Definition with_zip_file {A} (name : string) (body : M A) : M A :=
  zip_open name;; try_finally body (zip_close name).

(** ** The program *)

Definition save_image (img : image) : M string :=
  u ← uuid4_str;
  let unique_name := u +:+ ".png" in
  image_save img unique_name;;
  ret unique_name.

Definition randomize_seed_fn (seed : Z) (randomize_seed : bool) : M Z :=
  if randomize_seed then randint 0 MAX_SEED else ret seed.

Definition load_lora_opt (pipe : pipe_ref) (lora_input : string) : M unit :=
  let lora_input := strip lora_input in
  if String.eqb lora_input EmptyString then ret tt
  else if contains "/" lora_input && negb (startswith "http" lora_input) then
    m_load_lora_weights pipe lora_input "default"
  else if startswith "http" lora_input then
    let url := lora_input in
    if contains "huggingface.co" url && negb (contains "/blob/" url)
       && negb (contains "/resolve/" url)
    then
      path ← urlparse_path url;
      let repo_id := strip_chars "/" path in
      m_load_lora_weights pipe repo_id "default"
    else
      let url := if contains "/blob/" url
                 then replace "/blob/" "/resolve/" url else url in
      tmp_dir ← mkdtemp;
      path ← urlparse_path url;
      let local_path := path_join tmp_dir (basename path) in
      try_finally
        (print ("Downloading LoRA from " +:+ url +:+ "...");;
         resp ← requests_get url;
         raise_for_status resp;;
         with_open_wb local_path (write_chunks local_path resp);;
         print ("Saved LoRA to " +:+ local_path);;
         m_load_lora_weights pipe local_path "default")
        (rmtree tmp_dir)
  else ret tt.

(** The URL that is downloaded: the stripped input, with every
    ["/blob/"] turned into ["/resolve/"]. *)
Definition download_url (s : string) : string :=
  if contains "/blob/" (strip s)
  then replace "/blob/" "/resolve/" (strip s) else strip s.

(** The body of the [try] statement of [load_lora_opt]. *)
Definition download_body (url local_path : string) : M unit :=
  print ("Downloading LoRA from " +:+ url +:+ "...");;
  resp ← requests_get url;
  raise_for_status resp;;
  with_open_wb local_path (write_chunks local_path resp);;
  print ("Saved LoRA to " +:+ local_path);;
  m_load_lora_weights pipe_qwen local_path "default".

(** The adapter cleanup, written twice in [generate_qwen]:
    [for adapter in pipe_qwen.get_list_adapters(): delete_adapters(adapter)]
    and then [disable_lora()]. *)
Definition clear_adapters : M unit :=
  current_adapters ← m_get_list_adapters pipe_qwen;
  for_each (m_delete_adapters pipe_qwen) current_adapters;;
  m_disable_lora pipe_qwen.

Definition result : Type := list string * Z * string * option string.

(** [f"Img_{i}.png"] *)
Definition arcname (i : nat) : string := "Img_" +:+ str_of_nat i +:+ ".png".

Definition generate_qwen
    (prompt negative_prompt : string) (seed width height : Z)
    (guidance_scale : float) (randomize_seed : bool)
    (num_inference_steps num_images : Z) (zip_images : bool)
    (lora_input : string) (lora_scale : float) : M result :=
  seed ← (if randomize_seed then randint 0 MAX_SEED else ret seed);
  generator ← manual_seed seed;
  start_time ← time_time;
  clear_adapters;;
  (if negb (String.eqb lora_input EmptyString)
      && negb (String.eqb (strip lora_input) EmptyString)
   then load_lora_opt pipe_qwen lora_input;;
        m_set_adapters pipe_qwen ["default"] [lora_scale]
   else ret tt);;
  images ← m_pipe_call pipe_qwen
              (CallArgs prompt
                 (if String.eqb negative_prompt EmptyString
                  then EmptyString else negative_prompt)
                 height width guidance_scale num_inference_steps num_images
                 generator "pil");
  end_time ← time_time;
  let duration := PrimFloat.sub end_time start_time in
  image_paths ← list_comp save_image images;
  zip_path ←
    (if zip_images then
       u ← uuid4_str;
       let zip_name := u +:+ ".zip" in
       with_zip_file zip_name
         (for_enumerate
            (fun i img_path => zip_write zip_name img_path (arcname i))
            0 image_paths);;
       ret (Some zip_name)
     else ret None);
  clear_adapters;;
  ret (image_paths, seed, x_fmt_2f X duration, zip_path).

Definition generate
    (prompt negative_prompt : string) (use_negative_prompt : bool)
    (seed width height : Z) (guidance_scale : float) (randomize_seed : bool)
    (num_inference_steps num_images : Z) (zip_images : bool)
    (lora_input : string) (lora_scale : float) : M result :=
  let final_negative_prompt :=
    if use_negative_prompt then negative_prompt else EmptyString in
  generate_qwen prompt final_negative_prompt seed width height guidance_scale
    randomize_seed num_inference_steps num_images zip_images lora_input lora_scale.

(** ** Requests served one at a time

    The form's [run] action calls [generate] with the thirteen fields of the
    form.  The hosting framework queues the requests; a request that raises
    is reported to its client and the next one is served. *)
Record request := Request {
  rq_prompt : string;
  rq_negative_prompt : string;
  rq_use_negative_prompt : bool;
  rq_seed : Z;
  rq_width : Z;
  rq_height : Z;
  rq_guidance_scale : float;
  rq_randomize_seed : bool;
  rq_num_inference_steps : Z;
  rq_num_images : Z;
  rq_zip_images : bool;
  rq_lora : string;
  rq_lora_scale : float
}.

Definition handle (r : request) : M result :=
  generate (rq_prompt r) (rq_negative_prompt r) (rq_use_negative_prompt r)
    (rq_seed r) (rq_width r) (rq_height r) (rq_guidance_scale r)
    (rq_randomize_seed r) (rq_num_inference_steps r) (rq_num_images r)
    (rq_zip_images r) (rq_lora r) (rq_lora_scale r).

(** The requests of the queue, served in order; the state of the process
    after the last one and the log of all of them. *)
Fixpoint serve (rs : list request) (w : world) : world * list entry :=
  match rs with
  | [] => (w, [])
  | r :: rest =>
      let o := handle r w in
      let o' := serve rest (world_of o) in
      (o'.1, log_of o ++ o'.2)
  end.

(** ** Auxiliary definitions for the proofs *)

(** The phases of [generate_qwen], for the proofs: what comes before the
    new adapter, the attachment of the adapter, and the generation with the
    saving of its images. *)
Definition prologue (seed : Z) (randomize_seed : bool) : M (Z * generator * float) :=
  seed ← (if randomize_seed then randint 0 MAX_SEED else ret seed);
  generator ← manual_seed seed;
  start_time ← time_time;
  clear_adapters;;
  ret (seed, generator, start_time).

Definition attach_lora (lora_input : string) (lora_scale : float) : M unit :=
  if negb (String.eqb lora_input EmptyString)
     && negb (String.eqb (strip lora_input) EmptyString)
  then load_lora_opt pipe_qwen lora_input;;
       m_set_adapters pipe_qwen ["default"] [lora_scale]
  else ret tt.

Definition produce
    (prompt negative_prompt : string) (width height : Z)
    (guidance_scale : float) (num_inference_steps num_images : Z)
    (zip_images : bool) (generator : generator) (start_time : float)
    : M (list string * string * option string) :=
  images ← m_pipe_call pipe_qwen
              (CallArgs prompt
                 (if String.eqb negative_prompt EmptyString
                  then EmptyString else negative_prompt)
                 height width guidance_scale num_inference_steps num_images
                 generator "pil");
  end_time ← time_time;
  let duration := PrimFloat.sub end_time start_time in
  image_paths ← list_comp save_image images;
  zip_path ←
    (if zip_images then
       u ← uuid4_str;
       let zip_name := u +:+ ".zip" in
       with_zip_file zip_name
         (for_enumerate
            (fun i img_path => zip_write zip_name img_path (arcname i))
            0 image_paths);;
       ret (Some zip_name)
     else ret None);
  ret (image_paths, x_fmt_2f X duration, zip_path).

Definition generate_qwen_phased
    (prompt negative_prompt : string) (seed width height : Z)
    (guidance_scale : float) (randomize_seed : bool)
    (num_inference_steps num_images : Z) (zip_images : bool)
    (lora_input : string) (lora_scale : float) : M result :=
  sgt ← prologue seed randomize_seed;
  attach_lora lora_input lora_scale;;
  out ← produce prompt negative_prompt width height guidance_scale
          num_inference_steps num_images zip_images sgt.1.2 sgt.2;
  clear_adapters;;
  ret (out.1.1, sgt.1.1, out.1.2, out.2).

(** Lines of the log that are not of a given kind. *)
Definition no_attach (x : entry) : Prop := is_attach (ev x) = false.
Definition no_cleanup (x : entry) : Prop := is_cleanup (ev x) = false.
Definition no_generation (x : entry) : Prop := is_generation (ev x) = false.
Definition no_download (x : entry) : Prop := is_download (ev x) = false.

(** No adapter but ["default"] is attached. *)
Definition only_default (p : pstate) : Prop := attached p ⊆ {["default"]}.

(** A [set_adapters] call that returned. *)
Definition set_ok (x : entry) : bool := is_set_adapters (ev x) && ok x.

(** [keeps I P c]: run from a state that satisfies [I], the computation [c]
    ends in such a state, whether it returns or raises, and every line it
    logs satisfies [P]. *)
Definition keeps (I : world -> Prop) (P : entry -> Prop) {A} (c : M A) : Prop :=
  forall w, I w -> I (world_of (c w)) /\ Forall P (log_of (c w)).

End Program.

Arguments entry pstate : clear implicits.
Arguments world pstate : clear implicits.

(** ** A reference world

    One concrete pipeline and one concrete outside world, on which the
    program can be run.  The pipeline follows the diffusion library: the
    adapters live in its one component that takes LoRA weights, the
    transformer, which keeps their names in the order of loading;
    [get_list_adapters()] is a dict from component name to adapter names,
    with a key for each component that holds adapters, so that iterating
    over it yields component names; [delete_adapters] of a name that is no
    adapter removes nothing; [load_lora_weights] under a name in use
    raises.  [urlparse] follows [urllib.parse] on its input, and every
    other call returns unless the world says otherwise. *)

Module RefWorld.

Record ref_pipe := RefPipe {
  rp_adapters : list string;
  rp_active : list (string * float);
  rp_lora_on : bool;
  rp_missing : list string;
  rp_call_raises : bool
}.

Definition ref_images (n : Z) : list image :=
  map (fun i => Image (N.of_nat i)) (seq 0 (Z.to_nat n)).

Definition in_list (a : string) (l : list string) : bool :=
  existsb (String.eqb a) l.

(** The component of the pipeline that takes LoRA weights. *)
Definition component : string := "transformer".

(** [list(pipe.get_list_adapters())]: the keys of the dict. *)
Definition adapter_keys (p : ref_pipe) : list string :=
  match rp_adapters p with
  | [] => []
  | _ :: _ => [component]
  end.

#[global] Instance ref_pipeline : Pipeline ref_pipe := {
  get_list_adapters p := (Ok (adapter_keys p), p);
  delete_adapters a p :=
    (Ok tt,
     RefPipe (filter (fun b => b <> a) (rp_adapters p))
       (filter (fun bw => bw.1 <> a) (rp_active p))
       (rp_lora_on p) (rp_missing p) (rp_call_raises p));
  disable_lora p :=
    (Ok tt, RefPipe (rp_adapters p) (rp_active p) false (rp_missing p) (rp_call_raises p));
  load_lora_weights ref name p :=
    if in_list ref (rp_missing p) then (Raise OSError, p)
    else if in_list name (rp_adapters p) then (Raise ValueError, p)
    else (Ok tt,
          RefPipe (rp_adapters p ++ [name]) (rp_active p) (rp_lora_on p)
            (rp_missing p) (rp_call_raises p));
  set_adapters names ws p :=
    if forallb (fun a => in_list a (rp_adapters p)) names
    then (Ok tt,
          RefPipe (rp_adapters p) (zip names ws) true (rp_missing p) (rp_call_raises p))
    else (Raise ValueError, p);
  pipe_call args p :=
    if rp_call_raises p then (Raise RuntimeError, p)
    else (Ok (ref_images (ca_num_images_per_prompt args)), p);
  attached p := list_to_set (rp_adapters p);
  lora_enabled p := rp_lora_on p
}.

(** The freshly loaded pipeline: no adapter, no missing reference. *)
Definition fresh_pipe : ref_pipe := RefPipe [] [] false [] false.

(** *** [urllib.parse.urlparse(url).path] *)

Definition c0_or_space (c : ascii) : bool := (N_of_ascii c <=? 32)%N.

Definition is_tab_cr_lf (c : ascii) : bool :=
  let n := N_of_ascii c in ((n =? 9) || (n =? 13) || (n =? 10))%N.

Fixpoint remove_chars (p : ascii -> bool) (s : string) : string :=
  match s with
  | EmptyString => EmptyString
  | String c rest => if p c then remove_chars p rest else String c (remove_chars p rest)
  end.

(** [s] cut at the first character that satisfies [p]: what comes before
    it, and the rest from that character on ([None] when there is none). *)
Fixpoint cut_at (p : ascii -> bool) (s : string) : string * option string :=
  match s with
  | EmptyString => (EmptyString, None)
  | String c rest =>
      if p c then (EmptyString, Some s)
      else let '(a, b) := cut_at p rest in (String c a, b)
  end.

Definition is_char (d : ascii) (c : ascii) : bool := Ascii.eqb c d.

Definition is_ascii_alpha (c : ascii) : bool :=
  let n := N_of_ascii c in
  ((65 <=? n) && (n <=? 90) || (97 <=? n) && (n <=? 122))%N.

Definition scheme_char (c : ascii) : bool :=
  let n := N_of_ascii c in
  (is_ascii_alpha c || (48 <=? n) && (n <=? 57)
   || (n =? 43) || (n =? 45) || (n =? 46))%N.

Definition lower_char (c : ascii) : ascii :=
  let n := N_of_ascii c in
  if ((65 <=? n) && (n <=? 90))%N then ascii_of_N (n + 32) else c.

Fixpoint lower (s : string) : string :=
  match s with
  | EmptyString => EmptyString
  | String c rest => String (lower_char c) (lower rest)
  end.

Definition uses_params : list string :=
  [EmptyString; "ftp"; "hdl"; "prospero"; "http"; "imap"; "https"; "shttp";
   "rtsp"; "rtspu"; "sip"; "sips"; "mms"; "sftp"; "tel"].

(** The scheme, when the text before the first [":"] is one, and the rest. *)
Definition split_scheme (url : string) : string * string :=
  match cut_at (is_char ":") url with
  | (String c pre, Some (String _ rest)) =>
      if is_ascii_alpha c && all_chars scheme_char (String c pre)
      then (lower (String c pre), rest)
      else (EmptyString, url)
  | _ => (EmptyString, url)
  end.

(** [_splitparams(url)[0]] *)
Fixpoint last_segment_start (s : string) : string * string :=
  match s with
  | EmptyString => (EmptyString, EmptyString)
  | String c rest =>
      if contains "/" rest
      then let '(a, b) := last_segment_start rest in (String c a, b)
      else (EmptyString, s)
  end.

Definition drop_params (url : string) : string :=
  if contains "/" url then
    let '(head, seg) := last_segment_start url in
    head +:+ (cut_at (is_char ";") seg).1
  else (cut_at (is_char ";") url).1.

(** The path of [urlparse(url)], as in Python 3.11.2.  A netloc with an
    unmatched bracket is a [ValueError].  Later versions also raise on a
    host in matched brackets that is no IPv6 or IPvFuture address; this
    validation is left out, and no run below has such a host. *)
Definition urlparse_path_model (url : string) : res string :=
  let url := lstrip_by c0_or_space url in
  let url := remove_chars is_tab_cr_lf url in
  let '(scheme, url) := split_scheme url in
  let split :=
    if startswith "//" url then
      match url with
      | String _ (String _ after) =>
          let '(netloc, rest) := cut_at (fun c => mem_char "/?#" c) after in
          (netloc, match rest with Some r => r | None => EmptyString end)
      | _ => (EmptyString, url)
      end
    else (EmptyString, url) in
  let '(netloc, url) := split in
  if xorb (contains "[" netloc) (contains "]" netloc) then Raise ValueError
  else
    let url := (cut_at (is_char "#") url).1 in
    let url := (cut_at (is_char "?") url).1 in
    if in_list scheme uses_params && contains ";" url
    then Ok (drop_params url) else Ok url.

(** *** [format(x, ".2f")]: the decimal with two places nearest to [x],
    ties to the even one. *)
Definition round_half_even (num den : Z) : Z :=
  let q := (num / den)%Z in
  let r := (num mod den)%Z in
  if (2 * r <? den)%Z then q
  else if (den <? 2 * r)%Z then (q + 1)%Z
  else if Z.even q then q else (q + 1)%Z.

Definition str_of_Z (n : Z) : string :=
  NilEmpty.string_of_uint (N.to_uint (Z.to_N n)).

Definition two_digits (n : Z) : string :=
  (if (n <? 10)%Z then "0" else EmptyString) +:+ str_of_Z n.

Definition fmt_2f (x : float) : string :=
  match FloatOps.Prim2SF x with
  | SpecFloat.S754_zero s => (if s then "-" else EmptyString) +:+ "0.00"
  | SpecFloat.S754_infinity s => (if s then "-" else EmptyString) +:+ "inf"
  | SpecFloat.S754_nan => "nan"
  | SpecFloat.S754_finite s m e =>
      let cents :=
        if (0 <=? e)%Z then (Z.pos m * 2 ^ e * 100)%Z
        else round_half_even (Z.pos m * 100) (2 ^ (- e)) in
      (if s then "-" else EmptyString)
      +:+ str_of_Z (cents / 100) +:+ "." +:+ two_digits (cents mod 100)
  end.

(** *** The outside world in which every call returns *)

Definition ext0 : Ext := {|
  x_entropy t := (1103515245 * Z.of_nat t + 12345)%Z;
  x_manual_seed _ := Ok tt;
  x_time t := PrimFloat.of_uint63 (Uint63.of_Z (1700000000 + 7 * Z.of_nat t));
  x_fmt_2f := fmt_2f;
  x_uuid4 t := "uuid-" +:+ str_of_nat t;
  x_urlparse_path := urlparse_path_model;
  x_mkdtemp t := Ok ("/tmp/tmp" +:+ str_of_nat t);
  x_http_get _ _ := Ok (Response (Ok tt) ["chunk-0"; "chunk-1"] None);
  x_open_wb _ _ := Ok tt;
  x_write _ _ _ := Ok tt;
  x_close _ _ := Ok tt;
  x_image_save _ _ _ := Ok tt;
  x_zip_open _ _ := Ok tt;
  x_zip_write _ _ _ := Ok tt;
  x_zip_close _ _ := Ok tt
|}.

(** The same world with the network down. *)
Definition ext_offline : Ext := {|
  x_entropy := x_entropy ext0;
  x_manual_seed := x_manual_seed ext0;
  x_time := x_time ext0;
  x_fmt_2f := x_fmt_2f ext0;
  x_uuid4 := x_uuid4 ext0;
  x_urlparse_path := x_urlparse_path ext0;
  x_mkdtemp := x_mkdtemp ext0;
  x_http_get _ _ := Raise RequestException;
  x_open_wb := x_open_wb ext0;
  x_write := x_write ext0;
  x_close := x_close ext0;
  x_image_save := x_image_save ext0;
  x_zip_open := x_zip_open ext0;
  x_zip_write := x_zip_write ext0;
  x_zip_close := x_zip_close ext0
|}.

(** The process right after start. *)
Definition world0 : world ref_pipe := World fresh_pipe ∅ ∅ 0.

(** The process right after start, with a pipeline whose invocation will
    raise. *)
Definition failing_pipe : ref_pipe := RefPipe [] [] false [] true.
Definition world_failing : world ref_pipe := World failing_pipe ∅ ∅ 0.

(** The process with a file left by an earlier run. *)
Definition world_kept : world ref_pipe :=
  World fresh_pipe ∅ {["keep.txt" := FBytes ["x"]]} 0.

(** The calls of a log, in order. *)
Definition events {pstate} (l : list (entry pstate)) : list event := map ev l.

(** Two requests of the form: one with a LoRA from the registry and a zip
    archive, one without. *)
Definition request_lora : request :=
  Request "a cat" "blurry" true 7 1024 1024 4.0 true 50 2 true "owner/name" 1.0.
Definition request_plain : request :=
  Request "a dog" "blurry" false 7 1024 1024 4.0 false 50 1 false EmptyString 1.0.

End RefWorld.

(** ** The form

    The part of the interface that computes: the table of aspect ratios
    with the handler of the dropdown, and the two size sliders it sets. *)

Module Form.

(** A Python [dict] literal, in insertion order. *)
Definition aspect_ratios : list (string * (Z * Z)) :=
  [("1:1", (1328, 1328)%Z);
   ("16:9", (1664, 928)%Z);
   ("9:16", (928, 1664)%Z);
   ("4:3", (1472, 1140)%Z);
   ("3:4", (1140, 1472)%Z)].

(** [d[k]]; [None] stands for [KeyError]. *)
Fixpoint dict_get {V} (d : list (string * V)) (k : string) : option V :=
  match d with
  | [] => None
  | (k', v) :: rest => if String.eqb k k' then Some v else dict_get rest k
  end.

(** [list(d.keys())] *)
Definition dict_keys {V} (d : list (string * V)) : list string := map fst d.

(** [gr.update(value=..)], [gr.update(visible=..)] *)
Record gr_update := GrUpdate {
  upd_value : option Z;
  upd_visible : option bool
}.

Definition set_dimensions (ar : string) : option (gr_update * gr_update) :=
  match dict_get aspect_ratios ar with
  | Some (w, h) => Some (GrUpdate (Some w) None, GrUpdate (Some h) None)
  | None => None
  end.

(** The choices of the aspect-ratio dropdown. *)
Definition aspect_ratio_choices : list string := dict_keys aspect_ratios.

(** [gr.Slider(minimum=.., maximum=.., step=.., value=..)] *)
Record slider := Slider {
  sl_minimum : Z;
  sl_maximum : Z;
  sl_step : Z;
  sl_value : Z
}.

Definition width_slider : slider := Slider 512 2048 64 1024.
Definition height_slider : slider := Slider 512 2048 64 1024.
Definition seed_slider : slider := Slider 0 MAX_SEED 1 0.

Definition in_range (sl : slider) (v : Z) : Prop :=
  (sl_minimum sl <= v <= sl_maximum sl)%Z.

(** A value the slider can take: [minimum + i * step]. *)
Definition on_grid (sl : slider) (v : Z) : Prop :=
  ((v - sl_minimum sl) mod sl_step sl = 0)%Z.

(** The ratio with its two sides exchanged: ["16:9"] for ["9:16"]. *)
Fixpoint split_colon (s : string) : string * option string :=
  match s with
  | EmptyString => (EmptyString, None)
  | String c rest =>
      if Ascii.eqb c ":" then (EmptyString, Some rest)
      else let '(a, b) := split_colon rest in (String c a, b)
  end.

Definition swap_ratio (ar : string) : string :=
  match split_colon ar with
  | (a, Some b) => b +:+ ":" +:+ a
  | (a, None) => a
  end.

End Form.

(** ** Auxiliary definitions for the further properties *)

Section ProgramMore.

Context {pstate : Type} `{Pipeline pstate}.

Definition is_pipe_call (e : event) : bool :=
  match e with EPipeCall _ => true | _ => false end.

Definition is_load (e : event) : bool :=
  match e with ELoadLoraWeights _ _ => true | _ => false end.

Definition is_rmtree (e : event) : bool :=
  match e with ERmtree _ => true | _ => false end.

Definition is_time (e : event) : bool :=
  match e with ETime => true | _ => false end.

Definition is_save (e : event) : bool :=
  match e with EImageSave _ _ => true | _ => false end.

(** The calls that write the images and the archive. *)
Definition is_output (e : event) : bool :=
  match e with
  | EUuid4 | EImageSave _ _ | EZipOpen _ | EZipWrite _ _ _ | EZipClose _ => true
  | _ => false
  end.

(** The files a call may create, change or remove. *)
Definition touches (e : event) (k : string) : Prop :=
  match e with
  | EOpenWb p | EWrite p _ | EClose p | EImageSave _ p
  | EZipOpen p | EZipWrite p _ _ | EZipClose p => k = p
  | ERmtree d => startswith (d +:+ "/") k = true
  | _ => False
  end.

(** The number of calls of a kind in a log, and the computations that
    make at most one such call. *)
Definition count_ev (q : event -> bool) (l : list (entry pstate)) : nat :=
  length (filter (fun x => q (ev x) = true) l).

Definition at_most_once (q : event -> bool) {A} (c : M A) : Prop :=
  forall w : world pstate, count_ev q (log_of (c w)) <= 1.

Definition never (q : event -> bool) {A} (c : M A) : Prop :=
  forall w : world pstate, Forall (fun x => q (ev x) = false) (log_of (c w)).

(** The image saves of a log, in order. *)
Fixpoint image_saves (l : list (entry pstate)) : list (image * string) :=
  match l with
  | [] => []
  | x :: rest =>
      match ev x with
      | EImageSave img p => (img, p) :: image_saves rest
      | _ => image_saves rest
      end
  end.

(** The closes that leaving a [with] statement runs. *)
Definition is_close (e : event) : bool :=
  match e with EClose _ | EZipClose _ => true | _ => false end.

(** The shape of the log of a computation that raised: calls that
    returned, then at most one call that raised, then nothing but the
    exits that were pending: at most [c] closes of the file or archive
    being written (a close may raise too), then at most [r] removals of a
    temporary directory. *)
Definition fail_shape (c r : nat) (l : list (entry pstate)) : Prop :=
  exists pre mid closes rms,
    l = pre ++ mid ++ closes ++ rms /\
    Forall (fun x => ok x = true) pre /\
    Forall (fun x => ok x = false) mid /\ length mid <= 1 /\
    Forall (fun x => is_close (ev x) = true) closes /\ length closes <= c /\
    Forall (fun x => is_rmtree (ev x) = true /\ ok x = true) rms /\ length rms <= r.

(** [strict c r comp]: [comp] returns only if every call it made
    returned, and when it raises its log has the shape above. *)
Definition strict (c r : nat) {A} (comp : M A) : Prop :=
  forall w,
    match res_of (comp w) with
    | Ok _ => Forall (fun x => ok x = true) (log_of (comp w))
    | Raise _ => fail_shape c r (log_of (comp w))
    end.

(** [tracks R c]: the states before and after [c] and its log are related
    by [R]. *)
Definition tracks (R : world pstate -> world pstate -> list (entry pstate) -> Prop)
    {A} (c : M A) : Prop :=
  forall w, R w (world_of (c w)) (log_of (c w)).

(** A relation that holds of a run that does nothing and of two runs in
    sequence when it holds of each. *)
Class Sequential (R : world pstate -> world pstate -> list (entry pstate) -> Prop) := {
  seq_refl w : R w w [];
  seq_trans w w1 w2 l1 l2 : R w w1 l1 -> R w1 w2 l2 -> R w w2 (l1 ++ l2)
}.

(** Every file that no call of the log touches is the same in the two
    states. *)
Definition frame (w w' : world pstate) (l : list (entry pstate)) : Prop :=
  forall k, (forall x, x ∈ l -> ~ touches (ev x) k) ->
            w_files w' !! k = w_files w !! k.

(** A call that saves no image and touches no file. *)
Definition quiet (x : entry pstate) : Prop :=
  is_save (ev x) = false /\ forall k, ~ touches (ev x) k.

(** The calls that fix the seed, and the calls of the LoRA step: those of
    a download with its messages, the load and [set_adapters]. *)
Definition is_seed (e : event) : bool :=
  match e with ERandint _ _ | EManualSeed _ => true | _ => false end.

Definition is_print (e : event) : bool :=
  match e with EPrint _ => true | _ => false end.

Definition is_lora (e : event) : bool := is_attach e || is_download e || is_print e.

(** The calls on the pipeline, and the number of the other calls of a
    log: those to the rest of the outside world. *)
Definition is_pipeline (e : event) : bool := is_cleanup e || is_generation e.

Definition externals (l : list (entry pstate)) : nat :=
  count_ev (fun e => negb (is_pipeline e)) l.

(** The counter of the outside world advances by one with each call that
    is not on the pipeline. *)
Definition ticks (w w' : world pstate) (l : list (entry pstate)) : Prop :=
  w_tick w' = w_tick w + externals l.

(** A file that exists still exists afterwards, unless it is below a
    directory that a call of the log removes. *)
Definition persists (w w' : world pstate) (l : list (entry pstate)) : Prop :=
  forall k,
    is_Some (w_files w !! k) ->
    (forall x d, x ∈ l -> ev x = ERmtree d -> startswith (d +:+ "/") k = false) ->
    is_Some (w_files w' !! k).

(** Where an exit comes from: a close closes the file or the archive that
    a call before it opened, and a removal removes the directory that a
    [mkdtemp] before it returned.  [t] is the counter of the outside world
    at the start of the log and [a] the calls before [x]. *)
Definition exit_paired (X : Ext) (t : nat) (a : list (entry pstate))
    (x : entry pstate) : Prop :=
  match ev x with
  | EClose p => exists y, y ∈ a /\ ev y = EOpenWb p /\ ok y = true
  | EZipClose p => exists y, y ∈ a /\ ev y = EZipOpen p /\ ok y = true
  | ERmtree d =>
      exists a1 y a2,
        a = a1 ++ y :: a2 /\ ev y = EMkdtemp /\ ok y = true /\
        x_mkdtemp X (t + externals a1) = Ok d
  | _ => True
  end.

Definition exits_paired (X : Ext) (t : nat) (l : list (entry pstate)) : Prop :=
  forall a x b, l = a ++ x :: b -> exit_paired X t a x.

Definition provenance (X : Ext) (w w' : world pstate) (l : list (entry pstate))
    : Prop :=
  ticks w w' l /\ exits_paired X (w_tick w) l.

(** The zip step of [generate_qwen]. *)
Definition zip_step (X : Ext) (zip_images : bool) (image_paths : list string)
    : @M pstate (option string) :=
  if zip_images then
    u ← uuid4_str X;
    let zip_name := u +:+ ".zip" in
    with_zip_file X zip_name
      (for_enumerate
         (fun i img_path => zip_write X zip_name img_path (arcname i))
         0 image_paths);;
    ret (Some zip_name)
  else ret None.

End ProgramMore.

Import RefWorld.

(** * Properties *)

(** ** Strings *)

Section StringFacts.

Lemma startswith_cons_nonempty a p s :
  startswith (String a p) s = true -> String.eqb s EmptyString = false.
Proof. destruct s; simpl; [discriminate | reflexivity]. Qed.

Lemma contains_cons_nonempty a p s :
  contains (String a p) s = true -> String.eqb s EmptyString = false.
Proof. destruct s; simpl; [discriminate | reflexivity]. Qed.

Lemma lstrip_by_all p s : all_chars p s = true -> lstrip_by p s = EmptyString.
Proof.
  induction s as [|c s IH]; simpl; [reflexivity|].
  destruct (p c); simpl; [exact IH | discriminate].
Qed.

Lemma all_chars_lstrip_by p s :
  all_chars p (lstrip_by p s) = true -> all_chars p s = true.
Proof.
  induction s as [|c s IH]; simpl; [reflexivity|].
  destruct (p c) eqn:E; simpl; [exact IH | rewrite E; discriminate].
Qed.

Lemma rstrip_by_empty p s : rstrip_by p s = EmptyString -> all_chars p s = true.
Proof.
  induction s as [|c s IH]; simpl; [reflexivity|].
  destruct (rstrip_by p s) eqn:E; [|discriminate].
  destruct (p c); [intros _; simpl; auto | discriminate].
Qed.

(** [s.strip()] is empty exactly when [s] is empty or all whitespace. *)
Lemma strip_empty_iff s :
  strip s = EmptyString <-> all_chars is_space s = true.
Proof.
  unfold strip, strip_by. split.
  - intros E. apply all_chars_lstrip_by, rstrip_by_empty, E.
  - intros E. rewrite (lstrip_by_all _ _ E). reflexivity.
Qed.

(** Replacing the first occurrence already changes the string. *)
Lemma replace_blob_changes s :
  contains "/blob/" s = true -> replace "/blob/" "/resolve/" s <> s.
Proof.
  unfold replace. induction s as [|c s IH]; [discriminate|].
  intros Hc. cbn [replace_from].
  destruct (startswith "/blob/" (String c s)) eqn:E.
  - destruct s as [|d s]; cbn [startswith] in E.
    + destruct (Ascii.eqb "/" c); discriminate.
    + destruct (Ascii.eqb_spec "/" c) as [<-|]; [|discriminate].
      destruct (Ascii.eqb_spec "b" d) as [<-|]; [|discriminate].
      cbn [String.append]. intros Heq. discriminate Heq.
  - cbn [contains] in Hc. rewrite E in Hc.
    intros Heq. injection Heq as Heq. exact (IH Hc Heq).
Qed.

End StringFacts.

(** ** The monad *)

Section MonadFacts.

Context {pstate : Type} `{Pipeline pstate}.

Abbreviation M := (@M pstate).
Abbreviation world := (world pstate).
Abbreviation entry := (entry pstate).

Lemma bind_ok {A B} (c : M A) (k : A -> M B) w b w' l :
  bind c k w = (Ok b, w', l) ->
  exists a w1 l1 l2,
    c w = (Ok a, w1, l1) /\ k a w1 = (Ok b, w', l2) /\ l = l1 ++ l2.
Proof.
  unfold bind. destruct (c w) as [[[a|e] w1] l1]; [|discriminate].
  destruct (k a w1) as [[r w2] l2] eqn:E. intros [= -> -> <-].
  exists a, w1, l1, l2. auto.
Qed.

Lemma bind_assoc_pt {A B C} (c : M A) (k : A -> M B) (k' : B -> M C) w :
  bind (bind c k) k' w = bind c (fun a => bind (k a) k') w.
Proof.
  unfold bind. destruct (c w) as [[[a|e] w1] l1]; [|reflexivity].
  destruct (k a w1) as [[[b|e] w2] l2]; [|reflexivity].
  destruct (k' b w2) as [[r w3] l3]. rewrite app_assoc. reflexivity.
Qed.

Lemma bind_ret_pt {A B} (a : A) (k : A -> M B) w : bind (ret a) k w = k a w.
Proof. unfold bind, ret. destruct (k a w) as [[r w1] l1]. reflexivity. Qed.

Lemma bind_cong_pt {A B} (c : M A) (k k' : A -> M B) w :
  (forall a w1, k a w1 = k' a w1) -> bind c k w = bind c k' w.
Proof.
  intros Hk. unfold bind. destruct (c w) as [[[a|e] w1] l1]; [|reflexivity].
  rewrite Hk. reflexivity.
Qed.

Lemma bind_raise {A B} (c : M A) (k : A -> M B) w e w' l :
  bind c k w = (Raise e, w', l) ->
  c w = (Raise e, w', l) \/
  exists a w1 l1 l2,
    c w = (Ok a, w1, l1) /\ k a w1 = (Raise e, w', l2) /\ l = l1 ++ l2.
Proof.
  unfold bind. destruct (c w) as [[[a|e0] w1] l1]; [|intros [= -> -> ->]; auto].
  destruct (k a w1) as [[r w2] l2] eqn:E. intros [= -> -> <-].
  right. exists a, w1, l1, l2. auto.
Qed.

Lemma bind_log {A B} (c : M A) (k : A -> M B) w :
  log_of (bind c k w) =
  log_of (c w) ++
  match res_of (c w) with
  | Ok a => log_of (k a (world_of (c w)))
  | Raise _ => []
  end.
Proof.
  unfold bind, log_of, res_of, world_of.
  destruct (c w) as [[[a|e] w1] l1]; simpl.
  - destruct (k a w1) as [[r w2] l2]. reflexivity.
  - rewrite app_nil_r. reflexivity.
Qed.

Lemma try_finally_ok {A} (body : M A) (fin : M unit) w a w' l :
  try_finally body fin w = (Ok a, w', l) ->
  exists w1 l1 l2,
    body w = (Ok a, w1, l1) /\ fin w1 = (Ok tt, w', l2) /\ l = l1 ++ l2.
Proof.
  unfold try_finally. destruct (body w) as [[r w1] l1].
  destruct (fin w1) as [[[[]|e] w2] l2] eqn:Ef; [|discriminate].
  intros [= -> <- <-]. exists w1, l1, l2. repeat split. exact Ef.
Qed.

Lemma try_finally_log {A} (body : M A) (fin : M unit) w :
  exists l, log_of (try_finally body fin w) = log_of (body w) ++ l.
Proof.
  unfold try_finally, log_of.
  destruct (body w) as [[r w1] l1]; simpl.
  destruct (fin w1) as [[[u|e] w2] l2]; simpl; eexists; reflexivity.
Qed.

Lemma keeps_ret (I : world -> Prop) (P : entry -> Prop) {A} (a : A) : keeps I P (ret a).
Proof. intros w Hw. split; [exact Hw | constructor]. Qed.

Lemma keeps_lift (I : world -> Prop) (P : entry -> Prop) {A} (r : res A) : keeps I P (lift r).
Proof. intros w Hw. split; [exact Hw | constructor]. Qed.

Lemma keeps_bind (I : world -> Prop) (P : entry -> Prop) {A B} (c : M A) (k : A -> M B) :
  keeps I P c -> (forall a, keeps I P (k a)) -> keeps I P (bind c k).
Proof.
  intros Hc Hk w Hw. destruct (Hc w Hw) as [Hi Hl].
  unfold bind, world_of, log_of in *.
  destruct (c w) as [[[a|e] w1] l1]; simpl in *; [|auto].
  destruct (Hk a w1 Hi) as [Hi2 Hl2].
  unfold world_of, log_of in *.
  destruct (k a w1) as [[r w2] l2]; simpl in *.
  split; [exact Hi2 | apply Forall_app; auto].
Qed.

Lemma keeps_try_finally (I : world -> Prop) (P : entry -> Prop) {A} (body : M A) (fin : M unit) :
  keeps I P body -> keeps I P fin -> keeps I P (try_finally body fin).
Proof.
  intros Hb Hf w Hw. destruct (Hb w Hw) as [Hi Hl].
  unfold try_finally, world_of, log_of in *.
  destruct (body w) as [[r w1] l1]; simpl in *.
  destruct (Hf w1 Hi) as [Hi2 Hl2].
  unfold world_of, log_of in *.
  destruct (fin w1) as [[[u|e] w2] l2]; simpl in *;
    (split; [exact Hi2 | apply Forall_app; auto]).
Qed.

Lemma keeps_for_each (I : world -> Prop) (P : entry -> Prop) {A} (f : A -> M unit) (l : list A) :
  (forall x, keeps I P (f x)) -> keeps I P (for_each f l).
Proof.
  intros Hf. induction l as [|x l IH]; simpl.
  - apply keeps_ret.
  - apply keeps_bind; [apply Hf | intros _; exact IH].
Qed.

Lemma keeps_for_enumerate (I : world -> Prop) (P : entry -> Prop) {A} (f : nat -> A -> M unit) i (l : list A) :
  (forall i x, keeps I P (f i x)) -> keeps I P (for_enumerate f i l).
Proof.
  intros Hf. revert i. induction l as [|x l IH]; intros i; simpl.
  - apply keeps_ret.
  - apply keeps_bind; [apply Hf | intros _; apply IH].
Qed.

Lemma keeps_list_comp (I : world -> Prop) (P : entry -> Prop) {A B} (f : A -> M B) (l : list A) :
  (forall x, keeps I P (f x)) -> keeps I P (list_comp f l).
Proof.
  intros Hf. induction l as [|x l IH]; simpl.
  - apply keeps_ret.
  - apply keeps_bind; [apply Hf | intros y].
    apply keeps_bind; [exact IH | intros ys; apply keeps_ret].
Qed.

Lemma keeps_pipe_op (I : world -> Prop) (P : entry -> Prop) {A} e (f : pstate -> res A * pstate) :
  (forall w, I w ->
     I (World (f (w_pipe w)).2 (w_dirs w) (w_files w) (w_tick w)) /\
     P (Entry e (is_ok (f (w_pipe w)).1) (f (w_pipe w)).2)) ->
  keeps I P (pipe_op e f).
Proof.
  intros Hf w Hw. destruct (Hf w Hw) as [Hi Hp].
  unfold pipe_op, world_of, log_of.
  destruct (f (w_pipe w)) as [r p]; simpl in *. auto.
Qed.

Lemma keeps_env_op (I : world -> Prop) (P : entry -> Prop) {A} e (f : nat -> res A) upd :
  (forall w, I w ->
     (forall d fl, I (World (w_pipe w) d fl (S (w_tick w)))) /\
     forall b, P (Entry e b (w_pipe w))) ->
  keeps I P (env_op e f upd).
Proof.
  intros Hf w Hw. destruct (Hf w Hw) as [Hi Hp].
  unfold env_op, world_of, log_of; simpl. auto.
Qed.

End MonadFacts.

(** Symbolic execution of a [keeps] goal: one rule per construct of the
    program; what is left are the conditions on the single calls. *)
Ltac head_of t :=
  lazymatch t with
  | ?f _ => head_of f
  | _ => t
  end.

Ltac keeps_step :=
  lazymatch goal with
  | |- keeps _ _ (ret _) => apply keeps_ret
  | |- keeps _ _ (mret _) => apply keeps_ret
  | |- keeps _ _ (lift _) => apply keeps_lift
  | |- keeps _ _ (bind _ _) => apply keeps_bind; [| intros ?]
  | |- keeps _ _ (mbind _ _) => apply keeps_bind; [| intros ?]
  | |- keeps _ _ (try_finally _ _) => apply keeps_try_finally
  | |- keeps _ _ (for_each _ _) => apply keeps_for_each; intros ?
  | |- keeps _ _ (for_enumerate _ _ _) => apply keeps_for_enumerate; intros ? ?
  | |- keeps _ _ (list_comp _ _) => apply keeps_list_comp; intros ?
  | |- keeps _ _ (if ?b then _ else _) => destruct b
  | |- keeps _ _ (match ?o with Some _ => _ | None => _ end) => destruct o
  | |- keeps _ _ (pipe_op _ _) => apply keeps_pipe_op
  | |- keeps _ _ (env_op _ _ _) => apply keeps_env_op
  | |- keeps _ _ ?c => let h := head_of c in unfold h
  end.

Ltac keeps_run := repeat (keeps_step; cbv beta zeta).

(** ** The LoRA resolver and the orchestrator *)

Section AppFacts.

Context {pstate : Type} `{Pipeline pstate}.
Variable X : Ext.

Abbreviation M := (@M pstate).
Abbreviation world := (world pstate).
Abbreviation entry := (entry pstate).

(** *** No reference, no adapter *)

Lemma load_lora_opt_blank pipe s w :
  all_chars is_space s = true -> load_lora_opt X pipe s w = (Ok tt, w, []).
Proof.
  intros Hs. unfold load_lora_opt.
  rewrite (proj2 (strip_empty_iff s) Hs). reflexivity.
Qed.

Ltac keeps_trivial := keeps_run; intros; split; intros; solve [exact I | reflexivity].

Lemma generate_qwen_no_lora_no_attach
    prompt np seed width height gs rand steps n zip ls :
  keeps (fun _ : world => True) no_attach
    (generate_qwen X prompt np seed width height gs rand steps n zip EmptyString ls).
Proof.
  unfold generate_qwen.
  change (negb (String.eqb EmptyString EmptyString) && _) with false.
  keeps_trivial.
Qed.

(** C10. A LoRA input that is empty or only whitespace loads and attaches
    nothing: [load_lora_opt] returns at once without any call, and
    [generate_qwen] runs exactly as with the empty input, with no
    [load_lora_weights] and no [set_adapters] call in its log. *)
Theorem blank_lora_is_no_lora (s : string) :
  all_chars is_space s = true ->
  (forall pipe w, load_lora_opt X pipe s w = (Ok tt, w, [])) /\
  (forall prompt np seed width height gs rand steps n zip ls w,
     generate_qwen X prompt np seed width height gs rand steps n zip s ls w =
     generate_qwen X prompt np seed width height gs rand steps n zip EmptyString ls w) /\
  (forall prompt np seed width height gs rand steps n zip ls (w : world),
     Forall no_attach
       (log_of (generate_qwen X prompt np seed width height gs rand steps n zip s ls w))).
Proof.
  intros Hs.
  assert (Heq : forall prompt np seed width height gs rand steps n zip ls (w : world),
     generate_qwen X prompt np seed width height gs rand steps n zip s ls w =
     generate_qwen X prompt np seed width height gs rand steps n zip EmptyString ls w).
  { intros. unfold generate_qwen.
    rewrite (proj2 (strip_empty_iff s) Hs).
    change (String.eqb EmptyString EmptyString) with true.
    rewrite andb_false_r. reflexivity. }
  split; [|split].
  - intros pipe w. apply load_lora_opt_blank, Hs.
  - exact Heq.
  - intros. rewrite Heq.
    apply (generate_qwen_no_lora_no_attach prompt np seed width height gs rand steps n zip ls w I).
Qed.

(** *** Registry identifiers and landing pages *)

(** C5 (as amended). When the LoRA input, with surrounding whitespace
    removed, contains ["/"] and does not start with ["http"],
    [load_lora_opt] makes exactly one call: [load_lora_weights] with the
    stripped string and the adapter name ["default"].  Nothing is
    downloaded: the file system and the call counter are untouched. *)
Theorem load_lora_opt_registry_id (s : string) (w : world) :
  contains "/" (strip s) = true ->
  startswith "http" (strip s) = false ->
  let rp := load_lora_weights (strip s) "default" (w_pipe w) in
  load_lora_opt X pipe_qwen s w =
  (rp.1, World rp.2 (w_dirs w) (w_files w) (w_tick w),
   [Entry (ELoadLoraWeights (strip s) "default") (is_ok rp.1) rp.2]) /\
  Forall no_download (log_of (load_lora_opt X pipe_qwen s w)).
Proof.
  intros Hc Hh rp.
  assert (E : load_lora_opt X pipe_qwen s w =
              (rp.1, World rp.2 (w_dirs w) (w_files w) (w_tick w),
               [Entry (ELoadLoraWeights (strip s) "default") (is_ok rp.1) rp.2])).
  { unfold load_lora_opt.
    rewrite (contains_cons_nonempty _ _ _ Hc), Hc, Hh. cbn [andb negb].
    unfold m_load_lora_weights, pipe_op. subst rp.
    destruct (load_lora_weights (strip s) "default" (w_pipe w)) as [r p]. reflexivity. }
  split; [exact E|]. rewrite E. repeat constructor.
Qed.

(** C8 (as amended). For an input that, stripped, starts with ["http"],
    contains ["huggingface.co"] and contains neither ["/blob/"] nor
    ["/resolve/"] anywhere in its text, [load_lora_opt] takes the path of
    the URL with [urlparse].  When [urlparse] gives a path, it strips the
    slashes around it and makes exactly one call: [load_lora_weights] with
    that string.  When [urlparse] raises, the exception leaves
    [load_lora_opt] and no call is made.  Nothing is downloaded in either
    case. *)
Theorem load_lora_opt_landing_page (s : string) (w : world) :
  startswith "http" (strip s) = true ->
  contains "huggingface.co" (strip s) = true ->
  contains "/blob/" (strip s) = false ->
  contains "/resolve/" (strip s) = false ->
  match x_urlparse_path X (strip s) with
  | Ok path =>
      let repo_id := strip_chars "/" path in
      let rp := load_lora_weights repo_id "default" (w_pipe w) in
      load_lora_opt X pipe_qwen s w =
      (rp.1, World rp.2 (w_dirs w) (w_files w) (w_tick w),
       [Entry (ELoadLoraWeights repo_id "default") (is_ok rp.1) rp.2])
  | Raise e => load_lora_opt X pipe_qwen s w = (Raise e, w, [])
  end /\
  Forall no_download (log_of (load_lora_opt X pipe_qwen s w)).
Proof.
  intros Hh Hhf Hb Hr.
  assert (E : load_lora_opt X pipe_qwen s w =
              bind (urlparse_path X (strip s))
                (fun path => m_load_lora_weights pipe_qwen (strip_chars "/" path) "default")
                w).
  { unfold load_lora_opt.
    rewrite (startswith_cons_nonempty _ _ _ Hh), Hh, Hhf, Hb, Hr.
    rewrite andb_false_r. reflexivity. }
  rewrite E. unfold bind, urlparse_path, lift.
  destruct (x_urlparse_path X (strip s)) as [path|e].
  - unfold m_load_lora_weights, pipe_op. cbv zeta.
    destruct (load_lora_weights _ "default" (w_pipe w)) as [r p]. cbn [fst snd app].
    split; [reflexivity | repeat constructor].
  - split; [reflexivity | constructor].
Qed.

(** *** Direct file URLs *)

(** An input that reaches the download branch runs [mkdtemp], then the
    path extraction, then the [try] statement. *)
Lemma load_lora_opt_download (s : string) :
  startswith "http" (strip s) = true ->
  (contains "huggingface.co" (strip s) && negb (contains "/blob/" (strip s))
    && negb (contains "/resolve/" (strip s))) = false ->
  load_lora_opt X pipe_qwen s =
  (tmp_dir ← mkdtemp X;
   path ← urlparse_path X (download_url s);
   try_finally
     (download_body X (download_url s) (path_join tmp_dir (basename path)))
     (rmtree tmp_dir)).
Proof.
  intros Hh Hc. unfold load_lora_opt, download_url, download_body.
  rewrite (startswith_cons_nonempty _ _ _ Hh), Hh, Hc.
  rewrite andb_false_r. reflexivity.
Qed.

(** [try: body finally: shutil.rmtree(d)]: the directory is gone however
    the body ends; the outcome is the body's and the removal is the last
    call. *)
Lemma try_finally_rmtree {A} (body : M A) (d : string) (w : world) :
  let o := try_finally body (rmtree d) w in
  res_of o = res_of (body w) /\
  (d ∉ w_dirs (world_of o)) /\
  log_of o = log_of (body w) ++ [Entry (ERmtree d) true (w_pipe (world_of (body w)))].
Proof.
  unfold try_finally, rmtree, env_op, res_of, world_of, log_of.
  destruct (body w) as [[r w1] l1]; simpl.
  split; [reflexivity|]. split; [set_solver | reflexivity].
Qed.

(** Once the [try] statement is entered, the temporary directory is removed
    on every exit path: when the download and the load succeed and when the
    HTTP request, the status check, a file write or the load raises. *)
Lemma download_removes_tmp_dir (s d path : string) (w : world) :
  startswith "http" (strip s) = true ->
  (contains "huggingface.co" (strip s) && negb (contains "/blob/" (strip s))
    && negb (contains "/resolve/" (strip s))) = false ->
  x_mkdtemp X (w_tick w) = Ok d ->
  x_urlparse_path X (download_url s) = Ok path ->
  let o := load_lora_opt X pipe_qwen s w in
  (d ∉ w_dirs (world_of o)) /\
  exists l, map ev (log_of o) = EMkdtemp :: l ++ [ERmtree d].
Proof.
  intros Hh Hc Hd Hp. rewrite (load_lora_opt_download s Hh Hc).
  unfold mbind, M_bind, bind, mkdtemp, env_op, urlparse_path, lift.
  rewrite Hd, Hp. cbn [fst snd].
  match goal with |- context [try_finally ?b (rmtree d) ?w1] =>
    destruct (try_finally_rmtree b d w1) as (_ & Hdir & Hlog);
    unfold world_of, log_of in *;
    destruct (try_finally b (rmtree d) w1) as [[r w2] l2]
  end.
  simpl in *. split; [exact Hdir|].
  rewrite Hlog, map_app. eexists. reflexivity.
Qed.

(** When the path extraction raises, the [try] statement is not entered:
    the exception leaves [load_lora_opt] and the directory just created
    stays. *)
Lemma download_leaks_tmp_dir (s d : string) (e : exn) (w : world) :
  startswith "http" (strip s) = true ->
  (contains "huggingface.co" (strip s) && negb (contains "/blob/" (strip s))
    && negb (contains "/resolve/" (strip s))) = false ->
  x_mkdtemp X (w_tick w) = Ok d ->
  x_urlparse_path X (download_url s) = Raise e ->
  let o := load_lora_opt X pipe_qwen s w in
  res_of o = Raise e /\ d ∈ w_dirs (world_of o) /\ map ev (log_of o) = [EMkdtemp].
Proof.
  intros Hh Hc Hd Hp. rewrite (load_lora_opt_download s Hh Hc).
  unfold mbind, M_bind, bind, mkdtemp, env_op, urlparse_path, lift.
  rewrite Hd, Hp. cbn. split; [reflexivity|]. split; [set_solver | reflexivity].
Qed.

(** C9. For an input that, stripped, starts with ["http"] and contains
    ["/blob/"], the URL that is requested is the rewritten one, which
    differs from the original: no request goes to any other URL, and when
    the temporary directory is created and the path of the URL is
    extracted, the request to the rewritten URL is made. *)
Theorem load_lora_opt_blob_rewrite (s : string) (w : world) :
  startswith "http" (strip s) = true ->
  contains "/blob/" (strip s) = true ->
  let url' := replace "/blob/" "/resolve/" (strip s) in
  url' <> strip s /\
  (forall x u, x ∈ log_of (load_lora_opt X pipe_qwen s w) ->
               ev x = EHttpGet u -> u = url') /\
  (forall d path,
     x_mkdtemp X (w_tick w) = Ok d ->
     x_urlparse_path X url' = Ok path ->
     exists rest,
       map ev (log_of (load_lora_opt X pipe_qwen s w)) =
       EMkdtemp :: EPrint ("Downloading LoRA from " +:+ url' +:+ "...")
       :: EHttpGet url' :: rest).
Proof.
  intros Hh Hb url'.
  assert (Hc : (contains "huggingface.co" (strip s) && negb (contains "/blob/" (strip s))
               && negb (contains "/resolve/" (strip s))) = false).
  { rewrite Hb. cbn [negb]. rewrite andb_false_r. reflexivity. }
  assert (Hu : download_url s = url').
  { unfold download_url. rewrite Hb. reflexivity. }
  rewrite (load_lora_opt_download s Hh Hc), Hu.
  split; [apply replace_blob_changes, Hb|]. split.
  - assert (K : keeps (fun _ : world => True)
                  (fun x => forall u, ev x = EHttpGet u -> u = url')
                  (tmp_dir ← mkdtemp X;
                   path ← urlparse_path X url';
                   try_finally
                     (download_body X url' (path_join tmp_dir (basename path)))
                     (rmtree tmp_dir))).
    { keeps_run; intros; split; intros; try exact I;
        cbn [ev] in *; try discriminate; congruence. }
    intros x u Hx. destruct (K w I) as [_ K'].
    rewrite Forall_forall in K'. apply K', Hx.
  - intros d path Hd Hp.
    unfold mbind, M_bind. rewrite bind_log.
    unfold mkdtemp at 1 2 3. unfold env_op. rewrite Hd.
    cbn [log_of res_of world_of fst snd is_ok]. rewrite bind_log.
    unfold urlparse_path, lift. rewrite Hp.
    cbn [log_of res_of world_of fst snd app].
    match goal with |- context [try_finally ?b ?f ?w1] =>
      destruct (try_finally_log b f w1) as [l2 Hl2]; rewrite Hl2 end.
    unfold download_body, mbind, M_bind. rewrite bind_log.
    unfold print, env_op.
    cbn [log_of res_of world_of fst snd is_ok]. rewrite bind_log.
    unfold requests_get at 1. unfold env_op.
    cbn [log_of fst snd app map ev]. eexists. reflexivity.
Qed.

(** *** The seed *)

Lemma randint_value_range (lo hi raw : Z) :
  (lo <= hi)%Z -> (lo <= randint_value lo hi raw <= hi)%Z.
Proof.
  intros Hle. unfold randint_value.
  pose proof (Z.mod_pos_bound raw (hi - lo + 1)) as Hm. lia.
Qed.

Ltac step_ok H x w l E :=
  let l' := fresh "l" in
  apply bind_ok in H as (x & w & l & l' & E & H & ->).

(** The steps of a call of [generate_qwen] that returns. *)
Lemma generate_qwen_ok_steps
    prompt np seed width height gs rand steps n zipf lora ls
    (w w' : world) paths seed' dur zp l :
  generate_qwen X prompt np seed width height gs rand steps n zipf lora ls w
  = (Ok (paths, seed', dur, zp), w', l) ->
  exists w1 l1 w2 l2 w7 l7 w8 l8 w9 l9 l10,
    (if rand then randint X 0 MAX_SEED else ret seed) w = (Ok seed', w1, l1) /\
    manual_seed X seed' w1 = (Ok (Generator seed'), w2, l2) /\
    list_comp (save_image X) l7 w7 = (Ok paths, w8, l8) /\
    zip_step X zipf paths w8 = (Ok zp, w9, l9) /\
    clear_adapters w9 = (Ok tt, w', l10) /\
    exists mid args,
      l = l1 ++ l2 ++ mid ++ l8 ++ l9 ++ l10 /\
      EPipeCall args ∈ map ev mid /\ ca_generator args = Generator seed'.
Proof.
  intros Hrun. unfold generate_qwen, mbind, M_bind in Hrun.
  step_ok Hrun e w1 l1 E1. step_ok Hrun g w2 l2 E2.
  step_ok Hrun t0 w3 l3 E3. step_ok Hrun u4 w4 l4 E4.
  step_ok Hrun u5 w5 l5 E5. step_ok Hrun imgs w6 l6 E6.
  step_ok Hrun t1 w7 l7 E7. step_ok Hrun ps w8 l8 E8.
  step_ok Hrun z w9 l9 E9. step_ok Hrun u10 w10 l10 E10.
  unfold ret in Hrun. injection Hrun as Hp He Hd Hz Hw Hl. subst.
  assert (g = Generator seed') as ->.
  { unfold manual_seed, env_op in E2.
    destruct (x_manual_seed X seed'); injection E2 as E2 _ _; congruence. }
  destruct u10.
  exists w1, l1, w2, l2, w7, imgs, w8, l8, w9, l9, l10.
  repeat (split; [assumption|]).
  unfold m_pipe_call, pipe_op in E6.
  match type of E6 with context [pipe_call ?a ?p] =>
    destruct (pipe_call a p) as [r6 p6]; injection E6 as _ _ <-;
    exists (l3 ++ l4 ++ l5 ++ [Entry (EPipeCall a) (is_ok r6) p6] ++ l7), a
  end.
  split; [|split; [|reflexivity]].
  - rewrite app_nil_r, <- !app_assoc. reflexivity.
  - rewrite !map_app. cbn [map ev].
    rewrite !elem_of_app. do 3 right. left. apply list_elem_of_here.
Qed.

(** C3. In a call of [generate_qwen] that returns: with [randomize_seed]
    the seed is the value just drawn by [random.randint(0, MAX_SEED)], an
    integer in that range; without it the seed is the input seed; and in
    both cases this seed is the one given to [manual_seed], the one of the
    generator handed to the pipeline, and the one returned. *)
Theorem generate_qwen_seed
    prompt np seed width height gs rand steps n zipf lora ls
    (w w' : world) paths seed' dur zp l :
  generate_qwen X prompt np seed width height gs rand steps n zipf lora ls w
  = (Ok (paths, seed', dur, zp), w', l) ->
  (rand = true ->
     seed' = randint_value 0 MAX_SEED (x_entropy X (w_tick w)) /\
     (0 <= seed' <= MAX_SEED)%Z) /\
  (rand = false -> seed' = seed) /\
  (exists rest,
     map ev l =
     (if rand then [ERandint 0 MAX_SEED] else []) ++ EManualSeed seed' :: rest) /\
  (exists args, EPipeCall args ∈ map ev l /\ ca_generator args = Generator seed').
Proof.
  intros Hrun.
  destruct (generate_qwen_ok_steps _ _ _ _ _ _ _ _ _ _ _ _ _ _ _ _ _ _ _ Hrun)
    as (w1 & l1 & w2 & l2 & w7 & l7 & w8 & l8 & w9 & l9 & l10
        & E1 & E2 & _ & _ & _ & mid & args & -> & Hin & Hgen).
  assert (Hl2 : l2 = [Entry (EManualSeed seed') true (w_pipe w1)]).
  { unfold manual_seed, env_op in E2.
    destruct (x_manual_seed X seed'); [|discriminate].
    injection E2 as _ <-. reflexivity. }
  split; [|split; [|split]].
  - intros ->. unfold randint, env_op in E1. injection E1 as <- _ _.
    split; [reflexivity|]. apply randint_value_range. unfold MAX_SEED. lia.
  - intros ->. unfold ret in E1. injection E1 as <- _ _. reflexivity.
  - exists (map ev (mid ++ l8 ++ l9 ++ l10)).
    rewrite map_app. subst l2. cbn [map app ev]. f_equal.
    destruct rand.
    + unfold randint, env_op in E1. injection E1 as _ _ <-. reflexivity.
    + unfold ret in E1. injection E1 as _ _ <-. reflexivity.
  - exists args. split; [|exact Hgen].
    rewrite !map_app, !elem_of_app. right. right. left. exact Hin.
Qed.

(** *** The zip archive *)

Lemma for_enumerate_zip_write (name : string) (paths : list string) :
  forall i (w w' : world) l es,
    for_enumerate (fun i p => zip_write X name p (arcname i)) i paths w
    = (Ok tt, w', l) ->
    w_files w !! name = Some (FZip es) ->
    w_files w' !! name =
    Some (FZip (es ++ zip (map arcname (seq i (length paths))) paths)).
Proof.
  induction paths as [|p paths IH]; intros i w w' l es Hrun Hes.
  - cbn in Hrun. injection Hrun as <- _. rewrite app_nil_r. exact Hes.
  - cbn [for_enumerate] in Hrun. unfold mbind, M_bind in Hrun.
    step_ok Hrun u w1 l1 E1.
    assert (Hw1 : w_files w1 !! name = Some (FZip (es ++ [(arcname i, p)]))).
    { unfold zip_write, env_op in E1.
      destruct (x_zip_write X (w_tick w) p (arcname i)); [|discriminate].
      injection E1 as _ <- _. rewrite Hes. cbn. apply lookup_insert_eq. }
    rewrite (IH _ _ _ _ _ Hrun Hw1). cbn [length seq map zip zip_with].
    rewrite <- app_assoc. reflexivity.
Qed.

Lemma clear_adapters_files (w : world) :
  w_files (world_of (clear_adapters w)) = w_files w.
Proof.
  assert (K : keeps (fun w0 : world => w_files w0 = w_files w) (fun _ => True)
                (@clear_adapters pstate _)).
  { keeps_run; intros; split; intros; solve [assumption | exact I]. }
  apply (K w eq_refl).
Qed.

(** C6. A call of [generate_qwen] that returns gives a zip path exactly
    when [zip_images] is set; the archive at that path then has one entry
    per returned image path, in the same order, the entry for the image at
    position [i] being named [Img_i.png]. *)
Theorem generate_qwen_zip
    prompt np seed width height gs rand steps n zipf lora ls
    (w w' : world) paths seed' dur zp l :
  generate_qwen X prompt np seed width height gs rand steps n zipf lora ls w
  = (Ok (paths, seed', dur, zp), w', l) ->
  (zp <> None <-> zipf = true) /\
  (zipf = true ->
   exists name,
     zp = Some name /\
     w_files w' !! name =
     Some (FZip (zip (map (fun i => "Img_" +:+ str_of_nat i +:+ ".png")
                        (seq 0 (length paths))) paths))).
Proof.
  intros Hrun.
  destruct (generate_qwen_ok_steps _ _ _ _ _ _ _ _ _ _ _ _ _ _ _ _ _ _ _ Hrun)
    as (w1 & l1 & w2 & l2 & w7 & l7 & w8 & l8 & w9 & l9 & l10
        & _ & _ & _ & E9 & E10 & _).
  pose proof (clear_adapters_files w9) as Hfiles.
  rewrite E10 in Hfiles. cbn in Hfiles.
  unfold zip_step in E9. destruct zipf.
  - unfold with_zip_file, mbind, M_bind in E9.
    step_ok E9 u wa la Ea. step_ok E9 u1 wd ld Ed. step_ok Ed u2 wb lb Eb.
    apply try_finally_ok in Ed as (wc & lc & lx & Ec & Ex & ->).
    unfold ret in E9. injection E9 as <- <- _.
    split; [split; [reflexivity | discriminate]|].
    intros _. exists (u +:+ ".zip"). split; [reflexivity|].
    rewrite Hfiles. destruct u1.
    assert (Hb : w_files wb !! (u +:+ ".zip") = Some (FZip [])).
    { unfold zip_open, env_op in Eb.
      destruct (x_zip_open X (w_tick wa) (u +:+ ".zip")); [|discriminate].
      injection Eb as _ <- _. cbn. apply lookup_insert_eq. }
    assert (Hd : w_files wd = w_files wc).
    { unfold zip_close, env_op in Ex.
      destruct (x_zip_close X (w_tick wc) (u +:+ ".zip")); [|discriminate].
      injection Ex as _ <- _. reflexivity. }
    rewrite Hd. exact (for_enumerate_zip_write _ _ _ _ _ _ _ Ec Hb).
  - unfold ret in E9. injection E9 as <- _ _.
    split; [split; [congruence | discriminate]|discriminate].
Qed.

(** *** The phases of a request *)

Lemma generate_qwen_phases
    prompt np seed width height gs rand steps n zipf lora ls (w : world) :
  generate_qwen X prompt np seed width height gs rand steps n zipf lora ls w =
  generate_qwen_phased X prompt np seed width height gs rand steps n zipf lora ls w.
Proof.
  unfold generate_qwen, generate_qwen_phased, prologue, mbind, M_bind.
  do 4 (rewrite bind_assoc_pt; apply bind_cong_pt; intros ? ?).
  rewrite bind_ret_pt. cbn [fst snd]. fold (attach_lora X lora ls).
  apply bind_cong_pt; intros ? ?.
  unfold produce, mbind, M_bind.
  do 4 (rewrite bind_assoc_pt; apply bind_cong_pt; intros ? ?).
  rewrite bind_ret_pt. reflexivity.
Qed.

(** *** What the phases log *)

Lemma prologue_no_set seed rand :
  keeps (fun _ : world => True) (fun x => set_ok x = false) (prologue X seed rand).
Proof. keeps_trivial. Qed.

Lemma load_lora_opt_no_set pipe s :
  keeps (fun _ : world => True) (fun x => set_ok x = false) (load_lora_opt X pipe s).
Proof. keeps_trivial. Qed.

Lemma produce_no_set_no_cleanup prompt np width height gs steps n zipf g t0 :
  keeps (fun _ : world => True) (fun x => set_ok x = false /\ no_cleanup x)
    (produce X prompt np width height gs steps n zipf g t0).
Proof. keeps_run; intros; split; intros; solve [exact I | split; reflexivity]. Qed.

Lemma clear_adapters_only_cleanup :
  keeps (fun _ : world => True)
    (fun x => set_ok x = false /\ is_cleanup (ev x) = true) (@clear_adapters pstate _).
Proof. keeps_run; intros; split; intros; solve [exact I | split; reflexivity]. Qed.

Lemma clear_adapters_logs (w : world) : log_of (clear_adapters w) <> [].
Proof.
  unfold clear_adapters, mbind, M_bind. rewrite bind_log.
  unfold m_get_list_adapters at 1. unfold pipe_op.
  destruct (get_list_adapters (w_pipe w)) as [r p]. discriminate.
Qed.

(** The one successful [set_adapters] line of a log splits it in one way. *)
Lemma split_at_set_ok (a b pre post : list entry) (x0 x : entry) :
  Forall (fun y => set_ok y = false) a ->
  Forall (fun y => set_ok y = false) b ->
  set_ok x = true ->
  a ++ x0 :: b = pre ++ x :: post ->
  pre = a /\ x = x0 /\ post = b.
Proof.
  intros Ha Hb Hx. revert pre. induction Ha as [|y a Hy Ha IH]; intros pre E.
  - destruct pre as [|z pre]; cbn in E.
    + injection E as <- <-. auto.
    + injection E as <- E. exfalso.
      rewrite Forall_forall in Hb.
      assert (Hin : x ∈ b) by (rewrite E; set_solver).
      rewrite (Hb _ Hin) in Hx. discriminate.
  - destruct pre as [|z pre]; cbn in E.
    + injection E as <- _. congruence.
    + injection E as <- E. destruct (IH _ E) as (-> & -> & ->). auto.
Qed.

(** What [attach_lora] logs: nothing when there is no reference, and
    otherwise, when it returns, the calls of [load_lora_opt] followed by
    the [set_adapters] call. *)
Lemma attach_lora_raise lora ls (w w' : world) e l :
  attach_lora X lora ls w = (Raise e, w', l) ->
  Forall (fun y => set_ok y = false) l.
Proof.
  unfold attach_lora. destruct (_ && _); [|discriminate].
  unfold mbind, M_bind. intros Hr.
  pose proof (load_lora_opt_no_set pipe_qwen lora w I) as [_ Hl].
  apply bind_raise in Hr as [Hr | (u & w1 & l1 & l2 & E1 & Hr & ->)].
  - rewrite Hr in Hl. exact Hl.
  - rewrite E1 in Hl. apply Forall_app. split; [exact Hl|].
    unfold m_set_adapters, pipe_op in Hr.
    destruct (set_adapters ["default"] [ls] (w_pipe w1)) as [r p].
    injection Hr as -> _ <-. repeat constructor.
Qed.

Lemma attach_lora_ok lora ls (w w' : world) l :
  attach_lora X lora ls w = (Ok tt, w', l) ->
  (l = [] /\ w' = w) \/
  exists l0 x0,
    l = l0 ++ [x0] /\ Forall (fun y => set_ok y = false) l0 /\
    x0 = Entry (ESetAdapters ["default"] [ls]) true (w_pipe w').
Proof.
  unfold attach_lora. destruct (_ && _).
  - unfold mbind, M_bind. intros Hr. right.
    apply bind_ok in Hr as (u & w1 & l1 & l2 & E1 & Hr & ->).
    pose proof (load_lora_opt_no_set pipe_qwen lora w I) as [_ Hl].
    rewrite E1 in Hl.
    unfold m_set_adapters, pipe_op in Hr.
    destruct (set_adapters ["default"] [ls] (w_pipe w1)) as [r p].
    injection Hr as -> <- <-. exists l1. eexists. split; [reflexivity|].
    split; [exact Hl | reflexivity].
  - unfold ret. intros [= <- <-]. left. auto.
Qed.

(** *** The adapter life cycle *)

Section WithLaws.

Context {laws : PipelineLaws pstate}.

(** When the names that [get_list_adapters()] yields are no adapters (they
    are component names) and deleting a name that is no adapter removes
    nothing, the cleanup leaves every adapter attached. *)
Lemma for_each_delete_keeps (names : list string) :
  (forall a p, a ∉ attached p -> attached (delete_adapters a p).2 = attached p) ->
  forall (w : world),
    (forall a, a ∈ names -> a ∉ attached (w_pipe w)) ->
    attached (w_pipe (world_of (for_each (m_delete_adapters pipe_qwen) names w)))
    = attached (w_pipe w).
Proof.
  intros Hdel. induction names as [|a names IH]; intros w Hn; [reflexivity|].
  cbn [for_each]. unfold mbind, M_bind, bind, world_of.
  assert (Ha : attached (delete_adapters a (w_pipe w)).2 = attached (w_pipe w)).
  { apply Hdel, Hn. set_solver. }
  unfold m_delete_adapters at 1. unfold pipe_op.
  destruct (delete_adapters a (w_pipe w)) as [[u|e] p]; cbn [fst snd] in *;
    [|exact Ha].
  specialize (IH (World p (w_dirs w) (w_files w) (w_tick w))).
  unfold world_of in IH. cbn [w_pipe] in IH.
  destruct (for_each (m_delete_adapters pipe_qwen) names
              (World p (w_dirs w) (w_files w) (w_tick w))) as [[r2 w2] l2].
  cbn [fst snd] in *. rewrite IH; [exact Ha|].
  intros b Hb. rewrite Ha. apply Hn. set_solver.
Qed.

Lemma clear_adapters_removes_nothing (w : world) :
  (forall a p, a ∉ attached p -> attached (delete_adapters a p).2 = attached p) ->
  (forall l a, (get_list_adapters (w_pipe w)).1 = Ok l -> a ∈ l ->
               a ∉ attached (w_pipe w)) ->
  attached (w_pipe (world_of (clear_adapters w))) = attached (w_pipe w).
Proof.
  intros Hdel Hkeys.
  unfold clear_adapters, mbind, M_bind, bind, world_of.
  pose proof (get_list_adapters_spec (w_pipe w)) as Hsame.
  unfold m_get_list_adapters at 1. unfold pipe_op.
  destruct (get_list_adapters (w_pipe w)) as [[names|e] p] eqn:Eg;
    cbn [fst snd] in *; [|exact Hsame].
  pose proof (for_each_delete_keeps names Hdel
                (World p (w_dirs w) (w_files w) (w_tick w))) as Hfor.
  unfold world_of in Hfor. cbn [w_pipe] in Hfor.
  destruct (for_each (m_delete_adapters pipe_qwen) names
              (World p (w_dirs w) (w_files w) (w_tick w))) as [[[u|e] w2] l2];
    cbn [fst snd] in *.
  - unfold m_disable_lora, pipe_op.
    pose proof (proj1 (disable_lora_spec (w_pipe w2))) as Hdis.
    destruct (disable_lora (w_pipe w2)) as [r3 p3]. cbn [fst snd w_pipe] in *.
    rewrite Hdis, Hfor; [exact Hsame|].
    intros a Ha. rewrite Hsame. apply (Hkeys names a eq_refl Ha).
  - rewrite Hfor; [exact Hsame|].
    intros a Ha. rewrite Hsame. apply (Hkeys names a eq_refl Ha).
Qed.

Ltac inv_side :=
  intros ? ?; cbn [w_pipe snap] in *; unfold only_default in *;
  first
    [ match goal with
      | |- context [get_list_adapters ?p] =>
          rewrite (get_list_adapters_spec p); auto
      | |- context [disable_lora ?p] =>
          rewrite (proj1 (disable_lora_spec p)); auto
      | |- context [set_adapters ?n ?ws ?p] =>
          rewrite (set_adapters_spec n ws p); auto
      | |- context [pipe_call ?a ?p] =>
          rewrite (pipe_call_spec a p); auto
      | |- context [delete_adapters ?a ?p] =>
          pose proof (proj1 (delete_adapters_spec a p)); split; set_solver
      | |- context [load_lora_weights ?r ?n ?p] =>
          pose proof (load_lora_weights_spec r n p); split; set_solver
      end
    | split; intros; assumption ].

(** No call of a request attaches anything but ["default"]. *)
Lemma generate_qwen_only_default
    prompt np seed width height gs rand steps n zipf lora ls :
  keeps (fun w : world => only_default (w_pipe w))
    (fun x => only_default (snap x))
    (generate_qwen X prompt np seed width height gs rand steps n zipf lora ls).
Proof. keeps_run; inv_side. Qed.

Lemma serve_only_default (rs : list request) :
  forall w : world,
    only_default (w_pipe w) ->
    Forall (fun x => only_default (snap x)) (serve X rs w).2.
Proof.
  induction rs as [|r rs IH]; intros w Hw; cbn [serve snd].
  - constructor.
  - destruct (generate_qwen_only_default
                (rq_prompt r)
                (if rq_use_negative_prompt r then rq_negative_prompt r else EmptyString)
                (rq_seed r) (rq_width r) (rq_height r) (rq_guidance_scale r)
                (rq_randomize_seed r) (rq_num_inference_steps r) (rq_num_images r)
                (rq_zip_images r) (rq_lora r) (rq_lora_scale r) w Hw) as [Hi Hl].
    apply Forall_app. split; [exact Hl | apply IH, Hi].
Qed.

Lemma produce_keeps_attached
    prompt np width height gs steps n zipf g t0 (A : gset string) :
  keeps (fun w : world => attached (w_pipe w) = A) (fun _ => True)
    (produce X prompt np width height gs steps n zipf g t0).
Proof.
  keeps_run; intros ? ?; cbn [w_pipe] in *;
    first [ rewrite pipe_call_spec; auto | split; intros; auto ].
Qed.

End WithLaws.

(** C2. The trailing cleanup is an ordinary statement after the zip step.
    When [generate_qwen] raises after its [set_adapters] call returned, and
    the call that failed is not one of the cleanup itself (the log does
    not end with a cleanup call), then no cleanup call was made after
    [set_adapters]; and, for a pipeline that keeps its adapters across the
    other calls, the adapters attached at the end are those attached after
    [set_adapters]. *)
Theorem generate_qwen_error_skips_cleanup
    prompt np seed width height gs rand steps n zipf lora ls
    (w w' : world) (e : exn) (l pre post : list entry) (x y : entry) :
  generate_qwen X prompt np seed width height gs rand steps n zipf lora ls w
  = (Raise e, w', l) ->
  l = pre ++ x :: post ->
  is_set_adapters (ev x) = true -> ok x = true ->
  last l = Some y -> is_cleanup (ev y) = false ->
  Forall no_cleanup post /\
  (PipelineLaws pstate -> attached (w_pipe w') = attached (snap x)).
Proof.
  intros Hrun Hl Hset Hok Hlast Hy.
  assert (Hx : set_ok x = true) by (unfold set_ok; rewrite Hset, Hok; reflexivity).
  assert (Hin : x ∈ l) by (rewrite Hl; set_solver).
  assert (Hno : forall l0, Forall (fun z => set_ok z = false) l0 -> x ∈ l0 -> False).
  { intros l0 Hl0 Hx0. rewrite Forall_forall in Hl0.
    rewrite (Hl0 _ Hx0) in Hx. discriminate. }
  rewrite generate_qwen_phases in Hrun.
  unfold generate_qwen_phased, mbind, M_bind in Hrun.
  pose proof (prologue_no_set seed rand w I) as [_ Hp].
  apply bind_raise in Hrun as [Hrun | (sgt & w1 & l1 & l1' & E1 & Hrun & ->)].
  { rewrite Hrun in Hp. destruct (Hno _ Hp Hin). }
  rewrite E1 in Hp. cbn [log_of snd] in Hp.
  apply bind_raise in Hrun as [Hrun | (u2 & w2 & l2 & l2' & E2 & Hrun & ->)].
  { apply attach_lora_raise in Hrun.
    destruct (Hno (l1 ++ l1')); [apply Forall_app; auto | exact Hin]. }
  pose proof (produce_no_set_no_cleanup prompt np width height gs steps n zipf
                sgt.1.2 sgt.2 w2 I) as [_ Hq].
  pose proof (clear_adapters_only_cleanup) as Hc.
  assert (Hrest : forall lr wr,
            produce X prompt np width height gs steps n zipf sgt.1.2 sgt.2 w2
            = (Raise e, wr, lr) \/
            (exists out w3 l3 l4,
               produce X prompt np width height gs steps n zipf sgt.1.2 sgt.2 w2
               = (Ok out, w3, l3) /\ clear_adapters w3 = (Raise e, wr, l4) /\
               lr = l3 ++ l4) ->
            Forall (fun z => set_ok z = false) lr).
  { intros lr wr [E3 | (out & w3 & l3 & l4 & E3 & E4 & ->)]; rewrite E3 in Hq.
    - eapply Forall_impl; [exact Hq | intros z [Hz _]; exact Hz].
    - apply Forall_app. split.
      + eapply Forall_impl; [exact Hq | intros z [Hz _]; exact Hz].
      + destruct (Hc w3 I) as [_ Hc3]. rewrite E4 in Hc3.
        eapply Forall_impl; [exact Hc3 | intros z [Hz _]; exact Hz]. }
  assert (Hcases :
            produce X prompt np width height gs steps n zipf sgt.1.2 sgt.2 w2
            = (Raise e, w', l2') \/
            (exists out w3 l3 l4,
               produce X prompt np width height gs steps n zipf sgt.1.2 sgt.2 w2
               = (Ok out, w3, l3) /\ clear_adapters w3 = (Raise e, w', l4) /\
               l2' = l3 ++ l4)).
  { apply bind_raise in Hrun as [Hrun | (out & w3 & l3 & l3' & E3 & Hrun & ->)];
      [left; exact Hrun | right].
    apply bind_raise in Hrun as [Hrun | (u4 & w4 & l4 & l4' & E4 & Hrun & ->)];
      [|discriminate Hrun].
    exists out, w3, l3, l3'. auto. }
  pose proof (Hrest _ _ Hcases) as Hr'.
  destruct u2.
  destruct (attach_lora_ok _ _ _ _ _ E2) as [[-> ->] | (l0 & x0 & -> & Hl0 & Hx0)].
  { destruct (Hno (l1 ++ [] ++ l2')); [repeat (apply Forall_app; split); auto | exact Hin]. }
  assert (Hsplit : (l1 ++ l0) ++ x0 :: l2' = pre ++ x :: post).
  { rewrite <- Hl, <- !app_assoc. reflexivity. }
  apply split_at_set_ok in Hsplit as (-> & -> & ->);
    [|apply Forall_app; auto|exact Hr'|exact Hx].
  destruct Hcases as [E3 | (out & w3 & l3 & l4 & E3 & E4 & ->)].
  - rewrite E3 in Hq. cbn [log_of snd] in Hq. split.
    + eapply Forall_impl; [exact Hq | intros z [_ Hz]; exact Hz].
    + intros laws. subst x0. cbn [snap].
      pose proof (produce_keeps_attached prompt np width height gs steps n zipf
                    sgt.1.2 sgt.2 (attached (w_pipe w2)) w2 eq_refl) as [Hk _].
      rewrite E3 in Hk. exact Hk.
  - exfalso. destruct (Hc w3 I) as [_ Hc3]. rewrite E4 in Hc3. cbn [log_of snd] in Hc3.
    pose proof (clear_adapters_logs w3) as Hne. rewrite E4 in Hne. cbn [log_of snd] in Hne.
    destruct (exists_last Hne) as (l5 & z & ->).
    rewrite !app_assoc, last_snoc in Hlast. injection Hlast as ->.
    apply Forall_app in Hc3 as [_ Hz]. inversion Hz as [|? ? [_ Hz'] _]; subst.
    rewrite Hz' in Hy. discriminate.
Qed.

(** *** The wrapper *)

(** C7. [generate] is [generate_qwen] on the same arguments, with the
    negative prompt passed on when [use_negative_prompt] is set and
    replaced by the empty string when it is not: same result, same effects. *)
Theorem generate_is_generate_qwen
    prompt np seed width height gs rand steps n zip lora ls :
  generate X prompt np true seed width height gs rand steps n zip lora ls =
  generate_qwen X prompt np seed width height gs rand steps n zip lora ls /\
  generate X prompt np false seed width height gs rand steps n zip lora ls =
  generate_qwen X prompt EmptyString seed width height gs rand steps n zip lora ls.
Proof. split; reflexivity. Qed.

End AppFacts.

(** ** The reference world *)

Section RefWorldFacts.

#[global] Instance ref_pipeline_laws : PipelineLaws ref_pipe.
Proof.
  split.
  - intros p. reflexivity.
  - intros a p. cbn. split.
    + intros b. rewrite !elem_of_list_to_set, list_elem_of_filter. tauto.
    + intros _. rewrite elem_of_list_to_set, list_elem_of_filter. tauto.
  - intros p. cbn. auto.
  - intros ref name p. cbn.
    destruct (in_list ref (rp_missing p)); [set_solver|].
    destruct (in_list name (rp_adapters p)); [set_solver|].
    cbn. rewrite list_to_set_app_L. set_solver.
  - intros names ws p. cbn.
    destruct (forallb _ names); reflexivity.
  - intros args p. cbn. destruct (rp_call_raises p); reflexivity.
Qed.

(** *** Runs of the reference world *)

(** An input with whitespace around it that contains ["/"] and does not
    start with ["http"]: the reference is stripped first, so the first is
    downloaded as a URL and the second is loaded without its blanks. *)
Lemma load_lora_opt_unstripped_counterexample :
  contains "/" " http://example.com/lora.safetensors" = true /\
  startswith "http" " http://example.com/lora.safetensors" = false /\
  events (log_of (load_lora_opt ext0 pipe_qwen
                    " http://example.com/lora.safetensors" world0)) =
  [EMkdtemp;
   EPrint "Downloading LoRA from http://example.com/lora.safetensors...";
   EHttpGet "http://example.com/lora.safetensors";
   ERaiseForStatus;
   EOpenWb "/tmp/tmp0/lora.safetensors";
   EWrite "/tmp/tmp0/lora.safetensors" "chunk-0";
   EWrite "/tmp/tmp0/lora.safetensors" "chunk-1";
   EClose "/tmp/tmp0/lora.safetensors";
   EPrint "Saved LoRA to /tmp/tmp0/lora.safetensors";
   ELoadLoraWeights "/tmp/tmp0/lora.safetensors" "default";
   ERmtree "/tmp/tmp0"] /\
  contains "/" " owner/name" = true /\
  startswith "http" " owner/name" = false /\
  events (log_of (load_lora_opt ext0 pipe_qwen " owner/name" world0)) =
  [ELoadLoraWeights "owner/name" "default"].
Proof. repeat split; vm_compute; reflexivity. Qed.

Lemma load_lora_opt_registry_id_witness :
  contains "/" (strip " owner/name ") = true /\
  startswith "http" (strip " owner/name ") = false /\
  load_lora_opt ext0 pipe_qwen " owner/name " world0 =
  (Ok tt, World (RefPipe ["default"] [] false [] false) ∅ ∅ 0,
   [Entry (ELoadLoraWeights "owner/name" "default") true
      (RefPipe ["default"] [] false [] false)]).
Proof.
  split; [reflexivity|]. split; [reflexivity|].
  exact (proj1 (load_lora_opt_registry_id ext0 " owner/name " world0 eq_refl eq_refl)).
Defined.

(** A landing-page URL whose query holds ["/blob/"]: its path has neither
    ["/blob/"] nor ["/resolve/"], and yet the file is downloaded. *)
Lemma load_lora_opt_landing_page_counterexample :
  contains "huggingface.co" "https://huggingface.co/owner/repo?tab=/blob/" = true /\
  x_urlparse_path ext0 "https://huggingface.co/owner/repo?tab=/blob/" = Ok "/owner/repo" /\
  contains "/blob/" "/owner/repo" = false /\
  contains "/resolve/" "/owner/repo" = false /\
  events (log_of (load_lora_opt ext0 pipe_qwen
                    "https://huggingface.co/owner/repo?tab=/blob/" world0)) =
  [EMkdtemp;
   EPrint "Downloading LoRA from https://huggingface.co/owner/repo?tab=/resolve/...";
   EHttpGet "https://huggingface.co/owner/repo?tab=/resolve/";
   ERaiseForStatus;
   EOpenWb "/tmp/tmp0/repo";
   EWrite "/tmp/tmp0/repo" "chunk-0";
   EWrite "/tmp/tmp0/repo" "chunk-1";
   EClose "/tmp/tmp0/repo";
   EPrint "Saved LoRA to /tmp/tmp0/repo";
   ELoadLoraWeights "/tmp/tmp0/repo" "default";
   ERmtree "/tmp/tmp0"].
Proof. repeat split; vm_compute; reflexivity. Qed.

Lemma load_lora_opt_landing_page_witness :
  startswith "http" (strip "https://huggingface.co/owner/repo/") = true /\
  x_urlparse_path ext0 (strip "https://huggingface.co/owner/repo/") = Ok "/owner/repo/" /\
  load_lora_opt ext0 pipe_qwen "https://huggingface.co/owner/repo/" world0 =
  (Ok tt, World (RefPipe ["default"] [] false [] false) ∅ ∅ 0,
   [Entry (ELoadLoraWeights "owner/repo" "default") true
      (RefPipe ["default"] [] false [] false)]).
Proof.
  split; [reflexivity|]. split; [reflexivity|].
  exact (proj1 (load_lora_opt_landing_page ext0 "https://huggingface.co/owner/repo/"
                  world0 eq_refl eq_refl eq_refl eq_refl)).
Defined.

(** A landing page whose host has an unmatched bracket: [urlparse] raises
    and nothing is loaded. *)
Example load_lora_opt_landing_page_unparsed :
  load_lora_opt ext0 pipe_qwen "https://[huggingface.co/owner/repo" world0
  = (Raise ValueError, world0, []).
Proof. vm_compute. reflexivity. Qed.

Lemma load_lora_opt_blob_rewrite_witness :
  let s := "https://huggingface.co/owner/repo/blob/main/x.safetensors" in
  let url' := "https://huggingface.co/owner/repo/resolve/main/x.safetensors" in
  url' <> strip s /\
  (forall x u, x ∈ log_of (load_lora_opt ext0 pipe_qwen s world0) ->
               ev x = EHttpGet u -> u = url') /\
  (forall d path,
     x_mkdtemp ext0 (w_tick world0) = Ok d ->
     x_urlparse_path ext0 url' = Ok path ->
     exists rest,
       map ev (log_of (load_lora_opt ext0 pipe_qwen s world0)) =
       EMkdtemp :: EPrint ("Downloading LoRA from " +:+ url' +:+ "...")
       :: EHttpGet url' :: rest).
Proof.
  intros s url'.
  exact (load_lora_opt_blob_rewrite ext0 s world0 eq_refl eq_refl).
Defined.

(** C4 (the defect). A URL whose host part has an unmatched bracket
    reaches the download branch: the temporary directory is created, the
    path extraction raises before the [try] statement is entered, and the
    directory stays. *)
Theorem load_lora_opt_leaks_tmp_dir :
  let o := load_lora_opt ext0 pipe_qwen "http://[::1/lora.safetensors" world0 in
  res_of o = Raise ValueError /\
  events (log_of o) = [EMkdtemp] /\
  elements (w_dirs (world_of o)) = ["/tmp/tmp0"].
Proof. repeat split; vm_compute; reflexivity. Qed.

(** With the network down the directory is removed all the same. *)
Example download_offline_removes_tmp_dir :
  let o := load_lora_opt ext_offline pipe_qwen
             "http://example.com/lora.safetensors" world0 in
  res_of o = Raise RequestException /\
  events (log_of o) =
  [EMkdtemp;
   EPrint "Downloading LoRA from http://example.com/lora.safetensors...";
   EHttpGet "http://example.com/lora.safetensors";
   ERmtree "/tmp/tmp0"] /\
  elements (w_dirs (world_of o)) = [].
Proof. repeat split; vm_compute; reflexivity. Qed.

Lemma blank_lora_is_no_lora_witness :
  all_chars is_space "   " = true /\
  (forall pipe (w : world ref_pipe), load_lora_opt ext0 pipe "   " w = (Ok tt, w, [])) /\
  (forall prompt np seed width height gs rand steps n zip ls (w : world ref_pipe),
     generate_qwen ext0 prompt np seed width height gs rand steps n zip "   " ls w =
     generate_qwen ext0 prompt np seed width height gs rand steps n zip EmptyString ls w) /\
  (forall prompt np seed width height gs rand steps n zip ls (w : world ref_pipe),
     Forall no_attach
       (log_of (generate_qwen ext0 prompt np seed width height gs rand steps n zip "   " ls w))).
Proof.
  split; [reflexivity|].
  exact (blank_lora_is_no_lora ext0 "   " eq_refl).
Defined.

Lemma generate_qwen_seed_witness :
  let o := generate_qwen ext0 "a cat" "blurry" 7 1024 1024 4.0 true 50 2 true
             "owner/name" 1.0 world0 in
  res_of o = Ok (["uuid-4.png"; "uuid-6.png"], 12345%Z, "7.00", Some "uuid-8.zip") /\
  (12345%Z = randint_value 0 MAX_SEED (x_entropy ext0 0) /\
   (0 <= 12345 <= MAX_SEED)%Z) /\
  (exists rest,
     map ev (log_of o) = ERandint 0 MAX_SEED :: EManualSeed 12345 :: rest) /\
  (exists args, EPipeCall args ∈ map ev (log_of o) /\
                ca_generator args = Generator 12345).
Proof.
  intros o. split; [vm_compute; reflexivity|].
  destruct (generate_qwen_seed ext0 "a cat" "blurry" 7 1024 1024 4.0 true 50 2 true
              "owner/name" 1.0 world0 (world_of o)
              ["uuid-4.png"; "uuid-6.png"] 12345%Z "7.00" (Some "uuid-8.zip") (log_of o))
    as (Hr & _ & Hm & Hp); [vm_compute; reflexivity|].
  split; [apply Hr; reflexivity|]. split; [exact Hm | exact Hp].
Defined.

Lemma generate_qwen_zip_witness :
  let o := generate_qwen ext0 "a cat" "blurry" 7 1024 1024 4.0 true 50 2 true
             "owner/name" 1.0 world0 in
  res_of o = Ok (["uuid-4.png"; "uuid-6.png"], 12345%Z, "7.00", Some "uuid-8.zip") /\
  w_files (world_of o) !! "uuid-8.zip" =
  Some (FZip [("Img_0.png", "uuid-4.png"); ("Img_1.png", "uuid-6.png")]).
Proof.
  intros o. split; [vm_compute; reflexivity|].
  destruct (generate_qwen_zip ext0 "a cat" "blurry" 7 1024 1024 4.0 true 50 2 true
              "owner/name" 1.0 world0 (world_of o)
              ["uuid-4.png"; "uuid-6.png"] 12345%Z "7.00" (Some "uuid-8.zip") (log_of o))
    as (_ & Hz); [vm_compute; reflexivity|].
  destruct (Hz eq_refl) as (name & [= <-] & Hf). exact Hf.
Defined.

(** In the reference pipeline, a cleanup from a state with no adapter but
    ["default"] removes nothing. *)
Lemma ref_clear_adapters_removes_nothing (w : world ref_pipe) :
  only_default (w_pipe w) ->
  attached (w_pipe (world_of (clear_adapters w))) = attached (w_pipe w).
Proof.
  intros Hw. apply clear_adapters_removes_nothing.
  - intros a p Ha. cbn in *. apply set_eq. intros b.
    rewrite !elem_of_list_to_set, list_elem_of_filter.
    rewrite elem_of_list_to_set in Ha. split; [tauto|].
    intros Hb. split; [congruence | exact Hb].
  - intros l a [= <-] Ha. unfold adapter_keys in Ha.
    destruct (rp_adapters (w_pipe w)); [inversion Ha|].
    apply list_elem_of_singleton in Ha. subst a.
    intros Hin. apply Hw in Hin. apply elem_of_singleton in Hin. discriminate Hin.
Qed.

(** C1 (the defect). The cleanup deletes the names that iterating over
    [get_list_adapters()] yields.  With the pipeline of the diffusion
    library these are component names: the cleanup calls
    [delete_adapters("transformer")], and the adapter ["default"] stays.
    So after a request with a LoRA has returned, the adapter is still
    attached; the next request with a LoRA raises at [load_lora_weights],
    the name being in use; and a next request without LoRA invokes the
    pipeline with the adapter still attached. *)
Theorem adapter_survives_cleanup :
  let o1 := handle ext0 request_lora world0 in
  let o2 := handle ext0 request_lora (world_of o1) in
  let o3 := handle ext0 request_plain (world_of o1) in
  is_ok (res_of o1) = true /\
  events (drop 18 (log_of o1)) =
  [EGetListAdapters; EDeleteAdapters "transformer"; EDisableLora] /\
  elements (attached (w_pipe (world_of o1))) = ["default"] /\
  res_of o2 = Raise ValueError /\
  map (fun x => (ev x, ok x)) (drop 3 (log_of o2)) =
  [(EGetListAdapters, true); (EDeleteAdapters "transformer", true);
   (EDisableLora, true); (ELoadLoraWeights "owner/name" "default", false)] /\
  is_ok (res_of o3) = true /\
  map (fun x => elements (attached (snap x)))
    (filter (fun x => is_pipe_call (ev x) = true) (log_of o3)) = [["default"]].
Proof. repeat split; vm_compute; reflexivity. Qed.

Lemma generate_qwen_error_skips_cleanup_witness :
  let o := generate_qwen ext0 "a cat" "blurry" 7 1024 1024 4.0 false 50 1 false
             "owner/name" 1.0 world_failing in
  let p := RefPipe ["default"] [("default", 1.0%float)] true [] true in
  res_of o = Raise RuntimeError /\
  Forall no_cleanup (drop 6 (log_of o)) /\
  attached (w_pipe (world_of o)) = attached p.
Proof.
  intros o p. split; [vm_compute; reflexivity|].
  destruct (generate_qwen_error_skips_cleanup ext0 "a cat" "blurry" 7 1024 1024 4.0
              false 50 1 false "owner/name" 1.0 world_failing (world_of o)
              RuntimeError (log_of o) (take 5 (log_of o)) (drop 6 (log_of o))
              (Entry (ESetAdapters ["default"] [1.0%float]) true p)
              (Entry (EPipeCall (CallArgs "a cat" "blurry" 1024 1024 4.0 50 1
                                   (Generator 7) "pil")) false p))
    as (Hc & Ha); try (vm_compute; reflexivity).
  split; [exact Hc | exact (Ha ref_pipeline_laws)].
Defined.

End RefWorldFacts.

(** * Further properties *)

(** ** The form *)

Section FormFacts.

Import Form.

Lemma dict_get_aspect_ratios (ar : string) (v : Z * Z) :
  dict_get aspect_ratios ar = Some v ->
  (ar = "1:1" /\ v = (1328, 1328)%Z) \/ (ar = "16:9" /\ v = (1664, 928)%Z) \/
  (ar = "9:16" /\ v = (928, 1664)%Z) \/ (ar = "4:3" /\ v = (1472, 1140)%Z) \/
  (ar = "3:4" /\ v = (1140, 1472)%Z).
Proof.
  unfold aspect_ratios. cbn [dict_get].
  repeat match goal with
         | |- context [String.eqb ar ?k] => destruct (String.eqb_spec ar k) as [->|_]
         end;
    intros [= <-]; tauto.
Qed.

(** X13. [set_dimensions] finds the ratio exactly when it is one of the
    choices of the dropdown (any other key is a [KeyError]); it then sets
    the two sliders, and only their values, to a width and a height within
    the range of the sliders. *)
Theorem set_dimensions_choices (ar : string) :
  (is_Some (set_dimensions ar) <-> ar ∈ aspect_ratio_choices) /\
  (forall uw uh,
     set_dimensions ar = Some (uw, uh) ->
     exists w h,
       uw = GrUpdate (Some w) None /\ uh = GrUpdate (Some h) None /\
       in_range width_slider w /\ in_range height_slider h).
Proof.
  split.
  - unfold set_dimensions. split.
    + intros [r Hr]. destruct (dict_get aspect_ratios ar) as [[w h]|] eqn:E; [|discriminate].
      unfold aspect_ratio_choices, aspect_ratios, dict_keys. cbn [map fst].
      destruct (dict_get_aspect_ratios _ _ E) as [[-> _]|[[-> _]|[[-> _]|[[-> _]|[-> _]]]]];
        set_solver.
    + unfold aspect_ratio_choices, aspect_ratios, dict_keys. cbn [map fst].
      intros Hin. repeat (apply elem_of_cons in Hin as [->|Hin]; [cbn; eauto|]).
      inversion Hin.
  - intros uw uh. unfold set_dimensions.
    destruct (dict_get aspect_ratios ar) as [[w h]|] eqn:E; [|discriminate].
    intros [= <- <-]. exists w, h. split; [reflexivity|]. split; [reflexivity|].
    unfold in_range, width_slider, height_slider. cbn.
    destruct (dict_get_aspect_ratios _ _ E)
      as [[_ [= -> ->]]|[[_ [= -> ->]]|[[_ [= -> ->]]|[[_ [= -> ->]]|[_ [= -> ->]]]]]]; lia.
Qed.

(** X14. The table is symmetric: the ratio with its sides exchanged is in
    the table too, with width and height exchanged. *)
Theorem set_dimensions_swap (ar : string) (uw uh : gr_update) :
  set_dimensions ar = Some (uw, uh) ->
  set_dimensions (swap_ratio ar) = Some (uh, uw).
Proof.
  unfold set_dimensions.
  destruct (dict_get aspect_ratios ar) as [[w h]|] eqn:E; [|discriminate].
  intros [= <- <-].
  destruct (dict_get_aspect_ratios _ _ E)
    as [[-> [= -> ->]]|[[-> [= -> ->]]|[[-> [= -> ->]]|[[-> [= -> ->]]|[-> [= -> ->]]]]]];
    reflexivity.
Qed.

Lemma set_dimensions_swap_witness :
  set_dimensions "16:9" = Some (GrUpdate (Some 1664%Z) None, GrUpdate (Some 928%Z) None) /\
  set_dimensions "9:16" = Some (GrUpdate (Some 928%Z) None, GrUpdate (Some 1664%Z) None).
Proof.
  split; [reflexivity|].
  exact (set_dimensions_swap "16:9" _ _ eq_refl).
Defined.

End FormFacts.

(** ** The helpers *)

Section HelperFacts.

Context {pstate : Type} `{Pipeline pstate}.
Variable X : Ext.

Abbreviation M := (@M pstate).
Abbreviation world := (world pstate).
Abbreviation entry := (entry pstate).

(** X1. [randomize_seed_fn] on a seed of the seed slider gives a seed of
    the seed slider: without [randomize_seed] the seed itself, with no call
    made; with it, the value of one draw of [random.randint(0, MAX_SEED)]. *)
Theorem randomize_seed_fn_range (seed : Z) (rand : bool) (w : world) :
  Form.in_range Form.seed_slider seed ->
  exists v,
    res_of (randomize_seed_fn X seed rand w) = Ok v /\
    Form.in_range Form.seed_slider v /\
    (rand = false -> randomize_seed_fn X seed rand w = (Ok seed, w, [])) /\
    (rand = true ->
     v = randint_value 0 MAX_SEED (x_entropy X (w_tick w)) /\
     map ev (log_of (randomize_seed_fn X seed rand w)) = [ERandint 0 MAX_SEED]).
Proof.
  intros Hs. unfold randomize_seed_fn. destruct rand.
  - eexists. split; [reflexivity|]. split; [|split; [discriminate|auto]].
    unfold Form.in_range, Form.seed_slider. cbn.
    apply randint_value_range. unfold MAX_SEED. lia.
  - exists seed. split; [reflexivity|]. split; [exact Hs|].
    split; [reflexivity | discriminate].
Qed.

(** [save_image]: when it returns, the name it gives is a fresh
    [uuid4] followed by [".png"], the file of that name holds the image and
    no other file has changed; when saving raises, no file has changed. *)
Theorem save_image_spec (img : image) (w : world) :
  match res_of (save_image X img w) with
  | Ok name =>
      name = x_uuid4 X (w_tick w) +:+ ".png" /\
      w_files (world_of (save_image X img w)) !! name = Some (FImage img) /\
      (forall k, k <> name ->
                 w_files (world_of (save_image X img w)) !! k = w_files w !! k)
  | Raise _ => w_files (world_of (save_image X img w)) = w_files w
  end /\
  w_dirs (world_of (save_image X img w)) = w_dirs w /\
  w_pipe (world_of (save_image X img w)) = w_pipe w.
Proof.
  unfold save_image, mbind, M_bind, bind, uuid4_str, image_save, env_op, ret,
    res_of, world_of.
  cbn [fst snd w_tick w_files w_dirs w_pipe same_fs].
  destruct (x_image_save X (S (w_tick w)) img _) as [u|e]; cbn.
  - repeat split; [apply lookup_insert_eq|].
    intros k Hk. apply lookup_insert_ne. congruence.
  - auto.
Qed.

End HelperFacts.

(** ** Exceptions are never swallowed *)

Section StrictFacts.

Context {pstate : Type} `{Pipeline pstate}.

Abbreviation M := (@M pstate).
Abbreviation world := (world pstate).
Abbreviation entry := (entry pstate).

Ltac shape_side :=
  repeat split; auto; try solve [cbn; lia]; try solve [repeat constructor; auto].

Lemma fail_shape_nil c r : fail_shape c r ([] : list entry).
Proof. exists [], [], [], []. shape_side. Qed.

Lemma fail_shape_single c r (x : entry) : ok x = false -> fail_shape c r [x].
Proof.
  intros Hx. exists [], [x], [], [].
  shape_side.
Qed.

Lemma fail_shape_prepend c r (l1 l2 : list entry) :
  Forall (fun x => ok x = true) l1 -> fail_shape c r l2 -> fail_shape c r (l1 ++ l2).
Proof.
  intros H1 (pre & mid & cl & rm & -> & Hpre & Hmid & Hlen & Hcl & Hc & Hrm & Hr).
  exists (l1 ++ pre), mid, cl, rm. rewrite <- app_assoc.
  repeat split; auto. apply Forall_app. auto.
Qed.

Lemma fail_shape_close c r (l : list entry) (x : entry) :
  fail_shape 0 0 l -> is_close (ev x) = true -> fail_shape (S c) r (l ++ [x]).
Proof.
  intros (pre & mid & cl & rm & -> & Hpre & Hmid & Hlen & Hcl & Hc & Hrm & Hr) Hx.
  destruct cl; [|cbn in Hc; lia]. destruct rm; [|cbn in Hr; lia].
  exists pre, mid, [x], []. rewrite !app_nil_r, <- app_assoc.
  shape_side.
Qed.

Lemma fail_shape_rmtree c r (l : list entry) (x : entry) :
  fail_shape c 0 l -> is_rmtree (ev x) = true -> ok x = true ->
  fail_shape c (S r) (l ++ [x]).
Proof.
  intros (pre & mid & cl & rm & -> & Hpre & Hmid & Hlen & Hcl & Hc & Hrm & Hr) Hx Hok.
  destruct rm; [|cbn in Hr; lia].
  exists pre, mid, cl, [x]. rewrite !app_nil_r, <- !app_assoc.
  shape_side.
Qed.

Lemma strict_ret c r {A} (a : A) : strict c r (ret a : M A).
Proof. intros w. cbn. constructor. Qed.

Lemma strict_lift c r {A} (x : res A) : strict c r (lift x : M A).
Proof. intros w. cbn. destruct x; [constructor | apply fail_shape_nil]. Qed.

Lemma strict_bind c r {A B} (c1 : M A) (k : A -> M B) :
  strict c r c1 -> (forall a, strict c r (k a)) -> strict c r (bind c1 k).
Proof.
  intros Hc Hk w. specialize (Hc w). unfold bind, res_of, log_of in *.
  destruct (c1 w) as [[[a|e] w1] l1]; cbn [fst snd] in *; [|exact Hc].
  specialize (Hk a w1). unfold res_of, log_of in Hk.
  destruct (k a w1) as [[[b|e] w2] l2]; cbn [fst snd] in *.
  - apply Forall_app. auto.
  - apply fail_shape_prepend; auto.
Qed.

(** Leaving a [with] statement: the body has no exit of its own; the close
    runs however the body ended, and may raise. *)
Lemma strict_with_close c r {A} (body : M A) e (f : nat -> res unit)
    (upd : unit -> world -> gset string * gmap string content) :
  strict 0 0 body -> is_close e = true ->
  strict (S c) r (try_finally body (env_op e f upd)).
Proof.
  intros Hb He w. specialize (Hb w).
  unfold try_finally, env_op, res_of, log_of in *.
  destruct (body w) as [[[a|e0] w1] l1]; cbn [fst snd] in *.
  - destruct (f (w_tick w1)) as [[]|e1]; cbn [fst snd is_ok].
    + apply Forall_app. split; [exact Hb | repeat constructor].
    + exists l1, [Entry e false (w_pipe w1)], [], [].
      shape_side.
  - destruct (f (w_tick w1)) as [[]|e1]; cbn [fst snd is_ok];
      apply fail_shape_close; auto.
Qed.

(** [try: body finally: shutil.rmtree(d, ignore_errors=True)] *)
Lemma strict_try_rmtree c r {A} (body : M A) (d : string) :
  strict c 0 body -> strict c (S r) (try_finally body (rmtree d)).
Proof.
  intros Hb w. specialize (Hb w).
  unfold try_finally, rmtree, env_op, res_of, log_of in *.
  destruct (body w) as [[[a|e] w1] l1]; cbn [fst snd is_ok] in *.
  - apply Forall_app. split; [exact Hb | repeat constructor].
  - apply fail_shape_rmtree; auto.
Qed.

Lemma strict_for_each c r {A} (f : A -> M unit) (l : list A) :
  (forall x, strict c r (f x)) -> strict c r (for_each f l).
Proof.
  intros Hf. induction l as [|x l IH]; cbn [for_each].
  - apply strict_ret.
  - apply strict_bind; [apply Hf | intros _; exact IH].
Qed.

Lemma strict_for_enumerate c r {A} (f : nat -> A -> M unit) i (l : list A) :
  (forall i x, strict c r (f i x)) -> strict c r (for_enumerate f i l).
Proof.
  intros Hf. revert i. induction l as [|x l IH]; intros i; cbn [for_enumerate].
  - apply strict_ret.
  - apply strict_bind; [apply Hf | intros _; apply IH].
Qed.

Lemma strict_list_comp c r {A B} (f : A -> M B) (l : list A) :
  (forall x, strict c r (f x)) -> strict c r (list_comp f l).
Proof.
  intros Hf. induction l as [|x l IH]; cbn [list_comp].
  - apply strict_ret.
  - apply strict_bind; [apply Hf | intros y].
    apply strict_bind; [exact IH | intros ys; apply strict_ret].
Qed.

Lemma strict_pipe_op c r {A} e (f : pstate -> res A * pstate) :
  strict c r (pipe_op e f).
Proof.
  intros w. unfold pipe_op, res_of, log_of.
  destruct (f (w_pipe w)) as [[a|e0] p]; cbn.
  - repeat constructor.
  - apply fail_shape_single. reflexivity.
Qed.

Lemma strict_env_op c r {A} e (f : nat -> res A)
    (upd : A -> world -> gset string * gmap string content) :
  strict c r (env_op e f upd).
Proof.
  intros w. unfold env_op, res_of, log_of. cbn [fst snd].
  destruct (f (w_tick w)) as [a|e0]; cbn.
  - repeat constructor.
  - apply fail_shape_single. reflexivity.
Qed.

End StrictFacts.

Ltac strict_step :=
  lazymatch goal with
  | |- strict _ _ (ret _) => apply strict_ret
  | |- strict _ _ (mret _) => apply strict_ret
  | |- strict _ _ (lift _) => apply strict_lift
  | |- strict _ _ (bind _ _) => apply strict_bind; [| intros ?]
  | |- strict _ _ (mbind _ _) => apply strict_bind; [| intros ?]
  | |- strict _ _ (try_finally _ (rmtree _)) => apply strict_try_rmtree
  | |- strict _ _ (try_finally _ (file_close _ _)) =>
      unfold file_close; apply strict_with_close; [| reflexivity]
  | |- strict _ _ (try_finally _ (zip_close _ _)) =>
      unfold zip_close; apply strict_with_close; [| reflexivity]
  | |- strict _ _ (for_each _ _) => apply strict_for_each; intros ?
  | |- strict _ _ (for_enumerate _ _ _) => apply strict_for_enumerate; intros ? ?
  | |- strict _ _ (list_comp _ _) => apply strict_list_comp; intros ?
  | |- strict _ _ (if ?b then _ else _) => destruct b
  | |- strict _ _ (match ?o with Some _ => _ | None => _ end) => destruct o
  | |- strict _ _ (pipe_op _ _) => apply strict_pipe_op
  | |- strict _ _ (env_op _ _ _) => apply strict_env_op
  | |- strict _ _ ?c => let h := head_of c in unfold h
  end.

Ltac strict_run := repeat (strict_step; cbv beta zeta).

Section FailFast.

Context {pstate : Type} `{Pipeline pstate}.
Variable X : Ext.

Abbreviation M := (@M pstate).
Abbreviation world := (world pstate).
Abbreviation entry := (entry pstate).

Lemma load_lora_opt_strict pipe s : strict 1 1 (load_lora_opt X pipe s).
Proof. strict_run. Qed.

Lemma generate_qwen_strict
    prompt np seed width height gs rand steps n zipf lora ls :
  strict 1 1 (generate_qwen X prompt np seed width height gs rand steps n zipf lora ls).
Proof. strict_run. Qed.

End FailFast.

(** ** Which files a run touches *)

Section TrackFacts.

Context {pstate : Type} `{Pipeline pstate}.

Abbreviation M := (@M pstate).
Abbreviation world := (world pstate).
Abbreviation entry := (entry pstate).

Section Rules.

Variable R : world -> world -> list entry -> Prop.
Context {Rseq : Sequential R}.

Lemma tracks_ret {A} (a : A) : tracks R (ret a : M A).
Proof. intros w. apply seq_refl. Qed.

Lemma tracks_lift {A} (r : res A) : tracks R (lift r : M A).
Proof. intros w. apply seq_refl. Qed.

Lemma tracks_bind {A B} (c : M A) (k : A -> M B) :
  tracks R c -> (forall a, tracks R (k a)) -> tracks R (bind c k).
Proof.
  intros Hc Hk w. specialize (Hc w). unfold bind, world_of, log_of in *.
  destruct (c w) as [[[a|e] w1] l1]; cbn [fst snd] in *; [|exact Hc].
  specialize (Hk a w1). unfold world_of, log_of in Hk.
  destruct (k a w1) as [[r w2] l2]; cbn [fst snd] in *.
  eapply seq_trans; eauto.
Qed.

Lemma tracks_try_finally {A} (body : M A) (fin : M unit) :
  tracks R body -> tracks R fin -> tracks R (try_finally body fin).
Proof.
  intros Hb Hf w. specialize (Hb w). unfold try_finally, world_of, log_of in *.
  destruct (body w) as [[r w1] l1]; cbn [fst snd] in *.
  specialize (Hf w1). unfold world_of, log_of in Hf.
  destruct (fin w1) as [[[u|e] w2] l2]; cbn [fst snd] in *; eapply seq_trans; eauto.
Qed.

Lemma tracks_for_each {A} (f : A -> M unit) (l : list A) :
  (forall x, tracks R (f x)) -> tracks R (for_each f l).
Proof.
  intros Hf. induction l as [|x l IH]; cbn [for_each].
  - apply tracks_ret.
  - apply tracks_bind; [apply Hf | intros _; exact IH].
Qed.

Lemma tracks_for_enumerate {A} (f : nat -> A -> M unit) i (l : list A) :
  (forall i x, tracks R (f i x)) -> tracks R (for_enumerate f i l).
Proof.
  intros Hf. revert i. induction l as [|x l IH]; intros i; cbn [for_enumerate].
  - apply tracks_ret.
  - apply tracks_bind; [apply Hf | intros _; apply IH].
Qed.

Lemma tracks_list_comp {A B} (f : A -> M B) (l : list A) :
  (forall x, tracks R (f x)) -> tracks R (list_comp f l).
Proof.
  intros Hf. induction l as [|x l IH]; cbn [list_comp].
  - apply tracks_ret.
  - apply tracks_bind; [apply Hf | intros y].
    apply tracks_bind; [exact IH | intros ys; apply tracks_ret].
Qed.

End Rules.

#[global] Instance frame_sequential : Sequential (@frame pstate).
Proof.
  split.
  - intros w k _. reflexivity.
  - intros w w1 w2 l1 l2 H1 H2 k Hk.
    rewrite (H2 k), (H1 k); [reflexivity| |]; intros x Hx; apply Hk; set_solver.
Qed.

Lemma frame_pipe_op {A} e (f : pstate -> res A * pstate) : tracks frame (pipe_op e f).
Proof.
  intros w k _. unfold pipe_op, world_of.
  destruct (f (w_pipe w)) as [r p]. reflexivity.
Qed.

Lemma frame_env_op {A} e (f : nat -> res A)
    (upd : A -> world -> gset string * gmap string content) :
  (forall a (w : world) k, ~ touches e k -> (upd a w).2 !! k = w_files w !! k) ->
  tracks frame (env_op e f upd).
Proof.
  intros Hupd w k Hk. unfold env_op, world_of, log_of in *. cbn [fst snd w_files] in *.
  destruct (f (w_tick w)) as [a|e0]; cbn [snd]; [|reflexivity].
  apply Hupd. apply (Hk (Entry e true (w_pipe w))). set_solver.
Qed.

Lemma lookup_rmtree_other (d k : string) (m : gmap string content) :
  startswith (d +:+ "/") k <> true ->
  filter (fun kv : string * content => startswith (d +:+ "/") kv.1 = false) m !! k = m !! k.
Proof.
  intros Hk. rewrite map_lookup_filter.
  destruct (m !! k) as [c|]; [|reflexivity]. cbn.
  destruct (startswith (d +:+ "/") k); [congruence|].
  rewrite option_guard_True; [reflexivity | reflexivity].
Qed.

Lemma lookup_rmtree_under (d k : string) (m : gmap string content) :
  startswith (d +:+ "/") k = true ->
  filter (fun kv : string * content => startswith (d +:+ "/") kv.1 = false) m !! k = None.
Proof.
  intros Hk. rewrite map_lookup_filter.
  destruct (m !! k) as [c|]; [|reflexivity]. cbn.
  rewrite option_guard_False; [reflexivity | cbn; congruence].
Qed.

End TrackFacts.

Ltac frame_side :=
  intros; cbn [touches fst snd same_fs put_file] in *;
  first
    [ reflexivity
    | apply lookup_rmtree_other; assumption
    | repeat match goal with |- context [match ?m !! ?p with _ => _ end] => destruct (m !! p) as [[]|] end;
      cbn [snd put_file]; apply lookup_insert_ne; congruence ].

Ltac tracks_step :=
  lazymatch goal with
  | |- tracks frame (ret _) => apply (tracks_ret frame)
  | |- tracks frame (mret _) => apply (tracks_ret frame)
  | |- tracks frame (lift _) => apply (tracks_lift frame)
  | |- tracks frame (bind _ _) => apply (tracks_bind frame); [| intros ?]
  | |- tracks frame (mbind _ _) => apply (tracks_bind frame); [| intros ?]
  | |- tracks frame (try_finally _ _) => apply (tracks_try_finally frame)
  | |- tracks frame (for_each _ _) => apply (tracks_for_each frame); intros ?
  | |- tracks frame (for_enumerate _ _ _) => apply (tracks_for_enumerate frame); intros ? ?
  | |- tracks frame (list_comp _ _) => apply (tracks_list_comp frame); intros ?
  | |- tracks frame (if ?b then _ else _) => destruct b
  | |- tracks frame (match ?o with Some _ => _ | None => _ end) => destruct o
  | |- tracks frame (pipe_op _ _) => apply frame_pipe_op
  | |- tracks frame (env_op _ _ _) => apply frame_env_op; frame_side
  | |- tracks frame ?c => let h := head_of c in unfold h
  end.

Ltac tracks_run := repeat (tracks_step; cbv beta zeta).

Section FrameFacts.

Context {pstate : Type} `{Pipeline pstate}.
Variable X : Ext.

Abbreviation M := (@M pstate).
Abbreviation world := (world pstate).
Abbreviation entry := (entry pstate).

Lemma load_lora_opt_frame pipe s : tracks frame (load_lora_opt X pipe s).
Proof. tracks_run. Qed.

Lemma generate_qwen_frame
    prompt np seed width height gs rand steps n zipf lora ls :
  tracks frame (generate_qwen X prompt np seed width height gs rand steps n zipf lora ls).
Proof. tracks_run. Qed.

End FrameFacts.

(** ** The images and their files *)

Ltac run_ok H x w l E :=
  let l' := fresh "l" in
  apply bind_ok in H as (x & w & l & l' & E & H & ->).

Section ImageFacts.

Context {pstate : Type} `{Pipeline pstate}.
Variable X : Ext.

Abbreviation M := (@M pstate).
Abbreviation world := (world pstate).
Abbreviation entry := (entry pstate).

Lemma length_append (u a : string) :
  String.length (u +:+ a) = String.length u + String.length a.
Proof.
  induction u as [|c u IH]; [reflexivity|].
  change (S (String.length (u +:+ a)) = S (String.length u + String.length a)).
  rewrite IH. reflexivity.
Qed.

Lemma append_suffix_inj (u v a b : string) :
  String.length a = String.length b -> u +:+ a = v +:+ b -> a = b.
Proof.
  revert v. induction u as [|c u IH]; intros v Hlen E.
  - change (a = v +:+ b) in E. destruct v as [|d v]; [exact E|].
    exfalso. apply (f_equal String.length) in E.
    rewrite length_append in E. cbn [String.length] in E. lia.
  - destruct v as [|d v].
    + change (String c (u +:+ a) = b) in E.
      exfalso. apply (f_equal String.length) in E.
      cbn [String.length] in E. rewrite length_append in E. lia.
    + change (String c (u +:+ a) = String d (v +:+ b)) in E.
      injection E as _ E. exact (IH _ Hlen E).
Qed.

(** A name that ends in [".png"] is not a name that ends in [".zip"]. *)
Lemma png_not_zip (u v : string) : u +:+ ".png" <> v +:+ ".zip".
Proof.
  intros E. apply append_suffix_inj in E; [discriminate | reflexivity].
Qed.

Lemma save_image_ok (img : image) (w w1 : world) (y : string) l1 :
  save_image X img w = (Ok y, w1, l1) ->
  y = x_uuid4 X (w_tick w) +:+ ".png" /\
  l1 = [Entry EUuid4 true (w_pipe w); Entry (EImageSave img y) true (w_pipe w)] /\
  w_files w1 = <[y := FImage img]> (w_files w).
Proof.
  unfold save_image, mbind, M_bind, bind, uuid4_str, image_save, env_op, ret.
  cbn [fst snd w_tick w_files w_dirs w_pipe same_fs is_ok].
  destruct (x_image_save X (S (w_tick w)) img _) as [u|e]; [|discriminate].
  cbn. intros [= <- <- <-]. auto.
Qed.

Lemma list_comp_save_frame (imgs : list image) :
  tracks (@frame pstate) (list_comp (save_image X) imgs).
Proof. tracks_run. Qed.

Lemma image_saves_app (l1 l2 : list entry) :
  image_saves (l1 ++ l2) = image_saves l1 ++ image_saves l2.
Proof.
  induction l1 as [|x l1 IH]; cbn [image_saves app]; [reflexivity|].
  destruct (ev x); rewrite ?IH; reflexivity.
Qed.

Lemma image_saves_none (l : list entry) :
  Forall (fun x => is_save (ev x) = false) l -> image_saves l = [].
Proof.
  induction 1 as [|x l Hx _ IH]; cbn [image_saves]; [reflexivity|].
  destruct (ev x); try exact IH. discriminate.
Qed.

(** The list comprehension over the images: one name per image, in order;
    every file touched is one of the names; and when the names differ from
    one another, each file holds its image at the end. *)
Lemma list_comp_save_images (imgs : list image) :
  forall (w w' : world) paths l,
    list_comp (save_image X) imgs w = (Ok paths, w', l) ->
    length imgs = length paths /\
    image_saves l = zip imgs paths /\
    Forall (fun p => exists u, p = u +:+ ".png") paths /\
    (forall x, x ∈ l -> forall k, touches (ev x) k -> k ∈ paths) /\
    (NoDup paths ->
     forall img p, (img, p) ∈ zip imgs paths -> w_files w' !! p = Some (FImage img)).
Proof.
  induction imgs as [|img imgs IH]; intros w w' paths l Hrun.
  - cbn in Hrun. injection Hrun as <- <- <-. cbn.
    repeat split; auto; try constructor.
    + intros x Hx. inversion Hx.
    + intros _ img p Hin. inversion Hin.
  - cbn [list_comp] in Hrun. unfold mbind, M_bind in Hrun.
    run_ok Hrun y w1 l1 E1. run_ok Hrun ys w2 l2 E2.
    unfold ret in Hrun. injection Hrun as <- <- <-.
    destruct (save_image_ok _ _ _ _ _ E1) as (Hy & -> & Hf1).
    destruct (IH _ _ _ _ E2) as (Hlen & Hsaves & Hpng & Htouch & Hfiles).
    split; [cbn; lia|]. split; [|split; [|split]].
    + rewrite app_nil_r. cbn [image_saves app ev zip zip_with]. rewrite Hsaves. reflexivity.
    + constructor; [eauto | exact Hpng].
    + intros x Hx k Hk. rewrite app_nil_r in Hx.
      cbn [app] in Hx. apply elem_of_cons in Hx as [->|Hx]; [destruct Hk|].
      apply elem_of_cons in Hx as [->|Hx].
      * cbn in Hk. subst k. set_solver.
      * apply elem_of_cons. right. eapply Htouch; eauto.
    + intros Hnd img' p Hin. apply NoDup_cons in Hnd as [Hny Hnd].
      cbn [zip zip_with] in Hin. apply elem_of_cons in Hin as [[= -> ->]|Hin].
      * pose proof (list_comp_save_frame imgs w1 y) as Hfr.
        rewrite E2 in Hfr. cbn [world_of log_of fst snd] in Hfr.
        rewrite Hfr, Hf1; [apply lookup_insert_eq|].
        intros x Hx Hk. apply Hny. eapply Htouch; eauto.
      * apply Hfiles; assumption.
Qed.

End ImageFacts.

(** ** A request that returns, phase by phase *)

Section ReturningRun.

Context {pstate : Type} `{Pipeline pstate}.
Variable X : Ext.

Abbreviation M := (@M pstate).
Abbreviation world := (world pstate).
Abbreviation entry := (entry pstate).

Lemma generate_qwen_ok_phases
    prompt np seed width height gs rand steps n zipf lora ls
    (w w' : world) paths seed' dur zp l :
  generate_qwen X prompt np seed width height gs rand steps n zipf lora ls w
  = (Ok (paths, seed', dur, zp), w', l) ->
  exists sgt w1 lp w2 la w3 lr lc,
    prologue X seed rand w = (Ok sgt, w1, lp) /\
    attach_lora X lora ls w1 = (Ok tt, w2, la) /\
    produce X prompt np width height gs steps n zipf sgt.1.2 sgt.2 w2
    = (Ok (paths, dur, zp), w3, lr) /\
    clear_adapters w3 = (Ok tt, w', lc) /\
    l = lp ++ la ++ lr ++ lc /\ seed' = sgt.1.1.
Proof.
  rewrite generate_qwen_phases. unfold generate_qwen_phased, mbind, M_bind.
  intros Hrun.
  run_ok Hrun sgt w1 lp E1. run_ok Hrun u2 w2 la E2.
  run_ok Hrun out w3 lr E3. run_ok Hrun u4 w4 lc E4.
  unfold ret in Hrun. injection Hrun as Hp Hs Hd Hz Hw Hl. subst.
  destruct u2, u4, out as [[ps d] z]. cbn [fst snd] in *.
  exists sgt, w1, lp, w2, la, w3, lr, lc.
  rewrite app_nil_r. auto 10.
Qed.

Lemma zip_step_ok (zipf : bool) (paths : list string) (w w' : world) zp l :
  zip_step X zipf paths w = (Ok zp, w', l) ->
  (zp <> None <-> zipf = true) /\
  Forall (fun x => is_save (ev x) = false /\ is_pipe_call (ev x) = false) l /\
  (forall x, x ∈ l -> forall k, touches (ev x) k ->
             exists u, k = u +:+ ".zip" /\ zp = Some k).
Proof.
  unfold zip_step. destruct zipf.
  - unfold mbind, M_bind. intros Hrun. run_ok Hrun u wa la Ea.
    assert (K : keeps (fun _ : world => True)
                  (fun x => (is_save (ev x) = false /\ is_pipe_call (ev x) = false) /\
                            forall k, touches (ev x) k -> k = u +:+ ".zip")
                  (with_zip_file X (u +:+ ".zip")
                     (for_enumerate
                        (fun i img_path =>
                           zip_write X (u +:+ ".zip") img_path (arcname i))
                        0 paths);;
                   ret (Some (u +:+ ".zip")))).
    { keeps_run; intros; split; intros; try exact I;
        (split; [split; reflexivity | cbn; intros; auto]). }
    destruct (K wa I) as [_ Kl]. cbv beta zeta in Hrun.
    unfold mbind, M_bind in Kl. rewrite Hrun in Kl.
    cbn [log_of snd] in Kl.
    assert (zp = Some (u +:+ ".zip")) as ->.
    { run_ok Hrun u1 wb lb Eb.
      unfold ret in Hrun. injection Hrun as <- _ _. reflexivity. }
    unfold uuid4_str, env_op in Ea. injection Ea as _ _ <-.
    split; [split; [reflexivity | discriminate]|]. split.
    + constructor; [split; reflexivity|].
      eapply Forall_impl; [exact Kl | intros x [Hx _]; exact Hx].
    + intros x Hx k Hk. apply elem_of_cons in Hx as [->|Hx]; [destruct Hk|].
      rewrite Forall_forall in Kl. destruct (Kl _ Hx) as [_ Hk'].
      exists u. rewrite (Hk' _ Hk). auto.
  - unfold ret. intros [= <- <- <-].
    split; [split; [congruence | discriminate]|].
    split; [constructor|]. intros x Hx. inversion Hx.
Qed.

Lemma produce_ok
    prompt np width height gs steps n zipf g t0
    (w w' : world) paths dur zp l :
  produce X prompt np width height gs steps n zipf g t0 w = (Ok (paths, dur, zp), w', l) ->
  exists imgs xc xt wb ls wc lz,
    ev xc = EPipeCall (CallArgs prompt
                         (if String.eqb np EmptyString then EmptyString else np)
                         height width gs steps n g "pil") /\
    (pipe_call (CallArgs prompt
                  (if String.eqb np EmptyString then EmptyString else np)
                  height width gs steps n g "pil") (w_pipe w)).1 = Ok imgs /\
    ev xt = ETime /\
    list_comp (save_image X) imgs wb = (Ok paths, wc, ls) /\
    w_files wb = w_files w /\
    zip_step X zipf paths wc = (Ok zp, w', lz) /\
    l = xc :: xt :: ls ++ lz.
Proof.
  unfold produce, mbind, M_bind. intros Hrun.
  run_ok Hrun imgs wa la Ea. run_ok Hrun t1 wb lb Eb.
  run_ok Hrun ps wc ls Ec. run_ok Hrun z wd lz Ed.
  unfold ret in Hrun. injection Hrun as Hp Hd Hz Hw Hl. subst.
  unfold m_pipe_call, pipe_op in Ea.
  match type of Ea with context [pipe_call ?a ?p] =>
    destruct (pipe_call a p) as [r pa] eqn:Ecall end.
  injection Ea as -> <- <-.
  unfold time_time, env_op in Eb. injection Eb as _ <- <-.
  exists imgs,
    (Entry (EPipeCall (CallArgs prompt
                         (if String.eqb np EmptyString then EmptyString else np)
                         height width gs steps n g "pil")) true pa),
    (Entry ETime true pa),
    (World pa (w_dirs w) (w_files w) (S (w_tick w))), ls, wc, lz.
  split; [reflexivity|]. split; [reflexivity|].
  split; [reflexivity|]. split; [exact Ec|]. split; [reflexivity|].
  split; [exact Ed|]. rewrite app_nil_r. reflexivity.
Qed.

End ReturningRun.

(** ** What a request gives to the pipeline and writes to disk *)

Section RequestFacts.

Context {pstate : Type} `{Pipeline pstate}.
Variable X : Ext.

Abbreviation M := (@M pstate).
Abbreviation world := (world pstate).
Abbreviation entry := (entry pstate).

Lemma count_ev_app (q : event -> bool) (l1 l2 : list entry) :
  count_ev q (l1 ++ l2) = count_ev q l1 + count_ev q l2.
Proof. unfold count_ev. rewrite filter_app, length_app. reflexivity. Qed.

Lemma count_ev_zero (q : event -> bool) (l : list entry) :
  Forall (fun x => q (ev x) = false) l -> count_ev q l = 0.
Proof.
  unfold count_ev. induction 1 as [|x l Hx _ IH]; [reflexivity|].
  rewrite filter_cons_False; [exact IH | congruence].
Qed.

Lemma never_of_keeps (q : event -> bool) {A} (c : M A) :
  keeps (fun _ : world => True) (fun x => q (ev x) = false) c -> never q c.
Proof. intros K w. apply (K w I). Qed.

Lemma at_most_once_bind_l (q : event -> bool) {A B} (c : M A) (k : A -> M B) :
  never q c -> (forall a, at_most_once q (k a)) -> at_most_once q (bind c k).
Proof.
  intros Hc Hk w. rewrite bind_log, count_ev_app, (count_ev_zero _ _ (Hc w)).
  destruct (res_of (c w)); [apply Hk | cbn; lia].
Qed.

Lemma at_most_once_bind_r (q : event -> bool) {A B} (c : M A) (k : A -> M B) :
  at_most_once q c -> (forall a, never q (k a)) -> at_most_once q (bind c k).
Proof.
  intros Hc Hk w. rewrite bind_log, count_ev_app. specialize (Hc w).
  destruct (res_of (c w)) as [a|e].
  - rewrite (count_ev_zero _ _ (Hk a _)). lia.
  - cbn. lia.
Qed.

Lemma at_most_once_pipe_op (q : event -> bool) {A} e (f : pstate -> res A * pstate) :
  at_most_once q (pipe_op e f).
Proof.
  intros w. unfold pipe_op, log_of, count_ev.
  destruct (f (w_pipe w)) as [r p]. cbn [snd].
  destruct (decide (q e = true)) as [Hq|Hq].
  - rewrite filter_cons_True by exact Hq. cbn. lia.
  - rewrite filter_cons_False by exact Hq. cbn. lia.
Qed.

Lemma never_bind (q : event -> bool) {A B} (c : M A) (k : A -> M B) :
  never q c -> (forall a, never q (k a)) -> never q (bind c k).
Proof.
  intros Hc Hk w. rewrite bind_log. apply Forall_app. split; [apply Hc|].
  destruct (res_of (c w)); [apply Hk | constructor].
Qed.

Lemma prologue_never_call seed rand : never is_pipe_call (prologue X seed rand).
Proof. apply never_of_keeps. keeps_run; intros; split; intros; solve [exact I | reflexivity]. Qed.

Lemma attach_lora_never_call lora ls : never is_pipe_call (attach_lora X lora ls).
Proof. apply never_of_keeps. keeps_run; intros; split; intros; solve [exact I | reflexivity]. Qed.

Lemma clear_adapters_never_call : never is_pipe_call (@clear_adapters pstate _).
Proof. apply never_of_keeps. keeps_run; intros; split; intros; solve [exact I | reflexivity]. Qed.

Lemma produce_at_most_once prompt np width height gs steps n zipf g t0 :
  at_most_once is_pipe_call (produce X prompt np width height gs steps n zipf g t0).
Proof.
  unfold produce, mbind, M_bind.
  apply at_most_once_bind_r; [apply at_most_once_pipe_op | intros imgs].
  apply never_of_keeps. keeps_run; intros; split; intros; solve [exact I | reflexivity].
Qed.

Lemma generate_qwen_at_most_once
    prompt np seed width height gs rand steps n zipf lora ls :
  at_most_once is_pipe_call
    (generate_qwen X prompt np seed width height gs rand steps n zipf lora ls).
Proof.
  intros w. rewrite generate_qwen_phases. revert w.
  unfold generate_qwen_phased, mbind, M_bind.
  apply at_most_once_bind_l; [apply prologue_never_call | intros sgt].
  apply at_most_once_bind_l; [apply attach_lora_never_call | intros _].
  apply at_most_once_bind_r; [apply produce_at_most_once | intros out].
  apply never_bind; [apply clear_adapters_never_call | intros _].
  intros w. constructor.
Qed.

(** The negative prompt goes to the pipeline as it is. *)
Lemma negative_prompt_or_empty (np : string) :
  (if String.eqb np EmptyString then EmptyString else np) = np.
Proof. destruct (String.eqb_spec np EmptyString) as [->|_]; reflexivity. Qed.

Lemma generate_qwen_call_args
    prompt np seed width height gs rand steps n zipf lora ls :
  keeps (fun _ : world => True)
    (fun x => forall a, ev x = EPipeCall a ->
                        a = CallArgs prompt np height width gs steps n (ca_generator a) "pil")
    (generate_qwen X prompt np seed width height gs rand steps n zipf lora ls).
Proof.
  keeps_run; intros; split; intros; try exact I;
    cbn [ev] in *; try discriminate.
  match goal with Ha : EPipeCall _ = EPipeCall _ |- _ => injection Ha as <- end.
  rewrite negative_prompt_or_empty. reflexivity.
Qed.

(** X4. [generate_qwen] invokes the pipeline at most once in any run and
    exactly once in a run that returns, and with the parameters of the
    request as they are: prompt, negative prompt, height, width, guidance
    scale, number of steps, number of images, and the output type
    ["pil"]. *)
Theorem generate_qwen_one_call
    prompt np seed width height gs rand steps n zipf lora ls (w : world) :
  let o := generate_qwen X prompt np seed width height gs rand steps n zipf lora ls w in
  count_ev is_pipe_call (log_of o) <= 1 /\
  (is_ok (res_of o) = true -> count_ev is_pipe_call (log_of o) = 1) /\
  (forall x a,
     x ∈ log_of o -> ev x = EPipeCall a ->
     a = CallArgs prompt np height width gs steps n (ca_generator a) "pil").
Proof.
  intros o.
  pose proof (generate_qwen_at_most_once prompt np seed width height gs rand steps n
                zipf lora ls w) as Hle. fold o in Hle.
  split; [exact Hle|]. split.
  - intros Hok. subst o.
    destruct (generate_qwen X prompt np seed width height gs rand steps n zipf lora ls w)
      as [[[[[[paths seed'] dur] zp]|e] w'] l] eqn:E; [|discriminate].
    cbn [log_of snd] in *.
    destruct (generate_qwen_ok_phases X _ _ _ _ _ _ _ _ _ _ _ _ _ _ _ _ _ _ _ E)
      as (sgt & w1 & lp & w2 & la & w3 & lr & lc & _ & _ & E3 & _ & -> & _).
    destruct (produce_ok X _ _ _ _ _ _ _ _ _ _ _ _ _ _ _ _ E3)
      as (imgs & xc & xt & wb & lsv & wc & lz & Hxc & _ & _ & _ & _ & _ & ->).
    assert (1 <= count_ev is_pipe_call (lp ++ la ++ (xc :: xt :: lsv ++ lz) ++ lc)); [|lia].
    rewrite !count_ev_app. unfold count_ev at 3.
    rewrite filter_cons_True by (rewrite Hxc; reflexivity). cbn. lia.
  - intros x a Hx Ha.
    destruct (generate_qwen_call_args prompt np seed width height gs rand steps n
                zipf lora ls w I) as [_ K].
    rewrite Forall_forall in K. exact (K x Hx a Ha).
Qed.

(** X5. Through [generate], the text of the negative prompt reaches the
    pipeline only when [use_negative_prompt] is set: unset, every
    invocation gets the empty negative prompt; set, it gets the text as
    typed. *)
Theorem generate_negative_prompt
    prompt np (use : bool) seed width height gs rand steps n zipf lora ls
    (w : world) (x : entry) (a : call_args) :
  x ∈ log_of (generate X prompt np use seed width height gs rand steps n zipf lora ls w) ->
  ev x = EPipeCall a ->
  ca_negative_prompt a = if use then np else EmptyString.
Proof.
  unfold generate. intros Hx Ha.
  destruct (generate_qwen_call_args prompt (if use then np else EmptyString)
              seed width height gs rand steps n zipf lora ls w I) as [_ K].
  rewrite Forall_forall in K. rewrite (K x Hx a Ha). reflexivity.
Qed.

End RequestFacts.

Section OutputFacts.

Context {pstate : Type} `{Pipeline pstate}.
Variable X : Ext.

Abbreviation M := (@M pstate).
Abbreviation world := (world pstate).
Abbreviation entry := (entry pstate).

Ltac quiet_side := intros; split; intros; try exact I; split; [reflexivity | cbn; tauto].

Lemma prologue_quiet seed rand :
  keeps (fun _ : world => True) quiet (prologue X seed rand).
Proof. keeps_run; quiet_side. Qed.

Lemma clear_adapters_quiet :
  keeps (fun _ : world => True) quiet (@clear_adapters pstate _).
Proof. keeps_run; quiet_side. Qed.

(** The adapter phase saves no image and touches files through the calls
    of the download only. *)
Lemma attach_lora_download_only lora ls :
  keeps (fun _ : world => True)
    (fun x => is_save (ev x) = false /\
              forall k, touches (ev x) k -> is_download (ev x) = true)
    (attach_lora X lora ls).
Proof.
  keeps_run; intros; split; intros; try exact I;
    (split; [reflexivity | cbn; intros; solve [reflexivity | contradiction]]).
Qed.

Lemma prologue_ok seed rand (w w1 : world) sgt lp :
  prologue X seed rand w = (Ok sgt, w1, lp) -> sgt.1.2 = Generator sgt.1.1.
Proof.
  unfold prologue, mbind, M_bind. intros Hr.
  run_ok Hr s1 wa la Ea. run_ok Hr g wb lb Eb. run_ok Hr t0 wc lc Ec.
  run_ok Hr u wd ld Ed. unfold ret in Hr. injection Hr as <- _ _.
  unfold manual_seed, env_op in Eb.
  destruct (x_manual_seed X s1); [|discriminate]. injection Eb as <- _ _. reflexivity.
Qed.

Lemma zip_step_frame zipf paths : tracks (@frame pstate) (zip_step X zipf paths).
Proof. tracks_run. Qed.

(** X2. A request that returns has saved the images the pipeline returned,
    in order, one file per image under a name ending in [".png"], and the
    returned paths are these names; when the names differ from one
    another, each file holds its image at the end of the request, zipped
    or not. *)
Theorem generate_qwen_images
    prompt np seed width height gs rand steps n zipf lora ls
    (w w' : world) paths seed' dur zp l :
  generate_qwen X prompt np seed width height gs rand steps n zipf lora ls w
  = (Ok (paths, seed', dur, zp), w', l) ->
  exists imgs,
    (exists p0,
       (pipe_call (CallArgs prompt np height width gs steps n (Generator seed') "pil")
          p0).1 = Ok imgs) /\
    length paths = length imgs /\
    image_saves l = zip imgs paths /\
    Forall (fun p => exists u, p = u +:+ ".png") paths /\
    (NoDup paths ->
     forall img p, (img, p) ∈ zip imgs paths -> w_files w' !! p = Some (FImage img)).
Proof.
  intros Hrun.
  destruct (generate_qwen_ok_phases X _ _ _ _ _ _ _ _ _ _ _ _ _ _ _ _ _ _ _ Hrun)
    as (sgt & w1 & lp & w2 & la & w3 & lr & lc & E1 & E2 & E3 & E4 & -> & ->).
  destruct (produce_ok X _ _ _ _ _ _ _ _ _ _ _ _ _ _ _ _ E3)
    as (imgs & xc & xt & wb & lsv & wc & lz & Hxc & Hcall & Hxt & Ec & _ & Ez & ->).
  destruct (list_comp_save_images X _ _ _ _ _ Ec) as (Hlen & Hsaves & Hpng & Htouch & Hfiles).
  destruct (zip_step_ok X _ _ _ _ _ _ Ez) as (_ & Hzq & Hzt).
  exists imgs. split; [|split; [|split; [|split]]].
  - exists (w_pipe w2). rewrite negative_prompt_or_empty in Hcall.
    rewrite <- (prologue_ok _ _ _ _ _ _ E1). exact Hcall.
  - lia.
  - destruct (prologue_quiet seed rand w I) as [_ Kp]. rewrite E1 in Kp.
    destruct (attach_lora_download_only lora ls w1 I) as [_ Ka]. rewrite E2 in Ka.
    destruct (clear_adapters_quiet w3 I) as [_ Kc]. rewrite E4 in Kc.
    cbn [log_of snd] in Kp, Ka, Kc.
    rewrite !image_saves_app.
    rewrite (image_saves_none lp), (image_saves_none la), (image_saves_none lc).
    + cbn [image_saves app]. rewrite Hxc, Hxt, image_saves_app, (image_saves_none lz).
      * rewrite !app_nil_r. exact Hsaves.
      * eapply Forall_impl; [exact Hzq | intros ? [? _]; assumption].
    + eapply Forall_impl; [exact Kc | intros ? [? _]; assumption].
    + eapply Forall_impl; [exact Ka | intros ? [? _]; assumption].
    + eapply Forall_impl; [exact Kp | intros ? [? _]; assumption].
  - exact Hpng.
  - intros Hnd img p Hin.
    pose proof (clear_adapters_files w3) as Hc. rewrite E4 in Hc. cbn in Hc. rewrite Hc.
    pose proof (zip_step_frame zipf paths wc p) as Hz. rewrite Ez in Hz.
    cbn [world_of log_of fst snd] in Hz. rewrite Hz; [exact (Hfiles Hnd img p Hin)|].
    intros x Hx Hk. destruct (Hzt x Hx p Hk) as (u & Hu & _).
    assert (Hp : p ∈ paths) by (apply elem_of_zip_r in Hin; exact Hin).
    rewrite Forall_forall in Hpng. destruct (Hpng p Hp) as (u' & Hu').
    rewrite Hu' in Hu. exact (png_not_zip _ _ Hu).
Qed.

End OutputFacts.

(** ** The LoRA resolver *)

Section ResolverFacts.

Context {pstate : Type} `{Pipeline pstate}.
Variable X : Ext.

Abbreviation M := (@M pstate).
Abbreviation world := (world pstate).
Abbreviation entry := (entry pstate).

(** *** Paths below the temporary directory *)

Lemma startswith_app_same (p q r : string) :
  startswith (p +:+ q) (p +:+ r) = startswith q r.
Proof.
  induction p as [|a p IH]; [reflexivity|].
  change (String a p +:+ q) with (String a (p +:+ q)).
  change (String a p +:+ r) with (String a (p +:+ r)).
  cbn [startswith]. rewrite Ascii.eqb_refl. exact IH.
Qed.

Lemma contains_slash_cons (c : ascii) (rest : string) :
  contains "/" (String c rest) = Ascii.eqb c "/" || contains "/" rest.
Proof.
  cbn [contains startswith]. rewrite (Ascii.eqb_sym "/" c).
  destruct (Ascii.eqb c "/"); reflexivity.
Qed.

(** A base name has no ["/"]. *)
Lemma basename_no_slash (p : string) : contains "/" (basename p) = false.
Proof.
  unfold basename. induction p as [|c rest IH]; [reflexivity|].
  change (after_last_slash (String c rest))
    with (if contains "/" rest then after_last_slash rest
          else if Ascii.eqb c "/" then rest else String c rest).
  destruct (contains "/" rest) eqn:Hc; [exact IH|].
  destruct (Ascii.eqb c "/") eqn:Hs; [exact Hc|].
  rewrite contains_slash_cons, Hs, Hc. reflexivity.
Qed.

(** [os.path.join(d, b)] is below [d] when [d] is a directory name
    without a final slash and [b] has no slash. *)
Lemma path_join_under (d b : string) :
  d <> EmptyString -> ends_with_slash d = false -> contains "/" b = false ->
  startswith (d +:+ "/") (path_join d b) = true.
Proof.
  intros Hd He Hb. unfold path_join.
  assert (Hs : startswith "/" b = false).
  { destruct b as [|c b]; [reflexivity|].
    rewrite contains_slash_cons in Hb. apply orb_false_elim in Hb as [Hb _].
    cbn [startswith]. rewrite Ascii.eqb_sym, Hb. reflexivity. }
  rewrite Hs. destruct (String.eqb_spec d EmptyString) as [->|_]; [congruence|].
  rewrite He. cbn [orb]. rewrite startswith_app_same. reflexivity.
Qed.

(** *** Single calls that return *)

Lemma env_op_ok {A} e (f : nat -> res A)
    (upd : A -> world -> gset string * gmap string content) (w w' : world) a l :
  env_op e f upd w = (Ok a, w', l) ->
  f (w_tick w) = Ok a /\
  w' = World (w_pipe w) (upd a w).1 (upd a w).2 (S (w_tick w)) /\
  l = [Entry e true (w_pipe w)].
Proof.
  unfold env_op. destruct (f (w_tick w)) as [a0|e0]; cbn; [|discriminate].
  intros [= <- <- <-]. auto.
Qed.

Lemma pipe_op_ok {A} e (f : pstate -> res A * pstate) (w w' : world) a l :
  pipe_op e f w = (Ok a, w', l) ->
  f (w_pipe w) = (Ok a, w_pipe w') /\
  w' = World (w_pipe w') (w_dirs w) (w_files w) (w_tick w) /\
  l = [Entry e true (w_pipe w')].
Proof.
  unfold pipe_op. destruct (f (w_pipe w)) as [[a0|e0] p]; cbn; [|discriminate].
  intros [= <- <- <-]. auto.
Qed.

(** *** The body of the [try] statement *)

(** The writes of the chunks append them to the file, in order. *)
Lemma for_each_write_ok (path : string) (chunks : list string) :
  forall (w w' : world) l cs,
    for_each (file_write X path) chunks w = (Ok tt, w', l) ->
    w_files w !! path = Some (FBytes cs) ->
    w_files w' !! path = Some (FBytes (cs ++ chunks)) /\
    (forall k, k <> path -> w_files w' !! k = w_files w !! k) /\
    w_pipe w' = w_pipe w /\
    w_dirs w' = w_dirs w /\
    map ev l = map (EWrite path) chunks.
Proof.
  induction chunks as [|c chunks IH]; intros w w' l cs Hr Hf.
  - cbn in Hr. injection Hr as <- <-. rewrite app_nil_r. auto.
  - cbn [for_each] in Hr. unfold mbind, M_bind in Hr.
    run_ok Hr u w1 l1 E1.
    unfold file_write in E1. apply env_op_ok in E1 as (_ & -> & ->).
    rewrite Hf in Hr. cbn [put_file fst snd] in Hr.
    destruct (IH _ _ _ (cs ++ [c]) Hr) as (Hp & Ho & Hpipe & Hdirs & Hl).
    { cbn. apply lookup_insert_eq. }
    rewrite <- app_assoc in Hp. cbn in Hp, Ho, Hpipe, Hdirs.
    split; [exact Hp|]. split; [|split; [exact Hpipe|split; [exact Hdirs|]]].
    + intros k Hk. rewrite (Ho k Hk). apply lookup_insert_ne. congruence.
    + cbn. rewrite Hl. reflexivity.
Qed.

(** A download that returns: the request returned a response whose status
    check passed and whose stream did not break, the local copy holds the
    chunks of the response in order, no other file changed, and the
    adapter was loaded from the local copy. *)
Lemma download_body_ok (url lp : string) (w w' : world) l :
  download_body X url lp w = (Ok tt, w', l) ->
  exists resp,
    x_http_get X (S (w_tick w)) url = Ok resp /\
    resp_status resp = Ok tt /\
    resp_broken resp = None /\
    w_files w' !! lp = Some (FBytes (resp_chunks resp)) /\
    (forall k, k <> lp -> w_files w' !! k = w_files w !! k) /\
    w_dirs w' = w_dirs w /\
    load_lora_weights lp "default" (w_pipe w) = (Ok tt, w_pipe w') /\
    map ev l =
    [EPrint ("Downloading LoRA from " +:+ url +:+ "..."); EHttpGet url;
     ERaiseForStatus; EOpenWb lp]
    ++ map (EWrite lp) (resp_chunks resp)
    ++ [EClose lp; EPrint ("Saved LoRA to " +:+ lp); ELoadLoraWeights lp "default"].
Proof.
  unfold download_body, mbind, M_bind. intros Hr.
  run_ok Hr u1 w1 l1 E1. run_ok Hr resp w2 l2 E2. run_ok Hr u3 w3 l3 E3.
  run_ok Hr u4 w4 l4 E4. run_ok Hr u5 w5 l5 E5.
  unfold with_open_wb, mbind, M_bind in E4.
  run_ok E4 u6 w6 l6 E6.
  apply try_finally_ok in E4 as (wb & lb & lx & E4 & Ex & ->).
  unfold print in E1, E5. unfold requests_get in E2. unfold raise_for_status in E3.
  unfold open_wb in E6. unfold file_close in Ex.
  apply env_op_ok in E1 as (_ & -> & ->). apply env_op_ok in E2 as (Hget & -> & ->).
  apply env_op_ok in E3 as (Hst & -> & ->). apply env_op_ok in E6 as (_ & -> & ->).
  apply env_op_ok in Ex as (_ & -> & ->).
  cbn [same_fs put_file fst snd w_pipe w_dirs w_files w_tick] in *.
  unfold write_chunks, mbind, M_bind in E4. run_ok E4 u7 w7 l7 E7.
  destruct u7.
  destruct (for_each_write_ok lp (resp_chunks resp) _ _ _ [] E7)
    as (Hf & Ho & Hpipe & Hd7 & Hl).
  { cbn. apply lookup_insert_eq. }
  cbn [app w_files w_pipe w_dirs] in Hf, Ho, Hpipe, Hd7.
  destruct (resp_broken resp) as [e|] eqn:Hb.
  { unfold env_op in E4. cbn in E4. discriminate. }
  unfold ret in E4. injection E4 as _ -> <-.
  apply env_op_ok in E5 as (_ & -> & ->).
  unfold m_load_lora_weights in Hr. apply pipe_op_ok in Hr as (Hload & Hw' & ->).
  cbn [same_fs fst snd w_pipe w_dirs w_files w_tick] in *.
  exists resp. rewrite Hpipe in Hload.
  split; [exact Hget|]. split; [destruct u3; exact Hst|]. split; [exact Hb|].
  rewrite Hw'. cbn [w_files w_dirs].
  split; [exact Hf|]. split.
  { intros k Hk. rewrite (Ho k Hk). apply lookup_insert_ne. congruence. }
  split; [exact Hd7|]. split; [exact Hload|].
  rewrite !map_app, Hl. cbn. rewrite app_nil_r, <- app_assoc. reflexivity.
Qed.

(** A [try] statement whose [finally] removes a directory, when it
    returns. *)
Lemma try_finally_rmtree_ok {A} (body : M A) (d : string) (w w' : world) a l :
  try_finally body (rmtree d) w = (Ok a, w', l) ->
  exists w1 l1,
    body w = (Ok a, w1, l1) /\
    w_pipe w' = w_pipe w1 /\
    l = l1 ++ [Entry (ERmtree d) true (w_pipe w1)].
Proof.
  unfold try_finally, rmtree, env_op.
  destruct (body w) as [[r w1] l1]. cbn. intros [= -> <- <-].
  exists w1, l1. auto.
Qed.

Lemma try_finally_rmtree_files {A} (body : M A) (d : string) (w : world) :
  w_files (world_of (try_finally body (rmtree d) w)) =
  filter (fun kv : string * content => startswith (d +:+ "/") kv.1 = false)
    (w_files (world_of (body w))).
Proof.
  unfold try_finally, rmtree, env_op, world_of.
  destruct (body w) as [[r w1] l1]; reflexivity.
Qed.

(** The steps of a download that returns. *)
Lemma load_lora_opt_download_run (s : string) (w w' : world) l :
  startswith "http" (strip s) = true ->
  (contains "huggingface.co" (strip s) && negb (contains "/blob/" (strip s))
    && negb (contains "/resolve/" (strip s))) = false ->
  load_lora_opt X pipe_qwen s w = (Ok tt, w', l) ->
  exists d path w1 l1,
    x_mkdtemp X (w_tick w) = Ok d /\
    x_urlparse_path X (download_url s) = Ok path /\
    download_body X (download_url s) (path_join d (basename path))
      (World (w_pipe w) ({[d]} ∪ w_dirs w) (w_files w) (S (w_tick w)))
    = (Ok tt, w1, l1) /\
    w_pipe w' = w_pipe w1 /\
    l = Entry EMkdtemp true (w_pipe w) :: l1 ++ [Entry (ERmtree d) true (w_pipe w1)].
Proof.
  intros Hh Hc Hr. rewrite (load_lora_opt_download X s Hh Hc) in Hr.
  unfold mbind, M_bind in Hr.
  run_ok Hr d w0 ld E0. run_ok Hr path wp lq Ep.
  unfold mkdtemp in E0. apply env_op_ok in E0 as (Hd & -> & ->).
  unfold urlparse_path, lift in Ep. injection Ep as Hp <- <-.
  apply try_finally_rmtree_ok in Hr as (w1 & lb & Hb & Hpipe & ->).
  exists d, path, w1, lb. cbn [fst snd] in Hb. auto.
Qed.

(** X8. When [load_lora_opt] returns on a direct file URL, the file was
    fetched and then loaded: the request to the URL (with ["/blob/"]
    rewritten) returned a response whose status check passed and whose
    stream did not break; at the end of the [try] body the local copy
    [<tmp_dir>/<basename of the URL path>] holds the chunks of the
    response, in order; [load_lora_weights] was called on that path with
    the adapter name ["default"] and returned; and the calls were, in this
    order, [mkdtemp], the first message, the request, the status check,
    the opening of the file, one write per chunk, the close of the file,
    the second message, the load and the removal of the directory. *)
Theorem load_lora_opt_download_ok (s : string) (w w' : world) l :
  startswith "http" (strip s) = true ->
  (contains "huggingface.co" (strip s) && negb (contains "/blob/" (strip s))
    && negb (contains "/resolve/" (strip s))) = false ->
  load_lora_opt X pipe_qwen s w = (Ok tt, w', l) ->
  exists d path resp w1 l1,
    let url := download_url s in
    let lp := path_join d (basename path) in
    x_mkdtemp X (w_tick w) = Ok d /\
    x_urlparse_path X url = Ok path /\
    x_http_get X (S (S (w_tick w))) url = Ok resp /\
    resp_status resp = Ok tt /\
    resp_broken resp = None /\
    download_body X url lp
      (World (w_pipe w) ({[d]} ∪ w_dirs w) (w_files w) (S (w_tick w)))
    = (Ok tt, w1, l1) /\
    w_files w1 !! lp = Some (FBytes (resp_chunks resp)) /\
    load_lora_weights lp "default" (w_pipe w) = (Ok tt, w_pipe w') /\
    map ev l =
    [EMkdtemp; EPrint ("Downloading LoRA from " +:+ url +:+ "..."); EHttpGet url;
     ERaiseForStatus; EOpenWb lp]
    ++ map (EWrite lp) (resp_chunks resp)
    ++ [EClose lp; EPrint ("Saved LoRA to " +:+ lp); ELoadLoraWeights lp "default";
        ERmtree d].
Proof.
  intros Hh Hc Hr.
  destruct (load_lora_opt_download_run s w w' l Hh Hc Hr)
    as (d & path & w1 & l1 & Hd & Hp & Hb & Hpipe & ->).
  destruct (download_body_ok _ _ _ _ _ Hb)
    as (resp & Hget & Hst & Hbr & Hf & _ & _ & Hload & Hl).
  exists d, path, resp, w1, l1. cbn zeta. cbn [w_tick w_pipe] in Hget, Hload.
  rewrite Hpipe.
  repeat (split; [assumption|]).
  cbn [map ev]. rewrite map_app, Hl. cbn [map ev app].
  rewrite <- !app_assoc. reflexivity.
Qed.

Lemma download_body_touches (url lp : string) :
  keeps (fun _ : world => True) (fun x => forall k, touches (ev x) k -> k = lp)
    (download_body X url lp).
Proof.
  keeps_run; intros; split; intros; try exact I;
    cbn [touches ev] in *; solve [assumption | contradiction].
Qed.

Lemma download_body_frame (url lp : string) : tracks frame (download_body X url lp).
Proof. tracks_run. Qed.

(** X9. After [load_lora_opt] on a direct file URL, however the [try]
    statement ended (download and load done, or an exception from the
    request, the status check, a write or the load), the file system holds
    no file below the temporary directory, the local copy of the LoRA
    among them, and every other file is as it was before the call. *)
Theorem load_lora_opt_download_files (s d path : string) (w : world) :
  startswith "http" (strip s) = true ->
  (contains "huggingface.co" (strip s) && negb (contains "/blob/" (strip s))
    && negb (contains "/resolve/" (strip s))) = false ->
  x_mkdtemp X (w_tick w) = Ok d ->
  x_urlparse_path X (download_url s) = Ok path ->
  d <> EmptyString ->
  ends_with_slash d = false ->
  let o := load_lora_opt X pipe_qwen s w in
  startswith (d +:+ "/") (path_join d (basename path)) = true /\
  forall k, w_files (world_of o) !! k =
            if startswith (d +:+ "/") k then None else w_files w !! k.
Proof.
  intros Hh Hc Hd Hp Hne Hes o.
  pose proof (path_join_under d (basename path) Hne Hes (basename_no_slash path)) as Hlp.
  split; [exact Hlp|]. intros k. subst o.
  rewrite (load_lora_opt_download X s Hh Hc).
  unfold mbind, M_bind, bind, mkdtemp, env_op, urlparse_path, lift.
  rewrite Hd, Hp. cbn [fst snd].
  set (w1 := World _ _ _ _). set (body := download_body _ _ _).
  pose proof (try_finally_rmtree_files body d w1) as Hf.
  pose proof (download_body_frame (download_url s) (path_join d (basename path)) w1 k)
    as Hfr.
  destruct (download_body_touches (download_url s) (path_join d (basename path)) w1 I)
    as [_ Ht].
  fold body in Hfr, Ht. unfold world_of in *.
  destruct (try_finally body (rmtree d) w1) as [[r w2] l2]. cbn [fst snd] in *.
  rewrite Hf. destruct (startswith (d +:+ "/") k) eqn:Hk.
  - apply lookup_rmtree_under, Hk.
  - rewrite lookup_rmtree_other by congruence. rewrite Hfr; [reflexivity|].
    intros x Hx Hto. rewrite Forall_forall in Ht.
    rewrite (Ht x Hx k Hto) in Hk. congruence.
Qed.

(** *** How often and on what the resolver calls the pipeline *)

Lemma at_most_once_ret (q : event -> bool) {A} (a : A) : at_most_once q (ret a : M A).
Proof. intros w. cbn. lia. Qed.

Lemma at_most_once_try_finally (q : event -> bool) {A} (body : M A) (fin : M unit) :
  at_most_once q body -> never q fin -> at_most_once q (try_finally body fin).
Proof.
  intros Hb Hf w. specialize (Hb w). unfold try_finally, log_of in *.
  destruct (body w) as [[r w1] l1]. specialize (Hf w1). unfold log_of in Hf.
  destruct (fin w1) as [[[u|e] w2] l2]; cbn [snd] in *;
    rewrite count_ev_app, (count_ev_zero _ _ Hf); lia.
Qed.

Lemma count_ev_pos (q : event -> bool) (l : list entry) (x : entry) :
  x ∈ l -> q (ev x) = true -> 1 <= count_ev q l.
Proof.
  intros Hx Hq. apply list_elem_of_split in Hx as (l1 & l2 & ->).
  rewrite count_ev_app. unfold count_ev at 2.
  rewrite filter_cons_True by exact Hq. cbn. lia.
Qed.

Ltac never_run :=
  apply never_of_keeps; keeps_run; intros; split; intros; solve [exact I | reflexivity].

Lemma load_lora_opt_at_most_once pipe (s : string) :
  at_most_once is_load (load_lora_opt X pipe s).
Proof.
  unfold load_lora_opt. cbv zeta.
  repeat match goal with |- at_most_once _ (if ?b then _ else _) => destruct b end;
    try apply at_most_once_ret;
    try (unfold m_load_lora_weights; apply at_most_once_pipe_op).
  - unfold mbind, M_bind.
    apply at_most_once_bind_l; [never_run | intros path].
    unfold m_load_lora_weights. apply at_most_once_pipe_op.
  - unfold mbind, M_bind.
    apply at_most_once_bind_l; [never_run | intros d].
    apply at_most_once_bind_l; [never_run | intros path].
    apply at_most_once_try_finally; [|never_run].
    repeat (apply at_most_once_bind_l; [never_run | intros ?]).
    unfold m_load_lora_weights. apply at_most_once_pipe_op.
Qed.

(** A reference that names something: it holds a ["/"] or starts with
    ["http"]. *)
Lemma load_lora_opt_ok_loads (s : string) (w w' : world) l :
  contains "/" (strip s) || startswith "http" (strip s) = true ->
  load_lora_opt X pipe_qwen s w = (Ok tt, w', l) ->
  exists x, x ∈ l /\ is_load (ev x) = true.
Proof.
  intros Hn Hr.
  destruct (startswith "http" (strip s)) eqn:Hh.
  - destruct (contains "huggingface.co" (strip s) && negb (contains "/blob/" (strip s))
              && negb (contains "/resolve/" (strip s))) eqn:Hc.
    + unfold load_lora_opt in Hr. cbv zeta in Hr.
      rewrite (startswith_cons_nonempty _ _ _ Hh), Hh, Hc in Hr.
      rewrite andb_false_r in Hr. unfold mbind, M_bind in Hr.
      run_ok Hr path w1 l1 E1. unfold m_load_lora_weights in Hr.
      apply pipe_op_ok in Hr as (_ & _ & ->).
      eexists. split; [apply elem_of_app; right; apply list_elem_of_here | reflexivity].
    + destruct (load_lora_opt_download_run s w w' l Hh Hc Hr)
        as (d & path & w1 & l1 & _ & _ & Hb & _ & ->).
      destruct (download_body_ok _ _ _ _ _ Hb) as (resp & _ & _ & _ & _ & _ & _ & _ & Hl).
      assert (Hin : ELoadLoraWeights (path_join d (basename path)) "default" ∈ map ev l1).
      { rewrite Hl. set_solver. }
      apply list_elem_of_fmap in Hin as (x & Hx & Hin).
      exists x. split; [set_solver | rewrite <- Hx; reflexivity].
  - rewrite orb_false_r in Hn.
    unfold load_lora_opt in Hr. cbv zeta in Hr.
    rewrite (contains_cons_nonempty _ _ _ Hn), Hn, Hh in Hr. cbn [andb negb] in Hr.
    unfold m_load_lora_weights in Hr. apply pipe_op_ok in Hr as (_ & _ & ->).
    eexists. split; [apply list_elem_of_here | reflexivity].
Qed.

Lemma load_lora_opt_plain (pipe : pipe_ref) (s : string) (w : world) :
  contains "/" (strip s) || startswith "http" (strip s) = false ->
  load_lora_opt X pipe s w = (Ok tt, w, []).
Proof.
  intros Hn. apply orb_false_elim in Hn as [Hc Hh].
  unfold load_lora_opt. cbv zeta. rewrite Hc, Hh. cbn [andb].
  destruct (String.eqb (strip s) EmptyString); reflexivity.
Qed.

(** X7. [load_lora_opt] touches the pipeline through [load_lora_weights]
    only, always under the adapter name ["default"], and at most once.  A
    reference that, stripped, has no ["/"] and does not start with
    ["http"] (the blank one among them) makes it return at once with no
    call; for any other reference, a call that returns has loaded exactly
    once. *)
Theorem load_lora_opt_one_load (pipe : pipe_ref) (s : string) (w : world) :
  let o := load_lora_opt X pipe s w in
  let named := contains "/" (strip s) || startswith "http" (strip s) in
  count_ev is_load (log_of o) <= 1 /\
  Forall (fun x => is_cleanup (ev x) = false /\ is_set_adapters (ev x) = false /\
                   is_pipe_call (ev x) = false /\
                   forall r a, ev x = ELoadLoraWeights r a -> a = "default")
    (log_of o) /\
  (named = false -> o = (Ok tt, w, [])) /\
  (named = true -> is_ok (res_of o) = true -> count_ev is_load (log_of o) = 1).
Proof.
  intros o named. subst o named.
  pose proof (load_lora_opt_at_most_once pipe s w) as Hle.
  split; [exact Hle|]. split; [|split].
  - assert (K : keeps (fun _ : world => True)
                  (fun x => is_cleanup (ev x) = false /\ is_set_adapters (ev x) = false /\
                            is_pipe_call (ev x) = false /\
                            forall r a, ev x = ELoadLoraWeights r a -> a = "default")
                  (load_lora_opt X pipe s)).
    { keeps_run; intros; split; intros; try exact I;
        (split; [reflexivity|]; split; [reflexivity|]; split; [reflexivity|]);
        cbn [ev]; intros; congruence. }
    apply (K w I).
  - apply load_lora_opt_plain.
  - intros Hn Hok. destruct pipe.
    destruct (load_lora_opt X pipe_qwen s w) as [[[[]|e] w'] l] eqn:E; [|discriminate].
    destruct (load_lora_opt_ok_loads s w w' l Hn E) as (x & Hx & Hq).
    pose proof (count_ev_pos is_load l x Hx Hq). cbn [log_of snd] in *. lia.
Qed.

(** *** A reference that is only a name *)

Lemma attach_lora_plain (lora : string) (ls : float) (w : world) :
  String.eqb (strip lora) EmptyString = false ->
  contains "/" (strip lora) || startswith "http" (strip lora) = false ->
  attach_lora X lora ls w = m_set_adapters pipe_qwen ["default"] [ls] w.
Proof.
  intros Hne Hn. unfold attach_lora.
  assert (Hl : String.eqb lora EmptyString = false).
  { destruct (String.eqb_spec lora EmptyString) as [->|_]; [exact Hne | reflexivity]. }
  rewrite Hl, Hne. cbn [negb andb]. unfold mbind, M_bind, bind.
  rewrite (load_lora_opt_plain pipe_qwen lora w Hn).
  destruct (m_set_adapters pipe_qwen ["default"] [ls] w) as [[r w2] l2]. reflexivity.
Qed.

(** X6. A reference that is not blank, has no ["/"] and does not start
    with ["http"] (a bare name) is not loaded and not downloaded, and yet
    [generate_qwen] goes on as if an adapter had been loaded: once the
    first cleanup is done, its next call is
    [set_adapters(["default"], adapter_weights=[lora_scale])], and a
    request that returns has made that call. *)
Theorem generate_qwen_plain_name
    prompt np seed width height gs rand steps n zipf (lora : string) ls (w : world) :
  String.eqb (strip lora) EmptyString = false ->
  contains "/" (strip lora) = false ->
  startswith "http" (strip lora) = false ->
  let o := generate_qwen X prompt np seed width height gs rand steps n zipf lora ls w in
  Forall (fun x => is_load (ev x) = false /\ is_download (ev x) = false) (log_of o) /\
  (forall sgt w1 lp,
     prologue X seed rand w = (Ok sgt, w1, lp) ->
     let r := set_adapters ["default"] [ls] (w_pipe w1) in
     exists rest,
       log_of o = lp ++ Entry (ESetAdapters ["default"] [ls]) (is_ok r.1) r.2 :: rest) /\
  (is_ok (res_of o) = true ->
   exists x, x ∈ log_of o /\ ev x = ESetAdapters ["default"] [ls] /\ ok x = true).
Proof.
  intros Hne Hc Hh o.
  assert (Hn : contains "/" (strip lora) || startswith "http" (strip lora) = false)
    by (rewrite Hc, Hh; reflexivity).
  subst o. split; [|split].
  - rewrite generate_qwen_phases.
    assert (K : keeps (fun _ : world => True)
                  (fun x => is_load (ev x) = false /\ is_download (ev x) = false)
                  (generate_qwen_phased X prompt np seed width height gs rand steps n
                     zipf lora ls)).
    { unfold generate_qwen_phased, mbind, M_bind.
      apply keeps_bind;
        [keeps_run; intros; split; intros; solve [exact I | split; reflexivity] | intros sgt].
      apply keeps_bind; [|intros _].
      { intros w0 _. rewrite (attach_lora_plain lora ls w0 Hne Hn).
        unfold m_set_adapters, pipe_op, world_of, log_of.
        destruct (set_adapters ["default"] [ls] (w_pipe w0)) as [r p]. cbn.
        split; [exact I | repeat constructor]. }
      keeps_run; intros; split; intros; solve [exact I | split; reflexivity]. }
    apply (K w I).
  - intros sgt w1 lp Hp r. rewrite generate_qwen_phases.
    unfold generate_qwen_phased, mbind, M_bind. rewrite bind_log, Hp.
    cbn [log_of res_of world_of fst snd]. rewrite bind_log.
    rewrite (attach_lora_plain lora ls w1 Hne Hn).
    unfold m_set_adapters, pipe_op. subst r.
    destruct (set_adapters ["default"] [ls] (w_pipe w1)) as [r p].
    cbn [log_of fst snd app]. eexists. reflexivity.
  - intros Hok.
    destruct (generate_qwen X prompt np seed width height gs rand steps n zipf lora ls w)
      as [[[[[[paths seed'] dur] zp]|e] w'] l] eqn:E; [|discriminate].
    destruct (generate_qwen_ok_phases X _ _ _ _ _ _ _ _ _ _ _ _ _ _ _ _ _ _ _ E)
      as (sgt & w1 & lp & w2 & la & w3 & lr & lc & _ & E2 & _ & _ & -> & _).
    rewrite (attach_lora_plain lora ls w1 Hne Hn) in E2.
    unfold m_set_adapters in E2. apply pipe_op_ok in E2 as (_ & _ & ->).
    exists (Entry (ESetAdapters ["default"] [ls]) true (w_pipe w2)).
    split; [|split; reflexivity]. cbn [log_of snd].
    apply elem_of_app; right. apply elem_of_app; left. apply list_elem_of_here.
Qed.

End ResolverFacts.

(** ** The files a request leaves alone *)

Section UntouchedFacts.

Context {pstate : Type} `{Pipeline pstate}.
Variable X : Ext.

Abbreviation M := (@M pstate).
Abbreviation world := (world pstate).
Abbreviation entry := (entry pstate).

(** A reference that is neither a registry identifier nor a landing page
    is loaded, if at all, from the local copy that the call itself wrote. *)
Lemma load_lora_opt_local_loads (s : string) (w w' : world) l :
  contains "/" (strip s) && negb (startswith "http" (strip s)) = false ->
  startswith "http" (strip s)
  && (contains "huggingface.co" (strip s) && negb (contains "/blob/" (strip s))
      && negb (contains "/resolve/" (strip s))) = false ->
  load_lora_opt X pipe_qwen s w = (Ok tt, w', l) ->
  forall x r a,
    x ∈ l -> ev x = ELoadLoraWeights r a ->
    exists y, y ∈ l /\ ev y = EOpenWb r /\ ok y = true.
Proof.
  intros Hreg Hland Hrun x r a Hx Hev.
  pose proof (load_lora_opt_strict X pipe_qwen s w) as Hs.
  rewrite Hrun in Hs. cbn [res_of log_of fst snd] in Hs. rewrite Forall_forall in Hs.
  destruct (startswith "http" (strip s)) eqn:Hh.
  - cbn [andb] in Hland.
    destruct (load_lora_opt_download_run X s w w' l Hh Hland Hrun)
      as (d & path & w1 & l1 & _ & _ & Hb & _ & El).
    destruct (download_body_ok X _ _ _ _ _ Hb) as (resp & _ & _ & _ & _ & _ & _ & _ & Hl).
    assert (Hx1 : x ∈ l1).
    { rewrite El in Hx. apply elem_of_cons in Hx as [->|Hx]; [discriminate Hev|].
      apply elem_of_app in Hx as [Hx|Hx]; [exact Hx|].
      apply list_elem_of_singleton in Hx. subst x. discriminate Hev. }
    assert (Hin : ELoadLoraWeights r a ∈ map ev l1).
    { apply list_elem_of_fmap. exists x. auto. }
    rewrite Hl in Hin.
    assert (Hr : r = path_join d (basename path)).
    { apply elem_of_app in Hin as [Hin|Hin].
      { repeat (apply elem_of_cons in Hin as [Hin|Hin]; [discriminate Hin|]).
        inversion Hin. }
      apply elem_of_app in Hin as [Hin|Hin].
      { apply list_elem_of_fmap in Hin as (c & Hc & _). discriminate Hc. }
      repeat (apply elem_of_cons in Hin as [Hin|Hin];
              [first [discriminate Hin | injection Hin as -> _; reflexivity]|]).
      inversion Hin. }
    subst r.
    assert (Ho : EOpenWb (path_join d (basename path)) ∈ map ev l1).
    { rewrite Hl. set_solver. }
    apply list_elem_of_fmap in Ho as (y & Hy & Hyin).
    exists y. assert (Hyl : y ∈ l) by (rewrite El; set_solver).
    split; [exact Hyl|]. split; [symmetry; exact Hy | apply Hs, Hyl].
  - cbn [negb] in Hreg. rewrite andb_true_r in Hreg.
    rewrite (load_lora_opt_plain X pipe_qwen s w) in Hrun
      by (rewrite Hreg, Hh; reflexivity).
    injection Hrun as _ <-. inversion Hx.
Qed.

(** X3. A request that returns, made with a LoRA reference that is
    neither a registry identifier nor a landing page (a blank, a bare name
    or a direct file URL, so that the library fetches nothing by itself:
    every load is from a file that the request wrote), has changed no file
    but the images it returns, the archive it returns and what the calls
    of the download touched (the local copy and the content of the
    temporary directory): every other file is as it was. *)
Theorem generate_qwen_files_untouched
    prompt np seed width height gs rand steps n zipf lora ls
    (w w' : world) paths seed' dur zp l (k : string) :
  generate_qwen X prompt np seed width height gs rand steps n zipf lora ls w
  = (Ok (paths, seed', dur, zp), w', l) ->
  contains "/" (strip lora) && negb (startswith "http" (strip lora)) = false ->
  startswith "http" (strip lora)
  && (contains "huggingface.co" (strip lora) && negb (contains "/blob/" (strip lora))
      && negb (contains "/resolve/" (strip lora))) = false ->
  k ∉ paths ->
  zp <> Some k ->
  (forall x, x ∈ l -> is_download (ev x) = true -> ~ touches (ev x) k) ->
  w_files w' !! k = w_files w !! k /\
  (forall x r a,
     x ∈ l -> ev x = ELoadLoraWeights r a ->
     exists y, y ∈ l /\ ev y = EOpenWb r /\ ok y = true).
Proof.
  intros Hrun Hreg Hland Hk Hz Hd.
  pose proof (generate_qwen_frame X prompt np seed width height gs rand steps n zipf
                lora ls w k) as Hfr.
  rewrite Hrun in Hfr. cbn [world_of log_of fst snd] in Hfr.
  destruct (generate_qwen_ok_phases X _ _ _ _ _ _ _ _ _ _ _ _ _ _ _ _ _ _ _ Hrun)
    as (sgt & w1 & lp & w2 & la & w3 & lr & lc & E1 & E2 & E3 & E4 & -> & ->).
  destruct (produce_ok X _ _ _ _ _ _ _ _ _ _ _ _ _ _ _ _ E3)
    as (imgs & xc & xt & wb & lsv & wc & lz & Hxc & Hcall & Hxt & Ec & _ & Ez & ->).
  destruct (list_comp_save_images X _ _ _ _ _ Ec) as (_ & _ & _ & Htouch & _).
  destruct (zip_step_ok X _ _ _ _ _ _ Ez) as (_ & Hzq & Hzt).
  destruct (prologue_quiet X seed rand w I) as [_ Kp]. rewrite E1 in Kp.
  destruct (attach_lora_download_only X lora ls w1 I) as [_ Ka]. rewrite E2 in Ka.
  destruct (clear_adapters_quiet w3 I) as [_ Kc]. rewrite E4 in Kc.
  cbn [log_of snd] in Kp, Ka, Kc. rewrite Forall_forall in Kp, Ka, Kc.
  split.
  - apply Hfr. clear Hfr. intros x Hx Ht.
    apply elem_of_app in Hx as [Hx|Hx]; [exact (proj2 (Kp x Hx) k Ht)|].
    apply elem_of_app in Hx as [Hx|Hx].
    { apply (Hd x); [set_solver | exact (proj2 (Ka x Hx) k Ht) | exact Ht]. }
    apply elem_of_app in Hx as [Hx|Hx]; [|exact (proj2 (Kc x Hx) k Ht)].
    apply elem_of_cons in Hx as [->|Hx]; [rewrite Hxc in Ht; exact Ht|].
    apply elem_of_cons in Hx as [->|Hx]; [rewrite Hxt in Ht; exact Ht|].
    apply elem_of_app in Hx as [Hx|Hx].
    + exact (Hk (Htouch x Hx k Ht)).
    + destruct (Hzt x Hx k Ht) as (u & _ & Hzp). exact (Hz Hzp).
  - intros x r a Hx Hev.
    assert (Hxa : x ∈ la).
    { apply elem_of_app in Hx as [Hx|Hx].
      { exfalso.
        assert (K : keeps (fun _ : world => True)
                      (fun y => is_load (ev y) = false) (prologue X seed rand)).
        { keeps_run; intros; split; intros; solve [exact I | reflexivity]. }
        destruct (K w I) as [_ Kf]. rewrite E1 in Kf. rewrite Forall_forall in Kf.
        specialize (Kf x Hx). rewrite Hev in Kf. discriminate Kf. }
      apply elem_of_app in Hx as [Hx|Hx]; [exact Hx|]. exfalso.
      apply elem_of_app in Hx as [Hx|Hx].
      - apply elem_of_cons in Hx as [->|Hx]; [rewrite Hxc in Hev; discriminate Hev|].
        apply elem_of_cons in Hx as [->|Hx]; [rewrite Hxt in Hev; discriminate Hev|].
        apply elem_of_app in Hx as [Hx|Hx].
        + assert (K : keeps (fun _ : world => True)
                        (fun y => is_load (ev y) = false) (list_comp (save_image X) imgs)).
          { keeps_run; intros; split; intros; solve [exact I | reflexivity]. }
          destruct (K wb I) as [_ Kf]. rewrite Ec in Kf. rewrite Forall_forall in Kf.
          specialize (Kf x Hx). rewrite Hev in Kf. discriminate Kf.
        + assert (K : keeps (fun _ : world => True)
                        (fun y => is_load (ev y) = false) (zip_step X zipf paths)).
          { keeps_run; intros; split; intros; solve [exact I | reflexivity]. }
          destruct (K wc I) as [_ Kf]. rewrite Ez in Kf. rewrite Forall_forall in Kf.
          specialize (Kf x Hx). rewrite Hev in Kf. discriminate Kf.
      - assert (K : keeps (fun _ : world => True)
                      (fun y => is_load (ev y) = false) (@clear_adapters pstate _)).
        { keeps_run; intros; split; intros; solve [exact I | reflexivity]. }
        destruct (K w3 I) as [_ Kf]. rewrite E4 in Kf. rewrite Forall_forall in Kf.
        specialize (Kf x Hx). rewrite Hev in Kf. discriminate Kf. }
    unfold attach_lora in E2.
    destruct (negb (String.eqb lora EmptyString)
              && negb (String.eqb (strip lora) EmptyString)).
    + unfold mbind, M_bind in E2. run_ok E2 u wl ll El.
      unfold m_set_adapters in E2. apply pipe_op_ok in E2 as (_ & _ & ->).
      destruct u.
      apply elem_of_app in Hxa as [Hxa|Hxa].
      * destruct (load_lora_opt_local_loads lora w1 wl ll Hreg Hland El x r a Hxa Hev)
          as (y & Hy & Hyev & Hyok).
        exists y. split; [set_solver | auto].
      * apply list_elem_of_singleton in Hxa. subst x. discriminate Hev.
    + unfold ret in E2. injection E2 as _ <-. inversion Hxa.
Qed.

End UntouchedFacts.

(** ** The time that is reported *)

Section TickFacts.

Context {pstate : Type} `{Pipeline pstate}.

Abbreviation M := (@M pstate).
Abbreviation world := (world pstate).
Abbreviation entry := (entry pstate).

Lemma externals_app (l1 l2 : list entry) :
  externals (l1 ++ l2) = externals l1 + externals l2.
Proof. apply count_ev_app. Qed.

Lemma externals_cons (x : entry) (l : list entry) :
  externals (x :: l) = (if is_pipeline (ev x) then 0 else 1) + externals l.
Proof.
  unfold externals, count_ev. destruct (is_pipeline (ev x)) eqn:E.
  - rewrite filter_cons_False; [reflexivity | rewrite E; cbn; congruence].
  - rewrite filter_cons_True; [reflexivity | rewrite E; reflexivity].
Qed.

Lemma externals_zero (l : list entry) :
  Forall (fun x => is_pipeline (ev x) = true) l -> externals l = 0.
Proof.
  intros Hl. apply count_ev_zero. eapply Forall_impl; [exact Hl|].
  cbn. intros x ->. reflexivity.
Qed.

#[global] Instance ticks_sequential : Sequential (@ticks pstate).
Proof.
  split.
  - intros w. unfold ticks, externals, count_ev. cbn. lia.
  - intros w w1 w2 l1 l2 H1 H2. unfold ticks in *. rewrite externals_app. lia.
Qed.

Lemma ticks_pipe_op {A} e (f : pstate -> res A * pstate) :
  is_pipeline e = true -> tracks ticks (pipe_op e f).
Proof.
  intros He w. unfold ticks, pipe_op, world_of, log_of.
  destruct (f (w_pipe w)) as [r p]. cbn [fst snd w_tick].
  rewrite externals_cons. cbn [ev]. rewrite He.
  unfold externals, count_ev. cbn. lia.
Qed.

Lemma ticks_env_op {A} e (f : nat -> res A)
    (upd : A -> world -> gset string * gmap string content) :
  is_pipeline e = false -> tracks ticks (env_op e f upd).
Proof.
  intros He w. unfold ticks, env_op, world_of, log_of. cbn [fst snd w_tick].
  rewrite externals_cons. cbn [ev]. rewrite He.
  unfold externals, count_ev. cbn. lia.
Qed.

End TickFacts.

Ltac ticks_step :=
  lazymatch goal with
  | |- tracks ticks (ret _) => apply (tracks_ret ticks)
  | |- tracks ticks (mret _) => apply (tracks_ret ticks)
  | |- tracks ticks (lift _) => apply (tracks_lift ticks)
  | |- tracks ticks (bind _ _) => apply (tracks_bind ticks); [| intros ?]
  | |- tracks ticks (mbind _ _) => apply (tracks_bind ticks); [| intros ?]
  | |- tracks ticks (try_finally _ _) => apply (tracks_try_finally ticks)
  | |- tracks ticks (for_each _ _) => apply (tracks_for_each ticks); intros ?
  | |- tracks ticks (for_enumerate _ _ _) => apply (tracks_for_enumerate ticks); intros ? ?
  | |- tracks ticks (list_comp _ _) => apply (tracks_list_comp ticks); intros ?
  | |- tracks ticks (if ?b then _ else _) => destruct b
  | |- tracks ticks (match ?o with Some _ => _ | None => _ end) => destruct o
  | |- tracks ticks (pipe_op _ _) => apply ticks_pipe_op; reflexivity
  | |- tracks ticks (env_op _ _ _) => apply ticks_env_op; reflexivity
  | |- tracks ticks ?c => let h := head_of c in unfold h
  end.

Ltac ticks_run := repeat (ticks_step; cbv beta zeta).

Section DurationFacts.

Context {pstate : Type} `{Pipeline pstate}.
Variable X : Ext.

Abbreviation M := (@M pstate).
Abbreviation world := (world pstate).
Abbreviation entry := (entry pstate).

Lemma seed_step_ticks (seed : Z) (rand : bool) :
  tracks (@ticks pstate) (if rand then randint X 0 MAX_SEED else ret seed).
Proof. ticks_run. Qed.

Lemma manual_seed_ticks (seed : Z) : tracks (@ticks pstate) (manual_seed X seed).
Proof. ticks_run. Qed.

Lemma clear_adapters_ticks : tracks (@ticks pstate) clear_adapters.
Proof. ticks_run. Qed.

Lemma attach_lora_ticks lora ls : tracks (@ticks pstate) (attach_lora X lora ls).
Proof. ticks_run. Qed.

(** The prologue of a request that gets past it: the seed, the first
    reading of the clock, the first cleanup. *)
Lemma prologue_ok_time seed rand (w w1 : world) sgt lp :
  prologue X seed rand w = (Ok sgt, w1, lp) ->
  exists pre x0 lcl,
    lp = pre ++ x0 :: lcl /\ ev x0 = ETime /\
    sgt.2 = x_time X (w_tick w + externals pre) /\
    w_tick w1 = w_tick w + externals pre + 1 /\
    Forall (fun x => is_seed (ev x) = true) pre /\
    Forall (fun x => is_cleanup (ev x) = true) lcl /\ lcl <> [].
Proof.
  unfold prologue, mbind, M_bind. intros Hr.
  run_ok Hr s1 wa la Ea. run_ok Hr g wb lb Eb. run_ok Hr t0 wc lc Ec.
  run_ok Hr u wd ld Ed. unfold ret in Hr. injection Hr as <- <- <-.
  pose proof (seed_step_ticks seed rand w) as Ta. rewrite Ea in Ta.
  pose proof (manual_seed_ticks s1 wa) as Tb. rewrite Eb in Tb.
  pose proof (clear_adapters_ticks wc) as Td. rewrite Ed in Td.
  unfold ticks in Ta, Tb, Td. cbn [world_of log_of fst snd] in Ta, Tb, Td.
  assert (Ka : keeps (fun _ : world => True) (fun x => is_seed (ev x) = true)
                 (if rand then randint X 0 MAX_SEED else ret seed)).
  { keeps_run; intros; split; intros; solve [exact I | reflexivity]. }
  assert (Kb : keeps (fun _ : world => True) (fun x => is_seed (ev x) = true)
                 (manual_seed X s1)).
  { keeps_run; intros; split; intros; solve [exact I | reflexivity]. }
  assert (Kd : keeps (fun _ : world => True) (fun x => is_cleanup (ev x) = true)
                 (@clear_adapters pstate _)).
  { keeps_run; intros; split; intros; solve [exact I | reflexivity]. }
  destruct (Ka w I) as [_ Kla]. rewrite Ea in Kla.
  destruct (Kb wa I) as [_ Klb]. rewrite Eb in Klb.
  destruct (Kd wc I) as [_ Kld]. rewrite Ed in Kld.
  pose proof (clear_adapters_logs wc) as Hne. rewrite Ed in Hne.
  cbn [log_of snd] in Kla, Klb, Kld, Hne.
  unfold time_time in Ec. apply env_op_ok in Ec as (Ht & Hwc & ->).
  injection Ht as <-. subst wc. cbn [w_tick] in Td.
  assert (Hz : externals ld = 0).
  { apply externals_zero. eapply Forall_impl; [exact Kld|].
    cbn. intros x Hx. unfold is_pipeline. rewrite Hx. reflexivity. }
  exists (la ++ lb), (Entry ETime true (w_pipe wb)), ld.
  rewrite externals_app. cbn [snd].
  split; [rewrite app_nil_r, <- app_assoc; reflexivity|].
  split; [reflexivity|]. split; [f_equal; lia|]. split; [lia|].
  split; [apply Forall_app; auto | split; [exact Kld | exact Hne]].
Qed.

(** The duration is taken from the reading of the clock right after the
    pipeline call. *)
Lemma produce_duration
    prompt np width height gs steps n zipf g t0
    (w w' : world) paths dur zp l :
  produce X prompt np width height gs steps n zipf g t0 w = (Ok (paths, dur, zp), w', l) ->
  dur = x_fmt_2f X (PrimFloat.sub (x_time X (w_tick w)) t0).
Proof.
  unfold produce, mbind, M_bind. intros Hrun.
  run_ok Hrun imgs wa la Ea. run_ok Hrun t1 wb lb Eb.
  run_ok Hrun ps wc ls Ec. run_ok Hrun z wd lz Ed.
  unfold ret in Hrun. injection Hrun as _ <- _ _ _.
  unfold m_pipe_call in Ea. apply pipe_op_ok in Ea as (_ & Hwa & _).
  apply (f_equal w_tick) in Hwa. cbn [w_tick] in Hwa.
  unfold time_time in Eb. apply env_op_ok in Eb as (Ht & _ & _).
  injection Ht as <-. rewrite Hwa. reflexivity.
Qed.

(** X11. The time a request reports is the difference of two readings of
    the clock, formatted with two decimals.  The calls of a request that
    returns are, in this order: the calls that fix the seed, the first
    reading, the first cleanup, the calls of the LoRA step (download, load,
    [set_adapters]), the pipeline call, the second reading right after it,
    the calls that save the images and write the archive, and the final
    cleanup.  So the first cleanup, the LoRA step and the generation are
    counted, and the saving, the archive and the final cleanup are not. *)
Theorem generate_qwen_duration
    prompt np seed width height gs rand steps n zipf lora ls
    (w w' : world) paths seed' dur zp l :
  generate_qwen X prompt np seed width height gs rand steps n zipf lora ls w
  = (Ok (paths, seed', dur, zp), w', l) ->
  exists pre x0 lcl la xc x1 lout lfin,
    l = pre ++ x0 :: lcl ++ la ++ xc :: x1 :: lout ++ lfin /\
    ev x0 = ETime /\ ev x1 = ETime /\ is_pipe_call (ev xc) = true /\
    dur = x_fmt_2f X
            (PrimFloat.sub
               (x_time X (w_tick w + externals (pre ++ x0 :: lcl ++ la ++ [xc])))
               (x_time X (w_tick w + externals pre))) /\
    Forall (fun x => is_seed (ev x) = true) pre /\
    Forall (fun x => is_cleanup (ev x) = true) lcl /\ lcl <> [] /\
    Forall (fun x => is_lora (ev x) = true) la /\
    Forall (fun x => is_output (ev x) = true) lout /\
    Forall (fun x => is_cleanup (ev x) = true) lfin /\ lfin <> [].
Proof.
  intros Hrun.
  destruct (generate_qwen_ok_phases X _ _ _ _ _ _ _ _ _ _ _ _ _ _ _ _ _ _ _ Hrun)
    as (sgt & w1 & lp & w2 & la & w3 & lr & lc & E1 & E2 & E3 & E4 & -> & _).
  destruct (prologue_ok_time _ _ _ _ _ _ E1)
    as (pre & x0 & lcl & -> & Hx0 & Ht0 & Htick1 & Hpre & Hlcl & Hne).
  pose proof (produce_duration _ _ _ _ _ _ _ _ _ _ _ _ _ _ _ _ E3) as Hdur.
  destruct (produce_ok X _ _ _ _ _ _ _ _ _ _ _ _ _ _ _ _ E3)
    as (imgs & xc & xt & wb & lsv & wc & lz & Hxc & _ & Hxt & Ec & _ & Ez & ->).
  pose proof (attach_lora_ticks lora ls w1) as Ta. rewrite E2 in Ta.
  unfold ticks in Ta. cbn [world_of log_of fst snd] in Ta.
  assert (Ka : keeps (fun _ : world => True) (fun x => is_lora (ev x) = true)
                 (attach_lora X lora ls)).
  { keeps_run; intros; split; intros; solve [exact I | reflexivity]. }
  assert (Ks : keeps (fun _ : world => True) (fun x => is_output (ev x) = true)
                 (list_comp (save_image X) imgs)).
  { keeps_run; intros; split; intros; solve [exact I | reflexivity]. }
  assert (Kz : keeps (fun _ : world => True) (fun x => is_output (ev x) = true)
                 (zip_step X zipf paths)).
  { keeps_run; intros; split; intros; solve [exact I | reflexivity]. }
  assert (Kc : keeps (fun _ : world => True) (fun x => is_cleanup (ev x) = true)
                 (@clear_adapters pstate _)).
  { keeps_run; intros; split; intros; solve [exact I | reflexivity]. }
  destruct (Ka w1 I) as [_ Kla]. rewrite E2 in Kla.
  destruct (Ks wb I) as [_ Kls]. rewrite Ec in Kls.
  destruct (Kz wc I) as [_ Klz]. rewrite Ez in Klz.
  destruct (Kc w3 I) as [_ Klc]. rewrite E4 in Klc.
  pose proof (clear_adapters_logs w3) as Hfin. rewrite E4 in Hfin.
  cbn [log_of snd] in Kla, Kls, Klz, Klc, Hfin.
  exists pre, x0, lcl, la, xc, xt, (lsv ++ lz), lc.
  split; [rewrite <- !app_assoc; cbn [app]; rewrite <- ?app_assoc; reflexivity|].
  split; [exact Hx0|]. split; [exact Hxt|]. split; [rewrite Hxc; reflexivity|].
  split.
  { rewrite Hdur, Ht0. do 3 f_equal.
    rewrite externals_app, externals_cons, !externals_app, externals_cons.
    rewrite Hx0, Hxc. cbn [is_pipeline is_cleanup is_generation orb].
    rewrite (externals_zero lcl).
    - change (externals (@nil entry)) with 0. lia.
    - eapply Forall_impl; [exact Hlcl|]. cbn. intros x Hx.
      unfold is_pipeline. rewrite Hx. reflexivity. }
  split; [exact Hpre|]. split; [exact Hlcl|]. split; [exact Hne|].
  split; [exact Kla|]. split; [apply Forall_app; auto|].
  split; [exact Klc | exact Hfin].
Qed.

End DurationFacts.

(** ** What runs after a failure *)

Section ExitFacts.

Context {pstate : Type} `{Pipeline pstate}.
Variable X : Ext.

Abbreviation M := (@M pstate).
Abbreviation world := (world pstate).
Abbreviation entry := (entry pstate).

Lemma externals_single (x : entry) :
  is_pipeline (ev x) = false -> externals [x] = 1.
Proof. intros Hx. rewrite externals_cons, Hx. reflexivity. Qed.

Lemma exit_paired_shift (t : nat) (l1 k : list entry) (x : entry) :
  exit_paired X (t + externals l1) k x -> exit_paired X t (l1 ++ k) x.
Proof.
  unfold exit_paired. destruct (ev x); try (intros _; exact I).
  - intros (y & Hy & Hev & Hok). exists y. split; [set_solver | auto].
  - intros (a1 & y & a2 & -> & Hev & Hok & Hd).
    exists (l1 ++ a1), y, a2. rewrite <- app_assoc. split; [reflexivity|].
    rewrite externals_app, Nat.add_assoc. auto.
  - intros (y & Hy & Hev & Hok). exists y. split; [set_solver | auto].
Qed.

Lemma exits_paired_single (t : nat) (x : entry) :
  is_close (ev x) = false -> is_rmtree (ev x) = false -> exits_paired X t [x].
Proof.
  intros Hc Hr a x' b E.
  destruct a as [|y a]; [|destruct a; discriminate E].
  injection E as <- _. unfold exit_paired.
  destruct (ev x); try exact I; discriminate.
Qed.

#[global] Instance provenance_sequential : Sequential (provenance (pstate:=pstate) X).
Proof.
  split.
  - intros w. split; [apply (seq_refl (R := @ticks pstate))|].
    intros a x b E. destruct a; discriminate E.
  - intros w w1 w2 l1 l2 [T1 P1] [T2 P2].
    split; [exact (seq_trans (R := @ticks pstate) _ _ _ _ _ T1 T2)|].
    unfold ticks in T1. rewrite T1 in P2.
    intros a x b E. apply app_eq_inv in E as [(k & E1 & E2) | (k & E1 & E2)].
    + destruct k as [|x' k].
      * cbn in E2. rewrite app_nil_r in E1. subst a.
        rewrite <- (app_nil_r l1). apply exit_paired_shift.
        apply (P2 [] x b). symmetry. exact E2.
      * cbn in E2. injection E2 as -> ->. apply (P1 a x' k E1).
    + subst a. apply exit_paired_shift. apply (P2 k x b E2).
Qed.

Lemma provenance_pipe_op {A} e (f : pstate -> res A * pstate) :
  is_pipeline e = true -> tracks (provenance X) (pipe_op e f).
Proof.
  intros He w. split; [apply ticks_pipe_op, He|].
  unfold pipe_op, log_of. destruct (f (w_pipe w)) as [r p]. cbn [snd].
  apply exits_paired_single; cbn [ev]; destruct e; try reflexivity; discriminate.
Qed.

Lemma provenance_env_op {A} e (f : nat -> res A)
    (upd : A -> world -> gset string * gmap string content) :
  is_pipeline e = false -> is_close e = false -> is_rmtree e = false ->
  tracks (provenance X) (env_op e f upd).
Proof.
  intros He Hc Hr w. split; [apply ticks_env_op, He|].
  unfold env_op, log_of. cbn [snd]. apply exits_paired_single; assumption.
Qed.

(** One more call of the outside world, an exit that is paired with a call
    of the log so far. *)
Lemma provenance_snoc (w w1 w2 : world) (l1 : list entry) (x : entry) :
  provenance X w w1 l1 ->
  is_pipeline (ev x) = false ->
  w_tick w2 = S (w_tick w1) ->
  exit_paired X (w_tick w) l1 x ->
  provenance X w w2 (l1 ++ [x]).
Proof.
  intros [T1 P1] Hx Ht Hp. split.
  - unfold ticks in *. rewrite externals_app, (externals_single x Hx). lia.
  - intros a x' b E. apply app_eq_inv in E as [(k & E1 & E2) | (k & E1 & E2)].
    + destruct k as [|y k].
      * cbn in E2. injection E2 as -> _. rewrite app_nil_r in E1. subst a. exact Hp.
      * cbn in E2. injection E2 as -> _. apply (P1 a y k E1).
    + destruct k as [|y k]; cbn in E2.
      * injection E2 as <- _. rewrite app_nil_r in E1. subst a. exact Hp.
      * injection E2 as _ E2. destruct k; discriminate E2.
Qed.

(** [with open(path, "wb") as f: body]: the close is paired with the
    open. *)
Lemma provenance_with_open_wb {A} (path : string) (body : M A) :
  tracks (provenance X) body -> tracks (provenance X) (with_open_wb X path body).
Proof.
  intros Hb w.
  pose proof (provenance_env_op (EOpenWb path) (fun t => x_open_wb X t path)
                (fun _ => put_file path (FBytes [])) eq_refl eq_refl eq_refl w) as Ho.
  unfold with_open_wb, mbind, M_bind, bind, open_wb.
  unfold env_op, world_of, log_of in *. cbn [fst snd] in *.
  destruct (x_open_wb X (w_tick w) path) as [[]|e]; cbn [fst snd is_ok] in *;
    [|exact Ho].
  match goal with |- context [try_finally body _ ?w1] =>
    specialize (Hb w1); set (wo := w1) in * end.
  unfold try_finally, file_close, env_op, world_of, log_of in *.
  destruct (body wo) as [[r wb] lb]. cbn [fst snd] in *.
  pose proof (seq_trans (R := provenance X) _ _ _ _ _ Ho Hb) as Hob.
  assert (Hfin : forall b0 : bool,
            provenance X w (World (w_pipe wb) (w_dirs wb) (w_files wb) (S (w_tick wb)))
              (Entry (EOpenWb path) true (w_pipe w)
               :: lb ++ [Entry (EClose path) b0 (w_pipe wb)])).
  { intros b0.
    apply (provenance_snoc w wb _ (Entry (EOpenWb path) true (w_pipe w) :: lb));
      [exact Hob | reflexivity | reflexivity |].
    exists (Entry (EOpenWb path) true (w_pipe w)).
    split; [apply list_elem_of_here | split; reflexivity]. }
  destruct (x_close X (w_tick wb) path) as [[]|e]; cbn [fst snd is_ok same_fs];
    apply Hfin.
Qed.

(** [with zipfile.ZipFile(name, 'w') as zipf: body] *)
Lemma provenance_with_zip_file {A} (name : string) (body : M A) :
  tracks (provenance X) body -> tracks (provenance X) (with_zip_file X name body).
Proof.
  intros Hb w.
  pose proof (provenance_env_op (EZipOpen name) (fun t => x_zip_open X t name)
                (fun _ => put_file name (FZip [])) eq_refl eq_refl eq_refl w) as Ho.
  unfold with_zip_file, mbind, M_bind, bind, zip_open.
  unfold env_op, world_of, log_of in *. cbn [fst snd] in *.
  destruct (x_zip_open X (w_tick w) name) as [[]|e]; cbn [fst snd is_ok] in *;
    [|exact Ho].
  match goal with |- context [try_finally body _ ?w1] =>
    specialize (Hb w1); set (wo := w1) in * end.
  unfold try_finally, zip_close, env_op, world_of, log_of in *.
  destruct (body wo) as [[r wb] lb]. cbn [fst snd] in *.
  pose proof (seq_trans (R := provenance X) _ _ _ _ _ Ho Hb) as Hob.
  assert (Hfin : forall b0 : bool,
            provenance X w (World (w_pipe wb) (w_dirs wb) (w_files wb) (S (w_tick wb)))
              (Entry (EZipOpen name) true (w_pipe w)
               :: lb ++ [Entry (EZipClose name) b0 (w_pipe wb)])).
  { intros b0.
    apply (provenance_snoc w wb _ (Entry (EZipOpen name) true (w_pipe w) :: lb));
      [exact Hob | reflexivity | reflexivity |].
    exists (Entry (EZipOpen name) true (w_pipe w)).
    split; [apply list_elem_of_here | split; reflexivity]. }
  destruct (x_zip_close X (w_tick wb) name) as [[]|e]; cbn [fst snd is_ok same_fs];
    apply Hfin.
Qed.

(** [d = mkdtemp(); path = urlparse(url).path; try: body finally:
    rmtree(d)]: the removal is of the directory that [mkdtemp] returned. *)
Lemma provenance_mkdtemp_try {A} (url : string) (body : string -> string -> M A) :
  (forall d path, tracks (provenance X) (body d path)) ->
  tracks (provenance X)
    (bind (mkdtemp X)
       (fun d => bind (urlparse_path X url)
                   (fun path => try_finally (body d path) (rmtree d)))).
Proof.
  intros Hb w.
  pose proof (provenance_env_op EMkdtemp (x_mkdtemp X)
                (fun d w0 => ({[d]} ∪ w_dirs w0, w_files w0))
                eq_refl eq_refl eq_refl w) as Hm.
  unfold bind, mkdtemp, urlparse_path, lift.
  unfold env_op, world_of, log_of in *. cbn [fst snd] in *.
  destruct (x_mkdtemp X (w_tick w)) as [d|e] eqn:Hd; cbn [fst snd is_ok] in *;
    [|exact Hm].
  destruct (x_urlparse_path X url) as [path|e]; [|rewrite app_nil_r; exact Hm].
  match goal with |- context [try_finally (body d path) _ ?w1] =>
    specialize (Hb d path w1); set (wo := w1) in * end.
  unfold try_finally, rmtree, env_op, world_of, log_of in *.
  destruct (body d path wo) as [[r wb] lb]. cbn [fst snd is_ok] in *.
  pose proof (seq_trans (R := provenance X) _ _ _ _ _ Hm Hb) as Hmb.
  cbn [app].
  apply (provenance_snoc w wb _ (Entry EMkdtemp true (w_pipe w) :: lb));
    [exact Hmb | reflexivity | reflexivity |].
  exists [], (Entry EMkdtemp true (w_pipe w)), lb.
  split; [reflexivity|]. split; [reflexivity|]. split; [reflexivity|].
  change (externals (@nil entry)) with 0. rewrite Nat.add_0_r. exact Hd.
Qed.

End ExitFacts.

Ltac exits_step :=
  lazymatch goal with
  | |- tracks (provenance _) (ret _) => apply (tracks_ret (provenance _))
  | |- tracks (provenance _) (mret _) => apply (tracks_ret (provenance _))
  | |- tracks (provenance _) (lift _) => apply (tracks_lift (provenance _))
  | |- tracks (provenance _) (with_open_wb _ _ _) => apply provenance_with_open_wb
  | |- tracks (provenance _) (with_zip_file _ _ _) => apply provenance_with_zip_file
  | |- tracks (provenance _) (bind _ _) => apply (tracks_bind (provenance _)); [| intros ?]
  | |- tracks (provenance _) (mbind _ _) => apply (tracks_bind (provenance _)); [| intros ?]
  | |- tracks (provenance _) (for_each _ _) =>
      apply (tracks_for_each (provenance _)); intros ?
  | |- tracks (provenance _) (for_enumerate _ _ _) =>
      apply (tracks_for_enumerate (provenance _)); intros ? ?
  | |- tracks (provenance _) (list_comp _ _) =>
      apply (tracks_list_comp (provenance _)); intros ?
  | |- tracks (provenance _) (if ?b then _ else _) => destruct b
  | |- tracks (provenance _) (match ?o with Some _ => _ | None => _ end) => destruct o
  | |- tracks (provenance _) (pipe_op _ _) => apply provenance_pipe_op; reflexivity
  | |- tracks (provenance _) (env_op _ _ _) => apply provenance_env_op; reflexivity
  | |- tracks (provenance _) ?c => let h := head_of c in unfold h
  end.

Ltac exits_run := repeat (exits_step; cbv beta zeta).

Section FailFastFacts.

Context {pstate : Type} `{Pipeline pstate}.
Variable X : Ext.

Abbreviation M := (@M pstate).
Abbreviation world := (world pstate).
Abbreviation entry := (entry pstate).

Lemma download_body_provenance (url lp : string) :
  tracks (provenance X) (download_body X url lp).
Proof. exits_run. Qed.

Lemma load_lora_opt_provenance (s : string) :
  tracks (provenance X) (load_lora_opt X pipe_qwen s).
Proof.
  destruct (startswith "http" (strip s)) eqn:Hh.
  - destruct (contains "huggingface.co" (strip s) && negb (contains "/blob/" (strip s))
              && negb (contains "/resolve/" (strip s))) eqn:Hc.
    + unfold load_lora_opt. cbv zeta.
      rewrite (startswith_cons_nonempty _ _ _ Hh), Hh, Hc, andb_false_r. exits_run.
    + rewrite (load_lora_opt_download X s Hh Hc).
      exact (provenance_mkdtemp_try X (download_url s)
               (fun d path =>
                  download_body X (download_url s) (path_join d (basename path)))
               (fun d path => download_body_provenance _ _)).
  - unfold load_lora_opt. cbv zeta. rewrite Hh.
    destruct (String.eqb (strip s) EmptyString); [exits_run|].
    destruct (contains "/" (strip s)); cbn [andb negb]; exits_run.
Qed.

Lemma generate_qwen_provenance
    prompt np seed width height gs rand steps n zipf lora ls :
  tracks (provenance X)
    (generate_qwen X prompt np seed width height gs rand steps n zipf lora ls).
Proof.
  intros w. rewrite generate_qwen_phases. revert w.
  unfold generate_qwen_phased, mbind, M_bind.
  apply (tracks_bind (provenance X)); [exits_run | intros sgt].
  apply (tracks_bind (provenance X)); [|intros _; exits_run].
  unfold attach_lora. destruct (_ && _); [|exits_run].
  unfold mbind, M_bind.
  apply (tracks_bind (provenance X)); [apply load_lora_opt_provenance | intros _].
  exits_run.
Qed.

(** X10. [generate_qwen] swallows no exception: it returns only if every
    call it made returned.  When it raises, its log is made of calls that
    returned, then at most one call that raised, and then only the exits
    that were pending: at most one close, that of the file or archive that
    was being written (the close runs however the [with] body ended, and
    may raise too), and then at most one removal of a temporary directory.
    In every run, a close closes a file or archive that an earlier call of
    the run opened, and a removal removes the directory that an earlier
    [mkdtemp] of the run returned. *)
Theorem generate_qwen_fail_fast
    prompt np seed width height gs rand steps n zipf lora ls (w : world) :
  let o := generate_qwen X prompt np seed width height gs rand steps n zipf lora ls w in
  (is_ok (res_of o) = true -> Forall (fun x => ok x = true) (log_of o)) /\
  (is_ok (res_of o) = false ->
   exists pre mid closes rms,
     log_of o = pre ++ mid ++ closes ++ rms /\
     Forall (fun x => ok x = true) pre /\
     Forall (fun x => ok x = false) mid /\ length mid <= 1 /\
     Forall (fun x => is_close (ev x) = true) closes /\ length closes <= 1 /\
     Forall (fun x => is_rmtree (ev x) = true /\ ok x = true) rms /\
     length rms <= 1) /\
  (forall a x b,
     log_of o = a ++ x :: b ->
     match ev x with
     | EClose p => exists y, y ∈ a /\ ev y = EOpenWb p /\ ok y = true
     | EZipClose p => exists y, y ∈ a /\ ev y = EZipOpen p /\ ok y = true
     | ERmtree d =>
         exists a1 y a2,
           a = a1 ++ y :: a2 /\ ev y = EMkdtemp /\ ok y = true /\
           x_mkdtemp X (w_tick w + externals a1) = Ok d
     | _ => True
     end).
Proof.
  intros o.
  pose proof (generate_qwen_strict X prompt np seed width height gs rand steps n zipf
                lora ls w) as Hs.
  pose proof (generate_qwen_provenance prompt np seed width height gs rand steps n zipf
                lora ls w) as [_ Hp].
  fold o in Hs, Hp. split; [|split].
  - destruct (res_of o); [intros _; exact Hs | discriminate].
  - destruct (res_of o); [discriminate | intros _; exact Hs].
  - intros a x b E. exact (Hp a x b E).
Qed.

End FailFastFacts.

(** ** Files are never cleaned up *)

Section PersistFacts.

Context {pstate : Type} `{Pipeline pstate}.

Abbreviation M := (@M pstate).
Abbreviation world := (world pstate).
Abbreviation entry := (entry pstate).

#[global] Instance persists_sequential : Sequential (@persists pstate).
Proof.
  split.
  - intros w k Hk _. exact Hk.
  - intros w w1 w2 l1 l2 H1 H2 k Hk Hrm.
    apply H2; [apply H1; [exact Hk|]|]; intros x d Hx; apply Hrm; set_solver.
Qed.

Lemma persists_pipe_op {A} e (f : pstate -> res A * pstate) :
  tracks persists (pipe_op e f).
Proof.
  intros w k Hk _. unfold pipe_op, world_of.
  destruct (f (w_pipe w)) as [r p]. exact Hk.
Qed.

Lemma persists_env_op {A} e (f : nat -> res A)
    (upd : A -> world -> gset string * gmap string content) :
  (forall a (w : world) k,
     is_Some (w_files w !! k) ->
     (forall d, e = ERmtree d -> startswith (d +:+ "/") k = false) ->
     is_Some ((upd a w).2 !! k)) ->
  tracks persists (env_op e f upd).
Proof.
  intros Hupd w k Hk Hrm. unfold env_op, world_of, log_of in *.
  cbn [fst snd w_files] in *.
  destruct (f (w_tick w)) as [a|e0]; cbn [snd]; [|exact Hk].
  apply Hupd; [exact Hk|]. intros d He.
  apply (Hrm (Entry e true (w_pipe w)) d); [set_solver | exact He].
Qed.

End PersistFacts.

Ltac persists_side :=
  let Hk := fresh "Hk" in
  let Hrm := fresh "Hrm" in
  intros ? ? ? Hk Hrm; cbn [fst snd same_fs put_file] in *;
  first
    [ exact Hk
    | erewrite lookup_rmtree_other; [exact Hk | rewrite (Hrm _ eq_refl); discriminate]
    | repeat match goal with
             | |- context [match ?m !! ?p with _ => _ end] => destruct (m !! p) as [[]|]
             end;
      cbn [snd put_file]; apply lookup_insert_is_Some'; right; exact Hk ].

Ltac persists_step :=
  lazymatch goal with
  | |- tracks persists (ret _) => apply (tracks_ret persists)
  | |- tracks persists (mret _) => apply (tracks_ret persists)
  | |- tracks persists (lift _) => apply (tracks_lift persists)
  | |- tracks persists (bind _ _) => apply (tracks_bind persists); [| intros ?]
  | |- tracks persists (mbind _ _) => apply (tracks_bind persists); [| intros ?]
  | |- tracks persists (try_finally _ _) => apply (tracks_try_finally persists)
  | |- tracks persists (for_each _ _) => apply (tracks_for_each persists); intros ?
  | |- tracks persists (for_enumerate _ _ _) =>
      apply (tracks_for_enumerate persists); intros ? ?
  | |- tracks persists (list_comp _ _) => apply (tracks_list_comp persists); intros ?
  | |- tracks persists (if ?b then _ else _) => destruct b
  | |- tracks persists (match ?o with Some _ => _ | None => _ end) => destruct o
  | |- tracks persists (pipe_op _ _) => apply persists_pipe_op
  | |- tracks persists (env_op _ _ _) => apply persists_env_op; persists_side
  | |- tracks persists ?c => let h := head_of c in unfold h
  end.

Ltac persists_run := repeat (persists_step; cbv beta zeta).

Section NoCleanup.

Context {pstate : Type} `{Pipeline pstate}.
Variable X : Ext.

Abbreviation M := (@M pstate).
Abbreviation world := (world pstate).
Abbreviation entry := (entry pstate).

Lemma generate_qwen_persists
    prompt np seed width height gs rand steps n zipf lora ls :
  tracks (@persists pstate)
    (generate_qwen X prompt np seed width height gs rand steps n zipf lora ls).
Proof. persists_run. Qed.

(** X12. [generate_qwen] removes no file but those below the temporary
    directory of a LoRA download: whether it returns or raises, a file
    that existed before the request still exists after it (the images and
    archives of earlier requests among them), unless it lies below a
    directory that the request removed with [shutil.rmtree]. *)
Theorem generate_qwen_removes_no_file
    prompt np seed width height gs rand steps n zipf lora ls (w : world) (k : string) :
  let o := generate_qwen X prompt np seed width height gs rand steps n zipf lora ls w in
  is_Some (w_files w !! k) ->
  (forall x d, x ∈ log_of o -> ev x = ERmtree d -> startswith (d +:+ "/") k = false) ->
  is_Some (w_files (world_of o) !! k).
Proof.
  intros o Hk Hrm.
  exact (generate_qwen_persists prompt np seed width height gs rand steps n zipf lora ls
           w k Hk Hrm).
Qed.

End NoCleanup.

(** ** The presets and the sliders *)

Section FormGrid.

Import Form.

(** X15. No preset of the aspect-ratio table fits the step of the size
    sliders: for every ratio of the table, the width or the height that
    [set_dimensions] sets is not of the form [minimum + i * step] of its
    slider (the initial values of the sliders are). *)
Theorem set_dimensions_off_grid (ar : string) (w h : Z) :
  set_dimensions ar = Some (GrUpdate (Some w) None, GrUpdate (Some h) None) ->
  ~ (on_grid width_slider w /\ on_grid height_slider h) /\
  on_grid width_slider (sl_value width_slider) /\
  on_grid height_slider (sl_value height_slider).
Proof.
  unfold set_dimensions.
  destruct (dict_get aspect_ratios ar) as [[w0 h0]|] eqn:E; [|discriminate].
  intros [= -> ->]. split; [|split; reflexivity].
  unfold on_grid, width_slider, height_slider. cbn [sl_minimum sl_step].
  destruct (dict_get_aspect_ratios _ _ E)
    as [[_ [= -> ->]]|[[_ [= -> ->]]|[[_ [= -> ->]]|[[_ [= -> ->]]|[_ [= -> ->]]]]]];
    intros [Hw Hh]; vm_compute in Hw, Hh; discriminate.
Qed.

End FormGrid.

(** ** Runs of the reference world, continued *)

Section RefWorldMore.

Lemma randomize_seed_fn_range_witness :
  Form.in_range Form.seed_slider 7 /\
  exists v, res_of (randomize_seed_fn ext0 7 true world0) = Ok v /\
            Form.in_range Form.seed_slider v.
Proof.
  assert (H7 : Form.in_range Form.seed_slider 7).
  { unfold Form.in_range, Form.seed_slider, MAX_SEED. cbn. lia. }
  split; [exact H7|].
  destruct (randomize_seed_fn_range ext0 7 true world0 H7) as (v & Hr & Hv & _).
  exists v. split; assumption.
Defined.

Lemma generate_qwen_images_witness :
  let o := generate_qwen ext0 "a cat" "blurry" 7 1024 1024 4.0 true 50 2 true
             "owner/name" 1.0 world0 in
  res_of o = Ok (["uuid-4.png"; "uuid-6.png"], 12345%Z, "7.00", Some "uuid-8.zip") /\
  exists imgs,
    image_saves (log_of o) = zip imgs ["uuid-4.png"; "uuid-6.png"] /\ length imgs = 2.
Proof.
  intros o. split; [vm_compute; reflexivity|].
  destruct (generate_qwen_images ext0 "a cat" "blurry" 7 1024 1024 4.0 true 50 2 true
              "owner/name" 1.0 world0 (world_of o)
              ["uuid-4.png"; "uuid-6.png"] 12345%Z "7.00" (Some "uuid-8.zip") (log_of o))
    as (imgs & _ & Hlen & Hs & _); [vm_compute; reflexivity|].
  exists imgs. split; [exact Hs | symmetry; exact Hlen].
Defined.

Lemma generate_negative_prompt_witness :
  let o := generate ext0 "a dog" "blurry" false 7 1024 1024 4.0 false 50 1 false
             EmptyString 1.0 world0 in
  exists x a,
    log_of o !! 4 = Some x /\ ev x = EPipeCall a /\ ca_negative_prompt a = EmptyString.
Proof.
  intros o.
  assert (Hx : log_of o !! 4 =
               Some (Entry (EPipeCall (CallArgs "a dog" EmptyString 1024 1024 4.0 50 1
                                         (Generator 7) "pil")) true fresh_pipe))
    by (vm_compute; reflexivity).
  eexists. eexists. split; [exact Hx|]. split; [reflexivity|].
  exact (generate_negative_prompt ext0 "a dog" "blurry" false 7 1024 1024 4.0 false 50 1
           false EmptyString 1.0 world0 _ _ (list_elem_of_lookup_2 _ _ _ Hx) eq_refl).
Defined.

(** A bare name: nothing is loaded, and [set_adapters] raises on the
    adapter that is not there. *)
Lemma generate_qwen_plain_name_witness :
  let o := generate_qwen ext0 "a cat" "blurry" 7 1024 1024 4.0 false 50 1 false
             "mylora" 1.0 world0 in
  res_of o = Raise ValueError /\
  Forall (fun x => is_load (ev x) = false /\ is_download (ev x) = false) (log_of o).
Proof.
  intros o. split; [vm_compute; reflexivity|].
  exact (proj1 (generate_qwen_plain_name ext0 "a cat" "blurry" 7 1024 1024 4.0 false 50 1
                  false "mylora" 1.0 world0 eq_refl eq_refl eq_refl)).
Defined.

Lemma load_lora_opt_download_ok_witness :
  let s := "https://example.com/files/lora.safetensors" in
  let o := load_lora_opt ext0 pipe_qwen s world0 in
  res_of o = Ok tt /\
  exists d path resp,
    x_mkdtemp ext0 0 = Ok d /\
    x_urlparse_path ext0 (download_url s) = Ok path /\
    x_http_get ext0 2 (download_url s) = Ok resp /\
    resp_status resp = Ok tt.
Proof.
  intros s o. split; [vm_compute; reflexivity|].
  destruct (load_lora_opt_download_ok ext0 s world0 (world_of o) (log_of o)
              eq_refl eq_refl)
    as (d & path & resp & w1 & l1 & Hd & Hp & Hg & Hs & _); [vm_compute; reflexivity|].
  exists d, path, resp. auto.
Defined.

Lemma load_lora_opt_download_files_witness :
  let s := "https://example.com/files/lora.safetensors" in
  let o := load_lora_opt ext0 pipe_qwen s world_kept in
  w_files (world_of o) !! "/tmp/tmp0/lora.safetensors" = None /\
  w_files (world_of o) !! "keep.txt" = w_files world_kept !! "keep.txt".
Proof.
  intros s o.
  assert (Hne : "/tmp/tmp0" <> EmptyString) by discriminate.
  destruct (load_lora_opt_download_files ext0 s "/tmp/tmp0" "/files/lora.safetensors"
              world_kept eq_refl eq_refl eq_refl eq_refl Hne eq_refl) as [_ Hf].
  split; [exact (Hf "/tmp/tmp0/lora.safetensors") | exact (Hf "keep.txt")].
Defined.

Lemma generate_qwen_duration_witness :
  let o := generate_qwen ext0 "a cat" "blurry" 7 1024 1024 4.0 true 50 2 true
             "owner/name" 1.0 world0 in
  res_of o = Ok (["uuid-4.png"; "uuid-6.png"], 12345%Z, "7.00", Some "uuid-8.zip") /\
  exists pre x0 lcl la xc x1 lout lfin,
    log_of o = pre ++ x0 :: lcl ++ la ++ xc :: x1 :: lout ++ lfin /\
    ev x0 = ETime /\ ev x1 = ETime /\ is_pipe_call (ev xc) = true /\
    Forall (fun x => is_output (ev x) = true) lout /\
    Forall (fun x => is_cleanup (ev x) = true) lfin /\ lfin <> [].
Proof.
  intros o. split; [vm_compute; reflexivity|].
  destruct (generate_qwen_duration ext0 "a cat" "blurry" 7 1024 1024 4.0 true 50 2 true
              "owner/name" 1.0 world0 (world_of o)
              ["uuid-4.png"; "uuid-6.png"] 12345%Z "7.00" (Some "uuid-8.zip") (log_of o))
    as (pre & x0 & lcl & la & xc & x1 & lout & lfin
        & Hl & H0 & H1 & Hc & _ & _ & _ & _ & _ & Hout & Hfin & Hne);
    [vm_compute; reflexivity|].
  exists pre, x0, lcl, la, xc, x1, lout, lfin. auto 10.
Defined.

Lemma generate_qwen_files_untouched_witness :
  let o := generate_qwen ext0 "a cat" "blurry" 7 1024 1024 4.0 false 50 1 true
             "https://example.com/files/lora.safetensors" 1.0 world_kept in
  res_of o = Ok (["uuid-13.png"], 7%Z, "77.00", Some "uuid-15.zip") /\
  w_files (world_of o) !! "keep.txt" = w_files world_kept !! "keep.txt".
Proof.
  intros o. split; [vm_compute; reflexivity|].
  refine (proj1 (generate_qwen_files_untouched ext0 "a cat" "blurry" 7 1024 1024 4.0
                   false 50 1 true "https://example.com/files/lora.safetensors" 1.0
                   world_kept (world_of o)
                   ["uuid-13.png"] 7%Z "77.00" (Some "uuid-15.zip") (log_of o)
                   "keep.txt" _ eq_refl eq_refl _ _ _)).
  - vm_compute; reflexivity.
  - intros Hin. apply list_elem_of_singleton in Hin. discriminate Hin.
  - discriminate.
  - intros x Hx Hd Ht.
    remember (log_of o) as l eqn:El. vm_compute in El. subst l.
    repeat (apply elem_of_cons in Hx as [->|Hx];
            [vm_compute in Hd; vm_compute in Ht;
             first [discriminate Hd | discriminate Ht | contradiction]|]).
    inversion Hx.
Defined.

Lemma set_dimensions_off_grid_witness :
  ~ (Form.on_grid Form.width_slider 1328 /\ Form.on_grid Form.height_slider 1328).
Proof.
  exact (proj1 (set_dimensions_off_grid "1:1" 1328 1328 eq_refl)).
Defined.

Lemma generate_qwen_removes_no_file_witness :
  let o := generate_qwen ext0 "a cat" "blurry" 7 1024 1024 4.0 false 50 1 true
             "https://example.com/files/lora.safetensors" 1.0 world_kept in
  map ev (log_of o) !! 14 = Some (ERmtree "/tmp/tmp2") /\
  is_Some (w_files (world_of o) !! "keep.txt").
Proof.
  intros o. split; [vm_compute; reflexivity|].
  refine (generate_qwen_removes_no_file ext0 "a cat" "blurry" 7 1024 1024 4.0 false 50 1
            true "https://example.com/files/lora.safetensors" 1.0 world_kept "keep.txt"
            _ _).
  - exists (FBytes ["x"]). vm_compute. reflexivity.
  - intros x d Hx Hd.
    remember (log_of (generate_qwen ext0 "a cat" "blurry" 7 1024 1024 4.0 false 50 1 true
                        "https://example.com/files/lora.safetensors" 1.0 world_kept))
      as l eqn:El.
    vm_compute in El. subst l.
    repeat (apply elem_of_cons in Hx as [->|Hx];
            [cbn [ev] in Hd; first [discriminate Hd | injection Hd as <-; reflexivity]|]).
    inversion Hx.
Defined.

End RefWorldMore.
